(** * LADFA post-processor: a shallow embedding of [post_processor.py]

    The development follows the Python module top-down: Python values and
    exceptions, the [str] methods the module calls, the entity normaliser
    ([singularize_phrase], [get_abbreviation], [remove_spaces]), the party
    classifier, the graph builder [get_data_flow_graph_revised], the
    metrics ([process], [get_percentage], the scores of [post_processing],
    [finding_tree]) and the verification sampler. *)

From Stdlib Require Import ZArith QArith Qround Qpower Ascii String Sorted.
From Stdlib Require Import Floats.SpecFloat.
From stdpp Require Import base list strings gmap.

Local Open Scope Z_scope.

(** ** Exceptions

    Fallible Python code is embedded in an error monad: a computation either
    returns a value or raises one of the built-in exceptions the module can
    run into. *)

Inductive exn : Type :=
  | KeyError | IndexError | TypeError | AttributeError
  | ZeroDivisionError | ValueError | OverflowError | RecursionError.

Inductive res (A : Type) : Type :=
  | Ok (a : A)
  | Raise (e : exn).
Arguments Ok {A} a.
Arguments Raise {A} e.

Global Instance res_ret : MRet res := fun _ a => Ok a.
Global Instance res_bind : MBind res := fun _ _ f m =>
  match m with Ok a => f a | Raise e => Raise e end.
Global Instance res_fmap : FMap res := fun _ _ f m =>
  match m with Ok a => Ok (f a) | Raise e => Raise e end.

(** [for x in xs: acc = f(acc, x)] with exceptions. *)
Fixpoint foldM {A B} (f : B → A → res B) (acc : B) (xs : list A) : res B :=
  match xs with
  | [] => Ok acc
  | x :: xs' => acc' ← f acc x; foldM f acc' xs'
  end.

(** ** Python [str] methods (on 8-bit characters) *)

Module Py.

(** [c.isspace()] on the ASCII range. *)
Definition is_space (c : ascii) : bool :=
  let n := nat_of_ascii c in
  ((9 <=? n)%nat && (n <=? 13)%nat) || ((28 <=? n)%nat && (n <=? 32)%nat).

Definition is_upper_char (c : ascii) : bool :=
  let n := nat_of_ascii c in (65 <=? n)%nat && (n <=? 90)%nat.
Definition is_lower_char (c : ascii) : bool :=
  let n := nat_of_ascii c in (97 <=? n)%nat && (n <=? 122)%nat.
Definition is_digit (c : ascii) : bool :=
  let n := nat_of_ascii c in (48 <=? n)%nat && (n <=? 57)%nat.

Definition lower_char (c : ascii) : ascii :=
  if is_upper_char c then ascii_of_nat (nat_of_ascii c + 32) else c.

Fixpoint existsb_str (p : ascii → bool) (s : string) : bool :=
  match s with
  | EmptyString => false
  | String c s' => p c || existsb_str p s'
  end.

(** [s.lower()] *)
Fixpoint lower (s : string) : string :=
  match s with
  | EmptyString => EmptyString
  | String c s' => String (lower_char c) (lower s')
  end.

(** [s.isupper()]: some cased character, and no lower-case one. *)
Definition isupper (s : string) : bool :=
  existsb_str is_upper_char s && negb (existsb_str is_lower_char s).

(** [s.startswith(p)], [s.endswith(p)] *)
Definition startswith (p s : string) : bool := String.prefix p s.
Definition endswith (p s : string) : bool :=
  String.prefix (String.rev p) (String.rev s).

(** [s.split()]: maximal runs of non-whitespace characters. [cur] is the
    word being read, reversed. *)
Fixpoint split_go (cur : string) (s : string) : list string :=
  match s with
  | EmptyString =>
      match cur with EmptyString => [] | _ => [String.rev cur] end
  | String c s' =>
      if is_space c then
        match cur with
        | EmptyString => split_go EmptyString s'
        | _ => String.rev cur :: split_go EmptyString s'
        end
      else split_go (String c cur) s'
  end.
Definition split (s : string) : list string := split_go EmptyString s.

(** [sep.join(xs)] *)
Fixpoint join (sep : string) (xs : list string) : string :=
  match xs with
  | [] => EmptyString
  | [x] => x
  | x :: xs' => x +:+ sep +:+ join sep xs'
  end.

(** [s.find(sub)]: least index at which [sub] occurs, or -1. *)
Fixpoint find_from (i : Z) (sub s : string) : Z :=
  if String.prefix sub s then i
  else match s with
       | EmptyString => -1
       | String _ s' => find_from (i + 1) sub s'
       end.
Definition find (sub s : string) : Z := find_from 0 sub s.

(** [sub in s] *)
Definition contains (sub s : string) : bool := 0 <=? find sub s.

(** [s.replace(old, '')]: the occurrences of [old] are deleted from left to
    right, without overlap; [skip] counts the characters of a found
    occurrence still to be dropped. *)
Fixpoint remove_go (old : string) (skip : nat) (s : string) : string :=
  match s with
  | EmptyString => EmptyString
  | String c s' =>
      match skip with
      | S k => remove_go old k s'
      | O => if String.prefix old s
             then remove_go old (String.length old - 1) s'
             else String c (remove_go old O s')
      end
  end.
Definition remove_all (old s : string) : string :=
  match old with
  | EmptyString => s
  | _ => remove_go old O s
  end.

(** [s.strip(chars)] and [s.strip()] *)
Fixpoint lstrip (p : ascii → bool) (s : string) : string :=
  match s with
  | EmptyString => EmptyString
  | String c s' => if p c then lstrip p s' else s
  end.
Definition strip_by (p : ascii → bool) (s : string) : string :=
  String.rev (lstrip p (String.rev (lstrip p s))).
Definition strip (s : string) : string := strip_by is_space s.
Definition strip_quote (s : string) : string :=
  strip_by (fun c => bool_decide (c = "'"%char)) s.

(** Slices [s[lo:hi]] with Python's treatment of negative and
    out-of-range bounds. *)
Definition clamp (len i : Z) : Z :=
  if i <? 0 then Z.max (i + len) 0 else Z.min i len.
Definition slice (lo hi : Z) (s : string) : string :=
  let n := Z.of_nat (String.length s) in
  let a := clamp n lo in
  let b := clamp n hi in
  String.substring (Z.to_nat a) (Z.to_nat (b - a)) s.
Definition slice_from (lo : Z) (s : string) : string :=
  slice lo (Z.of_nat (String.length s)) s.

(** The same for lists: [xs[:n]]. *)
Definition list_slice_to {A} (n : Z) (xs : list A) : list A :=
  take (Z.to_nat (clamp (Z.of_nat (length xs)) n)) xs.

(** [s[0]] *)
Definition first_char (s : string) : res ascii :=
  match s with
  | EmptyString => Raise IndexError
  | String c _ => Ok c
  end.

End Py.

(** ** Python values read from the annotation files

    The JSON-valued columns decode to dictionaries, lists, strings, numbers,
    booleans and [None]. A dictionary keeps its items in insertion order. *)

Local Set Warnings "-register-all".

Inductive json : Type :=
  | JNull
  | JBool (b : bool)
  | JNum (n : Z)
  | JStr (s : string)
  | JArr (items : list json)
  | JObj (fields : list (string * json)).

Fixpoint assoc {A} (k : string) (kv : list (string * A)) : option A :=
  match kv with
  | [] => None
  | (k', v) :: kv' => if decide (k = k') then Some v else assoc k kv'
  end.

(** [v[k]] for a string key [k]. *)
Definition getitem (v : json) (k : string) : res json :=
  match v with
  | JObj kv => match assoc k kv with Some x => Ok x | None => Raise KeyError end
  | _ => Raise TypeError
  end.

(** [len(v)] *)
Definition py_len (v : json) : res nat :=
  match v with
  | JArr l => Ok (length l)
  | JObj kv => Ok (length kv)
  | JStr s => Ok (String.length s)
  | _ => Raise TypeError
  end.

Fixpoint chars_of (s : string) : list json :=
  match s with
  | EmptyString => []
  | String c s' => JStr (String c EmptyString) :: chars_of s'
  end.

(** [for item in v] *)
Definition py_iter (v : json) : res (list json) :=
  match v with
  | JArr l => Ok l
  | JObj kv => Ok (JStr <$> kv.*1)
  | JStr s => Ok (chars_of s)
  | _ => Raise TypeError
  end.

(** [v[0]] *)
Definition py_head (v : json) : res json :=
  match v with
  | JArr (x :: _) => Ok x
  | JArr [] => Raise IndexError
  | JStr (String c _) => Ok (JStr (String c EmptyString))
  | JStr EmptyString => Raise IndexError
  | JObj _ => Raise KeyError
  | _ => Raise TypeError
  end.

(** A value used where the code calls a [str] method on it. *)
Definition as_str (v : json) : res string :=
  match v with
  | JStr s => Ok s
  | _ => Raise AttributeError
  end.

(** [a + b] where [b] is a [str]. *)
Definition str_add (v : json) (b : string) : res string :=
  match v with
  | JStr s => Ok (s +:+ b)
  | _ => Raise TypeError
  end.

(** [s in v] for a string [s]. *)
Definition str_in (s : string) (v : json) : res bool :=
  match v with
  | JStr t => Ok (Py.contains s t)
  | JArr l => Ok (existsb (fun x => match x with
                                    | JStr t => bool_decide (t = s)
                                    | _ => false
                                    end) l)
  | JObj kv => Ok (bool_decide (s ∈ kv.*1))
  | _ => Raise TypeError
  end.

(** [v == s] for a string [s]. *)
Definition eq_str (v : json) (s : string) : bool :=
  match v with
  | JStr t => bool_decide (t = s)
  | _ => false
  end.

(** ** External collaborators

    [json.loads], inflect's [singular_noun] and the spaCy pipeline [nlp] are
    libraries outside the module. They are taken as parameters. The decoder
    fails with a [JSONDecodeError] message ([inl]), delivers a value ([inr],
    a dictionary with repeated keys already resolved), or raises an exception
    that is no [JSONDecodeError] and that the module does not catch: a plain
    [ValueError] for an integer literal beyond the digit limit, a
    [RecursionError] for a text nested too deeply. [singular_noun] returns
    [False] ([None]) or a string, and [nlp] returns the tokens of a phrase
    with their dependency and part-of-speech labels. *)

Record token : Type := Token { tok_text : string; dep_ : string; pos_ : string }.

Class Collaborators : Type := {
  json_loads : string → res (string + json);
  singular_noun : string → option string;
  nlp : string → list token
}.

(** ** Entity normaliser *)

Section Normaliser.
Context `{Collaborators}.

Definition get_main (phrase : string) : string :=
  let doc := nlp phrase in
  match filter (fun t => dep_ t = "ROOT") doc with
  | t :: _ => tok_text t
  | [] => match last (filter (fun t => pos_ t = "NOUN") doc) with
          | Some t => tok_text t
          | None => phrase
          end
  end.

Definition get_poss (phrase : string) : string :=
  match last (filter (fun t => dep_ t = "poss") (nlp phrase)) with
  | Some t => tok_text t
  | None => phrase
  end.

Definition is_abbreviation (word : string) : bool :=
  Py.isupper word
  || Py.existsb_str (fun c => Py.is_digit c
                              || bool_decide (c = "&"%char)
                              || bool_decide (c = "+"%char)) word
  || Py.endswith "'s" word.

Definition singularize_word (exclusions : list string) (word : string) : string :=
  if is_abbreviation word || bool_decide (word ∈ exclusions) then word
  else match singular_noun word with
       | Some EmptyString | None => word
       | Some w => w
       end.

Definition singularize_phrase (phrase : string) (exclusions : list string) : string :=
  if bool_decide (phrase ∈ exclusions) then phrase
  else Py.join " " (singularize_word exclusions <$> Py.split phrase).

End Normaliser.

Definition remove_spaces (text : string) : res string :=
  c ← Py.first_char text;
  let text := if bool_decide (c = " "%char) then Py.slice_from 1 text else text in
  let text := if bool_decide (text = " ")
              then Py.slice 0 (Z.of_nat (String.length text) - 2) text
              else text in
  Ok text.

(** [re.findall(r'\(([^)]+)\)', text)]: scanning from the left, an opening
    parenthesis starts a group that runs to the next closing one and must be
    non-empty; [cur] is the group being read, reversed. *)
Fixpoint findall_go (cur : option string) (s : string) : list string :=
  match s with
  | EmptyString => []
  | String c s' =>
      match cur with
      | None =>
          if bool_decide (c = "("%char) then findall_go (Some EmptyString) s'
          else findall_go None s'
      | Some buf =>
          if bool_decide (c = ")"%char) then
            match buf with
            | EmptyString => findall_go None s'
            | _ => String.rev buf :: findall_go None s'
            end
          else findall_go (Some (String c buf)) s'
      end
  end.
Definition findall_parens (text : string) : list string := findall_go None text.

Fixpoint string_of_chars (cs : list ascii) : string :=
  match cs with
  | [] => EmptyString
  | c :: cs' => String c (string_of_chars cs')
  end.

(** [''.join(item[0] for item in words)] *)
Definition initials (ws : list string) : res string :=
  string_of_chars <$> mapM Py.first_char ws.

(** [if k not in d: d[k] = v] *)
Definition register (k v : string) (d : gmap string string) : gmap string string :=
  match d !! k with
  | Some _ => d
  | None => <[k:=v]> d
  end.

(** [text.replace('(', '').replace(')', '').replace(what, '')] *)
Definition strip_markers (text what : string) : string :=
  Py.remove_all what (Py.remove_all ")" (Py.remove_all "(" text)).

(** One of the two symmetric blocks of the single-token branch: [words] are
    the candidate words next to the parenthetical. In the block for the
    preceding words the rewrite comes before the registration, in the one for
    the following words after it; neither order is observable. *)
Definition match_single (text abbreviation : string) (words : list string)
    (st : string * gmap string string) : res (string * gmap string string) :=
  abbr ← initials words;
  full ← remove_spaces (Py.join " " words);
  if bool_decide (abbreviation = abbr) then
    processed ← remove_spaces (strip_markers text abbreviation);
    Ok (processed, register abbreviation full st.2)
  else Ok st.

(** One block of the multi-token branch: [sub] is the text before (after)
    the parenthetical, compared through its last word. *)
Definition match_multi (text abbreviation sub : string)
    (st : string * gmap string string) : res (string * gmap string string) :=
  match last (Py.split sub) with
  | None => Ok st
  | Some w =>
      if bool_decide (abbreviation = w) then
        processed ← remove_spaces (strip_markers text sub);
        Ok (processed, register abbreviation sub st.2)
      else Ok st
  end.

Definition get_abbreviation (text : string) (abbreviation_dict : gmap string string)
    : res (string * gmap string string) :=
  match findall_parens text with
  | [text_brackets] =>
      let tmp_arr := Py.split text_brackets in
      let pos_1 := Py.find "(" text in
      let pos_2 := Py.find ")" text in
      let sub_string_1 := Py.slice 0 (pos_1 - 1) text in
      let sub_string_2 := Py.slice_from (pos_2 + 1) text in
      match tmp_arr with
      | [] => Ok (text, abbreviation_dict)
      | [abbreviation] =>
          let sub_string_1_arr := Py.split sub_string_1 in
          let abbreviation_len := String.length abbreviation in
          st ← (if (abbreviation_len <=? length sub_string_1_arr)%nat
                then match_single text abbreviation
                       (drop (length sub_string_1_arr - abbreviation_len) sub_string_1_arr)
                       (text, abbreviation_dict)
                else Ok (text, abbreviation_dict));
          let sub_string_2_arr := Py.split sub_string_2 in
          if (abbreviation_len <=? length sub_string_2_arr)%nat
          then match_single text abbreviation
                 (take abbreviation_len sub_string_2_arr) st
          else Ok st
      | _ =>
          abbreviation ← initials tmp_arr;
          st ← match_multi text abbreviation sub_string_1 (text, abbreviation_dict);
          match_multi text abbreviation sub_string_2 st
      end
  | _ => Ok (text, abbreviation_dict)
  end.

(** ** Tolerant decoding of a JSON-valued column

    The result pairs the returned value ([JNull] is [None]) with the lines
    printed on the way. A value that is neither a dictionary nor a string has
    no [startswith]: the [AttributeError] is not caught, and neither is an
    exception of the decoder other than [JSONDecodeError]. *)

Section Loader.
Context `{Collaborators}.

Definition unquote (s : string) : string :=
  if Py.startswith "'" s && Py.endswith "'" s then Py.strip_quote s else s.

Definition load_json_data (json_string : string) : res (json * list string) :=
  let json_string := Py.strip (unquote json_string) in
  parsed ← json_loads json_string;
  match parsed with
  | inl msg => Ok (JNull, ["Error parsing JSON: " +:+ msg])
  | inr (JObj kv) => Ok (JObj kv, [])
  | inr (JStr s) =>
      let parsed_data := Py.strip (unquote s) in
      parsed ← json_loads parsed_data;
      match parsed with
      | inl msg => Ok (JStr parsed_data, ["Error parsing JSON: " +:+ msg])
      | inr v => Ok (v, [])
      end
  | inr _ => Raise AttributeError
  end.

End Loader.

(** ** Party classification *)

Definition first_party_entity_arr : list string :=
  ["we"; "us"; "this website"; "this company"; "this organisation";
   "this organization"; "this app"; "from you"; "our website"; "our";
   "our company"; "our organisation"; "our organization"; "our service";
   "our app"; "the website"; "the company"; "the app"; "the organization";
   "app"; "device"; "your app"; "your device"; "the device"; "your car"; "car"].

Definition first_party_entity_main_root_arr : list string :=
  ["we"; "We"; "us"; "Website"; "website"; "Company"; "company"; "Organisation";
   "organisation"; "Organization"; "organization"; "App"; "app"; "Service";
   "service"; "Device"; "device"; "Car"; "car"; "Site"; "site"].

Definition first_party_entity_poss_arr : list string := ["this"; "our"; "This"; "Our"].

Section Parties.
Context `{Collaborators}.

(** The two inner loops: the flag is raised when the phrase's head is
    [item_root] and its possessive modifier is one of the listed ones. *)
Definition rectify_roots (entity : string) (flag : bool) : bool :=
  foldl (fun flag item_root =>
           flag || existsb (fun item_poss =>
                              bool_decide (get_main entity = item_root)
                              && bool_decide (get_poss entity = item_poss))
                           first_party_entity_poss_arr)
        flag first_party_entity_main_root_arr.

(** The outer loop, left at the first listed phrase equal to [entity]. *)
Fixpoint rectify_items (entity : string) (items : list string) (flag : bool) : bool :=
  match items with
  | [] => flag
  | item :: items' =>
      if bool_decide (entity = item) then true
      else rectify_items entity items' (rectify_roots entity flag)
  end.

Definition rectify_collection_party (entity : string) : bool :=
  rectify_items entity first_party_entity_arr false.

(** [if x not in arr: arr.append(x)] *)
Definition append_new (x : string) (arr : list string) : list string :=
  if bool_decide (x ∈ arr) then arr else arr ++ [x].

Definition get_entity_property (entity : string) (party_category : json)
    (main_party : string) (first_party_arr third_party_arr user_party_arr : list string)
    : string * list string * list string * list string :=
  let entity := Py.lower entity in
  if bool_decide (entity ≠ EmptyString) then
    if 0 <=? Py.find main_party entity then
      ("#ccff99", append_new entity first_party_arr, third_party_arr, user_party_arr)
    else if rectify_collection_party entity then
      ("#ccff99", append_new entity first_party_arr, third_party_arr, user_party_arr)
    else
      let main_part := get_main entity in
      if Py.startswith "you" main_part || Py.startswith "user" main_part
         || Py.startswith "customer" main_part
      then ("#f7ff99", first_party_arr, third_party_arr, append_new entity user_party_arr)
      else if eq_str party_category "Unspecified"
              && bool_decide (entity = "unspecified party")
      then ("#00008B", first_party_arr, third_party_arr, user_party_arr)
      else ("#ff99ff", first_party_arr, append_new entity third_party_arr, user_party_arr)
  else ("#00008B", first_party_arr, third_party_arr, user_party_arr).

End Parties.

(** ** The graph: a networkx [MultiDiGraph]

    Nodes are kept in insertion order with their attribute dictionaries;
    every edge carries the key networkx gives it, the number of edges already
    present on the same ordered pair (edges are never removed here). *)

Record node_attr : Type := NodeAttr {
  n_color : option string;
  n_size : option Z;
  n_title : option string;
  n_shape : option string
}.

Record edge_attr : Type := EdgeAttr {
  e_group : string;
  e_color : string;
  e_description : string;
  e_title : string;
  e_arrows : string
}.

Record edge : Type := Edge {
  e_src : string;
  e_dst : string;
  e_key : nat;
  e_attr : edge_attr
}.

Record graph : Type := Graph {
  nodes : list (string * node_attr);
  edges : list edge
}.

Definition empty_graph : graph := Graph [] [].
Definition no_attr : node_attr := NodeAttr None None None None.

Definition on_pair (u v : string) (e : edge) : bool :=
  bool_decide (e_src e = u) && bool_decide (e_dst e = v).

Definition has_node (g : graph) (n : string) : bool :=
  bool_decide (n ∈ (nodes g).*1).

Definition has_edge (g : graph) (u v : string) : bool :=
  existsb (on_pair u v) (edges g).

Definition number_of_edges_between (g : graph) (u v : string) : nat :=
  length (filter (fun e => on_pair u v e = true) (edges g)).

(** [G.add_node(n, **a)]; the builder only calls it on absent nodes, on a
    present one networkx updates the attributes given. *)
Definition merge_attr (old new : node_attr) : node_attr :=
  NodeAttr (from_option Some (n_color old) (n_color new))
           (from_option Some (n_size old) (n_size new))
           (from_option Some (n_title old) (n_title new))
           (from_option Some (n_shape old) (n_shape new)).

Fixpoint update_node (n : string) (a : node_attr) (ns : list (string * node_attr))
    : list (string * node_attr) :=
  match ns with
  | [] => [(n, a)]
  | (m, b) :: ns' =>
      if decide (m = n) then (m, merge_attr b a) :: ns'
      else (m, b) :: update_node n a ns'
  end.

Definition add_node (g : graph) (n : string) (a : node_attr) : graph :=
  Graph (update_node n a (nodes g)) (edges g).

(** [G.add_edge(u, v, **a)]: the end points are created when absent. *)
Definition add_edge (g : graph) (u v : string) (a : edge_attr) : graph :=
  let g1 := add_node g u no_attr in
  let g2 := add_node g1 v no_attr in
  Graph (nodes g2) (edges g ++ [Edge u v (number_of_edges_between g u v) a]).

(** ** The graph builder [get_data_flow_graph_revised] *)

Definition exclusions : list string :=
  ["Our"; "our"; "we"; "We"; "us"; "Us"; "They"; "they"; "Them"; "them"; "data";
   "Data"; "address"; "Address"; "as"; "As"; "are"; "Are"; "is"; "Is"; "whether";
   "Whether"; "another"; "Another"; "Have"; "have"; "Has"; "has"; "The"; "the"].

Definition data_color : string := "#99ccff".

(** A row of [data_output_arr]. *)
Record output_row : Type := OutputRow {
  o_text : string;
  o_data_type : string;
  o_data_category : json;
  o_sender : string;
  o_receiver : string;
  o_collection_party : json;
  o_collection_purpose : string;
  o_collection_method : json
}.

(** The accumulators of one run; [stdout] keeps the parse reports. *)
Record state : Type := State {
  G : graph;
  data_category_dic : list (string * json);
  first_party_arr : list string;
  third_party_arr : list string;
  user_party_arr : list string;
  data_flow_completed_arr : list string;
  data_flow_no_sender_arr : list string;
  data_flow_no_receiver_arr : list string;
  data_output_arr : list output_row;
  abbreviation_dict : gmap string string;
  stdout : list string
}.

Definition initial_state : state :=
  State empty_graph [] [] [] [] [] [] [] [] ∅ [].

(** The five decoded columns of a row. *)
Record decoded : Type := Decoded {
  d_category : json;
  d_flow : json;
  d_party : json;
  d_purpose : json;
  d_method : json;
  d_reports : list string
}.

(** [row[i]] *)
Definition column (row : list string) (i : nat) : res string :=
  match row !! i with
  | Some x => Ok x
  | None => Raise IndexError
  end.

(** [d[k]] on the segment-text dictionary. *)
Definition lookup_text (text_dictrionary : list (string * string)) (k : string)
    : res string :=
  match assoc k text_dictrionary with
  | Some x => Ok x
  | None => Raise KeyError
  end.

(** [if k not in d: d[k] = v] on the insertion-ordered category map. *)
Definition set_default (k : string) (v : json) (d : list (string * json))
    : list (string * json) :=
  match assoc k d with
  | Some _ => d
  | None => d ++ [(k, v)]
  end.

(** The composite key [sender#type#receiver]. *)
Definition flow_key (sender data_type receiver : string) : string :=
  sender +:+ "#" +:+ data_type +:+ "#" +:+ receiver.

(** [if len(x) > 0: x = remove_spaces(x)] *)
Definition trim (x : string) : res string :=
  match x with
  | EmptyString => Ok x
  | _ => remove_spaces x
  end.

(** ** The segment texts [read_text_segment]

    The function reads the rows of the segment file after its header line,
    which [next] drops. [dict_set] is [d[k] = v] on an insertion-ordered
    dictionary: a key already there keeps its place and takes the value. *)

Fixpoint dict_set {A} (k : string) (v : A) (d : list (string * A)) : list (string * A) :=
  match d with
  | [] => [(k, v)]
  | (k', v') :: d' =>
      if decide (k' = k) then (k', v) :: d' else (k', v') :: dict_set k v d'
  end.

Definition read_text_segment (rows : list (list string)) : res (list (string * string)) :=
  foldM (fun text_dictrionary row =>
           idx ← column row 0;
           text ← column row 1;
           Ok (dict_set idx text text_dictrionary))
        [] rows.

Section Builder.
Context `{Collaborators}.
Variable main_party : string.
Variable text_dictrionary : list (string * string).
Variable purpose_color_map : list (string * string).

Definition decode_row (row : list string) : res decoded :=
  c2 ← column row 2; '(category, r2) ← load_json_data c2;
  c3 ← column row 3; '(flow, r3) ← load_json_data c3;
  c4 ← column row 4; '(party, r4) ← load_json_data c4;
  c5 ← column row 5; '(purpose, r5) ← load_json_data c5;
  c6 ← column row 6; '(method, r6) ← load_json_data c6;
  Ok (Decoded category flow party purpose method (r2 ++ r3 ++ r4 ++ r5 ++ r6)).

(** The category of the last [Output] item; a column that did not decode
    ([None]) leaves the category empty. *)
Definition get_category (data_category_json : json) : res json :=
  match data_category_json with
  | JNull => Ok (JStr EmptyString)
  | _ =>
      output ← getitem data_category_json "Output";
      n ← py_len output;
      if (0 <? n)%nat then
        items ← py_iter output;
        foldM (fun _ item => getitem item "DataCategory") (JStr EmptyString) items
      else Ok (JStr "Unspecified")
  end.

(** Sender and receiver of the last [data] item. *)
Definition get_flow (data_flow_json : json) : res (json * json) :=
  data ← getitem data_flow_json "data";
  n ← py_len data;
  if (0 <? n)%nat then
    items ← py_iter data;
    foldM (fun _ item =>
             s ← getitem item "data_sender";
             r ← getitem item "data_receiver";
             Ok (s, r))
          (JStr EmptyString, JStr EmptyString) items
  else Ok (JStr EmptyString, JStr EmptyString).

(** Singular form, lower case, without the substring [the]. *)
Definition canonical (phrase : string) : string :=
  Py.remove_all "the" (Py.lower (singularize_phrase phrase exclusions)).

(** The normalised triple [(data_type, sender, receiver)] with the
    abbreviation dictionary threaded through the three foldings. *)
Definition normalise (data_type : string) (data_sender data_receiver : json)
    (abbr : gmap string string)
    : res (string * string * string * gmap string string) :=
  sender ← as_str data_sender;
  receiver ← as_str data_receiver;
  '(data_type, abbr) ← get_abbreviation (canonical data_type) abbr;
  '(sender, abbr) ← get_abbreviation (canonical sender) abbr;
  '(receiver, abbr) ← get_abbreviation (canonical receiver) abbr;
  data_type ← trim data_type;
  sender ← trim sender;
  receiver ← trim receiver;
  Ok (data_type, sender, receiver, abbr).

(** The validity gate. *)
Definition valid_triple (sender data_type receiver : string) : bool :=
  bool_decide (sender ≠ data_type) && bool_decide (receiver ≠ data_type)
  && bool_decide (sender ≠ receiver).

(** The three dedup registries. *)
Definition record_flow (sender data_type receiver : string) (st : state) : state :=
  let tmp := flow_key sender data_type receiver in
  let completed :=
    if bool_decide (sender ≠ EmptyString) && bool_decide (receiver ≠ EmptyString)
    then append_new tmp (data_flow_completed_arr st)
    else data_flow_completed_arr st in
  let no_sender :=
    if bool_decide (sender = EmptyString) && bool_decide (receiver ≠ EmptyString)
    then append_new tmp (data_flow_no_sender_arr st)
    else data_flow_no_sender_arr st in
  let no_receiver :=
    if bool_decide (sender ≠ EmptyString) && bool_decide (receiver = EmptyString)
    then append_new tmp (data_flow_no_receiver_arr st)
    else data_flow_no_receiver_arr st in
  State (G st) (data_category_dic st) (first_party_arr st) (third_party_arr st)
        (user_party_arr st) completed no_sender no_receiver
        (data_output_arr st) (abbreviation_dict st) (stdout st).

Definition get_collection_party (party_json : json) (receiver : string) : res json :=
  output ← getitem party_json "Output";
  n ← py_len output;
  if (0 <? n)%nat then
    first ← py_head output;
    category ← getitem first "DataCategory";
    if 0 <=? Py.find main_party receiver then Ok (JStr "First Party")
    else if rectify_collection_party receiver then Ok (JStr "First Party")
    else Ok category
  else Ok (JStr EmptyString).

Definition get_collection_purpose (purpose_json : json) : res string :=
  output ← getitem purpose_json "Output";
  n ← py_len output;
  if (0 <? n)%nat then
    items ← py_iter output;
    foldM (fun acc item =>
             c ← getitem item "DataCategory";
             piece ← str_add c "; ";
             Ok (acc +:+ piece))
          EmptyString items
  else Ok EmptyString.

Definition get_collection_method (method_json : json) (data_type : string) : res json :=
  output ← getitem method_json "Output";
  n ← py_len output;
  if (0 <? n)%nat then
    items ← py_iter output;
    m ← foldM (fun acc item =>
                 reference_text ← getitem item "InputText";
                 found ← str_in data_type reference_text;
                 if found : bool then getitem item "DataCategory" else Ok acc)
              (JStr EmptyString) items;
    if eq_str m EmptyString then first ← py_head output; getitem first "DataCategory"
    else Ok m
  else Ok (JStr EmptyString).

Definition purpose_color_of (purpose : string) : string :=
  match assoc purpose purpose_color_map with
  | Some c => c
  | None => "ff000000"
  end.

(** Nodes and the two edges of an accepted record. *)
Definition add_flow (g : graph) (sender data_type receiver : string)
    (sender_color receiver_color : string) (a : edge_attr) : graph :=
  let g :=
    if has_node g sender then g
    else add_node g sender
           (NodeAttr (Some sender_color) (Some 40)
                     (Some (if bool_decide (sender = EmptyString) then "unknown" else sender))
                     None) in
  let g :=
    if negb (has_node g data_type) && bool_decide (data_type ≠ EmptyString)
    then add_node g data_type
           (NodeAttr (Some data_color) (Some 20) (Some data_type) (Some "box"))
    else g in
  let g :=
    if has_node g receiver then g
    else add_node g receiver
           (NodeAttr (Some receiver_color) (Some 40) (Some receiver) None) in
  let g := if has_edge g sender data_type then g
           else add_edge g sender data_type a in
  if has_edge g data_type receiver then g
  else add_edge g data_type receiver a.

(** The body under the validity gate. *)
Definition accept (raw_idx raw_text : string) (data_category : json)
    (d : decoded) (data_type sender receiver : string) (st : state) : res state :=
  let st := record_flow sender data_type receiver st in
  data_collection_party ← get_collection_party (d_party d) receiver;
  data_collection_purpose ← get_collection_purpose (d_purpose d);
  data_collection_method ← get_collection_method (d_method d) data_type;
  let '(sender_color, first, third, user) :=
    get_entity_property sender data_collection_party main_party
      (first_party_arr st) (third_party_arr st) (user_party_arr st) in
  let '(receiver_color, first, third, user) :=
    get_entity_property receiver data_collection_party main_party first third user in
  let purpose_color := purpose_color_of data_collection_purpose in
  let g := add_flow (G st) sender data_type receiver sender_color receiver_color
             (EdgeAttr raw_idx purpose_color raw_text data_collection_purpose "to") in
  Ok (State g (data_category_dic st) first third user
            (data_flow_completed_arr st) (data_flow_no_sender_arr st)
            (data_flow_no_receiver_arr st)
            (data_output_arr st ++
               [OutputRow raw_text data_type data_category sender receiver
                          data_collection_party data_collection_purpose
                          data_collection_method])
            (abbreviation_dict st) (stdout st)).

(** One iteration of the loop over the rows. *)
Definition process_row (st : state) (row : list string) : res state :=
  raw_idx ← column row 0;
  raw_text ← lookup_text text_dictrionary raw_idx;
  data_type ← column row 1;
  d ← decode_row row;
  data_category ← get_category (d_category d);
  '(data_sender, data_receiver) ← get_flow (d_flow d);
  '(data_type', sender, receiver, abbr) ←
    normalise data_type data_sender data_receiver (abbreviation_dict st);
  let st := State (G st) (set_default data_type data_category (data_category_dic st))
                  (first_party_arr st) (third_party_arr st) (user_party_arr st)
                  (data_flow_completed_arr st) (data_flow_no_sender_arr st)
                  (data_flow_no_receiver_arr st) (data_output_arr st)
                  abbr (stdout st ++ d_reports d) in
  if valid_triple sender data_type' receiver
  then accept raw_idx raw_text data_category d data_type' sender receiver st
  else Ok st.

Definition get_data_flow_graph_revised (rows : list (list string)) : res state :=
  foldM process_row initial_state rows.

End Builder.

(** ** The plain builder [get_data_flow_graph_simple]

    The same loop without the registries, the category map and the output
    rows: entity nodes have no colour, the edge from sender to data type
    carries only its arrow, the edge from data type to receiver the segment
    id and text. The main party given to the function is not used. *)

Module Simple.

Record edge_attr : Type := EdgeAttr {
  e_group : option string;
  e_description : option string;
  e_arrows : string
}.

Record edge : Type := Edge {
  e_src : string;
  e_dst : string;
  e_key : nat;
  e_attr : edge_attr
}.

Record graph : Type := Graph {
  nodes : list (string * node_attr);
  edges : list edge
}.

Definition empty_graph : graph := Graph [] [].

Definition on_pair (u v : string) (e : edge) : bool :=
  bool_decide (e_src e = u) && bool_decide (e_dst e = v).

Definition has_node (g : graph) (n : string) : bool :=
  bool_decide (n ∈ (nodes g).*1).

Definition has_edge (g : graph) (u v : string) : bool :=
  existsb (on_pair u v) (edges g).

Definition number_of_edges_between (g : graph) (u v : string) : nat :=
  length (filter (fun e => on_pair u v e = true) (edges g)).

Definition add_node (g : graph) (n : string) (a : node_attr) : graph :=
  Graph (update_node n a (nodes g)) (edges g).

Definition add_edge (g : graph) (u v : string) (a : edge_attr) : graph :=
  let g1 := add_node g u no_attr in
  let g2 := add_node g1 v no_attr in
  Graph (nodes g2) (edges g ++ [Edge u v (number_of_edges_between g u v) a]).

(** The accumulators of one run. *)
Record state : Type := State {
  G : graph;
  abbreviation_dict : gmap string string;
  stdout : list string
}.

Definition initial_state : state := State empty_graph ∅ [].

(** The attributes of a sender or receiver node. *)
Definition entity_attr (name : string) : node_attr :=
  NodeAttr None (Some 40)
           (Some (if bool_decide (name = EmptyString) then "unknown" else name)) None.

Definition add_flow (g : graph) (sender data_type receiver raw_idx raw_text : string)
    : graph :=
  let g := if has_node g sender then g else add_node g sender (entity_attr sender) in
  let g :=
    if negb (has_node g data_type) && bool_decide (data_type ≠ EmptyString)
    then add_node g data_type
           (NodeAttr (Some data_color) (Some 20) (Some data_type) (Some "box"))
    else g in
  let g := if has_node g receiver then g
           else add_node g receiver (entity_attr receiver) in
  let g := if has_edge g sender data_type then g
           else add_edge g sender data_type (EdgeAttr None None "to") in
  if has_edge g data_type receiver then g
  else add_edge g data_type receiver (EdgeAttr (Some raw_idx) (Some raw_text) "to").

Section Builder.
Context `{Collaborators}.
Variable text_dictrionary : list (string * string).

Definition process_row (st : state) (row : list string) : res state :=
  raw_idx ← column row 0;
  raw_text ← lookup_text text_dictrionary raw_idx;
  data_type ← column row 1;
  d ← decode_row row;
  data_category ← get_category (d_category d);
  '(data_sender, data_receiver) ← get_flow (d_flow d);
  '(data_type', sender, receiver, abbr) ←
    normalise data_type data_sender data_receiver (abbreviation_dict st);
  let out := stdout st ++ d_reports d in
  if valid_triple sender data_type' receiver
  then Ok (State (add_flow (G st) sender data_type' receiver raw_idx raw_text) abbr out)
  else Ok (State (G st) abbr out).

Definition get_data_flow_graph_simple (rows : list (list string)) : res state :=
  foldM process_row initial_state rows.

End Builder.

End Simple.

(** ** Metrics: top-N selection and the derived scores *)

(** [sorted(items, key=lambda x: x[1], reverse=...)]: the stable sort by
    score, written as an insertion sort. [before a b] tells that an item of
    score [a] may stay in front of a later item of score [b]. Scores are
    rationals; the order of the floats that networkx returns is the same. *)
Definition scored : Type := string * Q.

Fixpoint insert_by (before : Q → Q → bool) (x : scored) (l : list scored) : list scored :=
  match l with
  | [] => [x]
  | y :: l' => if before x.2 y.2 then x :: l else y :: insert_by before x l'
  end.

Definition sorted_by (before : Q → Q → bool) (l : list scored) : list scored :=
  foldr (insert_by before) [] l.

Definition ascending (a b : Q) : bool := Qle_bool a b.
Definition descending (a b : Q) : bool := Qle_bool b a.

Definition process (input_data : list scored) (top_n : Z) : list scored :=
  if 0 <? top_n
  then Py.list_slice_to top_n (sorted_by descending input_data)
  else Py.list_slice_to top_n (sorted_by ascending input_data).

(** The three networkx centralities, computed outside the module. *)
Class Centrality : Type := {
  betweenness_centrality : graph → list scored;
  closeness_centrality : graph → list scored;
  degree_centrality : graph → list scored
}.

Definition get_network_stats `{Centrality} (g : graph) (option_ : string) (top_n : Z)
    : option (list scored) :=
  if decide (option_ = "betweenness") then Some (process (betweenness_centrality g) top_n)
  else if decide (option_ = "closeness") then Some (process (closeness_centrality g) top_n)
  else if decide (option_ = "centrality") then Some (process (degree_centrality g) top_n)
  else None.

(** [a / b] on integers: the quotient, or [ZeroDivisionError]. Python
    rounds the quotient to a float; the rounding plays no role below and the
    exact rational stands for it. *)
Definition py_div (a b : Z) : res Q :=
  if b =? 0 then Raise ZeroDivisionError else Ok (a # Z.to_pos b)%Q.

Definition count_in (keys entity_arr : list string) : nat :=
  length (filter (fun k => k ∈ entity_arr) keys).

Definition get_percentage (input_data : option (list scored)) (entity_arr : list string)
    : res (option Q) :=
  match input_data with
  | Some l =>
      q ← py_div (Z.of_nat (count_in l.*1 entity_arr)) (Z.of_nat (length l));
      Ok (Some q)
  | None => Ok None
  end.

Definition transparency_score (no_receiver no_sender completed : list string) : res Q :=
  py_div (Z.of_nat (length no_receiver + length no_sender)) (Z.of_nat (length completed)).

Definition third_party_score (first third user : list string) : res Q :=
  py_div (Z.of_nat (length third))
         (Z.of_nat (length first + length user + length third)).

(** [s.split('#')] *)
Fixpoint split_on_go (sep : ascii) (cur : string) (s : string) : list string :=
  match s with
  | EmptyString => [String.rev cur]
  | String c s' =>
      if bool_decide (c = sep) then String.rev cur :: split_on_go sep EmptyString s'
      else split_on_go sep (String c cur) s'
  end.
Definition split_on (sep : ascii) (s : string) : list string :=
  split_on_go sep EmptyString s.

(** The items of [stats_data]. *)
Inductive stat : Type :=
  | SLine (s : string)
  | SInt (n : Z)
  | SNum (q : Q)
  | SNone.

Record tally : Type := Tally {
  count_u_2_f : Z; count_u_2_t : Z; count_f_2_u : Z; count_f_2_t : Z;
  count_f_2_f : Z; count_t_2_t : Z; count_t_2_f : Z;
  lines : list stat
}.

Definition stat_of (q : option Q) : stat :=
  match q with Some x => SNum x | None => SNone end.

Section Scores.
Context `{Centrality}.

(** One completed flow of the party-to-party tally. *)
Definition tally_flow (first third user : list string) (t : tally) (data_flow : string)
    : res tally :=
  let tmp_arr := split_on "#" data_flow in
  match tmp_arr !! 0%nat, tmp_arr !! 1%nat, tmp_arr !! 2%nat with
  | Some sender, Some mid, Some receiver =>
      let line tag := SLine (tag +:+ sender +:+ "-" +:+ mid +:+ "-" +:+ receiver) in
      let '(Tally c_uf c_ut c_fu c_ft c_ff c_tt c_tf ls) := t in
      let inb x arr := bool_decide (x ∈ arr) in
      Ok (if inb sender user && inb receiver first
          then Tally (c_uf + 1) c_ut c_fu c_ft c_ff c_tt c_tf (ls ++ [line "u_2_f: "])
          else if inb sender user && inb receiver third
          then Tally c_uf (c_ut + 1) c_fu c_ft c_ff c_tt c_tf (ls ++ [line "u_2_t: "])
          else if inb sender first && inb receiver user
          then Tally c_uf c_ut (c_fu + 1) c_ft c_ff c_tt c_tf (ls ++ [line "f_2_u: "])
          else if inb sender first && inb receiver third
          then Tally c_uf c_ut c_fu (c_ft + 1) c_ff c_tt c_tf (ls ++ [line "f_2_t: "])
          else if inb sender first && inb receiver first
          then Tally c_uf c_ut c_fu c_ft (c_ff + 1) c_tt c_tf (ls ++ [line "f_2_f: "])
          else if inb sender third && inb receiver third
          then Tally c_uf c_ut c_fu c_ft c_ff (c_tt + 1) c_tf (ls ++ [line "t_2_t: "])
          else if inb sender third && inb receiver first
          then Tally c_uf c_ut c_fu c_ft c_ff c_tt (c_tf + 1) (ls ++ [line "t_2_f: "])
          else t)
  | _, _, _ => Raise IndexError
  end.

(** [stats_data] as [post_processing] fills it from the builder's result
    (the drawing of the graph and the writing of the files are left out). *)
Definition post_processing_stats (st : state) (option_ : string) (top_n : Z)
    : res (list stat) :=
  let first := first_party_arr st in
  let third := third_party_arr st in
  let user := user_party_arr st in
  let completed := data_flow_completed_arr st in
  let no_sender := data_flow_no_sender_arr st in
  let no_receiver := data_flow_no_receiver_arr st in
  t ← foldM (tally_flow first third user) (Tally 0 0 0 0 0 0 0 []) completed;
  let total_data_flows :=
    Z.of_nat (length completed + length no_sender + length no_receiver) in
  shares ← mapM (fun c => py_div c total_data_flows)
                [count_u_2_f t; count_f_2_f t; count_t_2_f t; count_u_2_t t;
                 count_f_2_t t; count_t_2_t t; count_f_2_u t];
  transparency ← transparency_score no_receiver no_sender completed;
  third_party ← third_party_score first third user;
  let data_type_arr := (data_category_dic st).*1 in
  let ranking := get_network_stats (G st) option_ top_n in
  score_first ← get_percentage ranking first;
  score_third ← get_percentage ranking third;
  score_type ← get_percentage ranking data_type_arr;
  Ok (lines t ++ [SInt total_data_flows] ++ (SNum <$> shares)
        ++ [SNum transparency; SNum third_party;
            stat_of score_first; stat_of score_third; stat_of score_type]).

End Scores.

(** ** Tree detection

    [G.to_undirected()] turns the [MultiDiGraph] into a [MultiGraph]: an
    undirected edge is identified by its unordered end points and its key,
    so two directed edges that agree on both become one. *)

Definition uedge : Type := string * string * nat.

Record ugraph : Type := UGraph {
  u_nodes : list string;
  u_edges : list uedge
}.

Definition joins (u v : string) (e : uedge) : bool :=
  (bool_decide (e.1.1 = u) && bool_decide (e.1.2 = v))
  || (bool_decide (e.1.1 = v) && bool_decide (e.1.2 = u)).

Definition same_uedge (a b : uedge) : bool :=
  joins a.1.1 a.1.2 b && bool_decide (a.2 = b.2).

Fixpoint add_uedges (new acc : list uedge) : list uedge :=
  match new with
  | [] => acc
  | e :: new' =>
      add_uedges new' (if existsb (same_uedge e) acc then acc else acc ++ [e])
  end.

Definition to_undirected (g : graph) : ugraph :=
  UGraph (nodes g).*1
         (add_uedges ((fun e => (e_src e, e_dst e, e_key e)) <$> edges g) []).

(** The nodes adjacent to [n]. *)
Definition neighbors (g : ugraph) (n : string) : list string :=
  omap (fun e : uedge =>
          if bool_decide (e.1.1 = n) then Some e.1.2
          else if bool_decide (e.1.2 = n) then Some e.1.1
          else None) (u_edges g).

(** One round of the breadth-first search: the nodes seen so far and their
    neighbours. *)
Definition expand (g : ugraph) (seen : list string) : list string :=
  foldl (fun acc n => if bool_decide (n ∈ acc) then acc else acc ++ [n])
        seen (seen ≫= neighbors g).

Fixpoint reach (fuel : nat) (g : ugraph) (seen : list string) : list string :=
  match fuel with
  | O => seen
  | S fuel' => reach fuel' g (expand g seen)
  end.

(** [_plain_bfs(G, v)]: the nodes reachable from [v]; as many rounds as the
    graph has nodes exhaust them. *)
Definition plain_bfs (g : ugraph) (v : string) : list string :=
  reach (length (u_nodes g)) g [v].

Fixpoint components_go (g : ugraph) (todo seen : list string) : list (list string) :=
  match todo with
  | [] => []
  | v :: todo' =>
      if bool_decide (v ∈ seen) then components_go g todo' seen
      else let c := plain_bfs g v in c :: components_go g todo' (seen ++ c)
  end.

Definition connected_components (g : ugraph) : list (list string) :=
  components_go g (u_nodes g) [].

(** [G.subgraph(component)] *)
Definition subgraph (g : ugraph) (c : list string) : ugraph :=
  UGraph (filter (fun n => n ∈ c) (u_nodes g))
         (filter (fun e : uedge => e.1.1 ∈ c ∧ e.1.2 ∈ c) (u_edges g)).

Definition is_connected (g : ugraph) : bool :=
  match u_nodes g with
  | [] => false
  | v :: _ => bool_decide (length (plain_bfs g v) = length (u_nodes g))
  end.

(** [nx.is_tree] on a graph with at least one node. *)
Definition is_tree (g : ugraph) : bool :=
  bool_decide (length (u_nodes g) - 1 = length (u_edges g))%nat && is_connected g.

Definition finding_tree (g : graph) : list ugraph :=
  let ug := to_undirected g in
  filter (fun t => is_tree t = true) (subgraph ug <$> connected_components ug).

(** ** Verification sampler

    [np.random.choice(data, size, replace=False)] takes the first [size]
    entries of a random permutation of [data]; the permutation drawn is the
    parameter [perm]. *)

Definition random_choice (perm : list nat) (population : nat) (size : Z) : res (list nat) :=
  if size <? 0 then Raise ValueError
  else if Z.of_nat population <? size then Raise ValueError
  else Ok (take (Z.to_nat size) perm).

Definition random_sampling {A} (perm : list nat) (input_data : list A) (size : Z)
    : res (list A) :=
  if size <=? Z.of_nat (length input_data) then
    samples ← random_choice perm (length input_data) size;
    mapM (fun idx => match input_data !! idx with
                     | Some x => Ok x
                     | None => Raise IndexError
                     end) samples
  else Ok input_data.

(** [int(x)] of a number with the exact value [x]: truncation towards
    zero. *)
Definition py_int (x : Q) : Z := Z.quot (Qnum x) (Zpos (Qden x)).

(** *** A rate with exact arithmetic

    With a sampling rate of a type with exact arithmetic, an [int] or a
    [Fraction], [len(input_data) * sampling_rate] is the exact product. *)

Definition sampling_size {A} (input_data : list A) (sampling_rate : Q) : Z :=
  py_int (inject_Z (Z.of_nat (length input_data)) * sampling_rate)%Q.

(** The rows that [save_verification2csv] writes out. *)
Definition verification_sample {A} (perm : list nat) (input_data : list A)
    (sampling_rate : Q) : res (list A) :=
  random_sampling perm input_data (sampling_size input_data sampling_rate).

(** *** A [float] rate

    With a [float] rate, the default [0.4] among them, [len(input_data) *
    sampling_rate] converts the length to a [float] and multiplies in
    binary64: the product is rounded to the nearest [float], ties to even,
    and [int] truncates the rounded product. A [float] is a [spec_float] of
    the standard library, at precision 53 and maximal exponent 1024. *)
Module F64.

Definition prec : Z := 53.
Definition emax : Z := 1024.

(** [float(n)] of an [int]: the nearest [float], [OverflowError] when [n] is
    out of range. *)
Definition of_int (n : Z) : res spec_float :=
  match binary_normalize prec emax n 0 false with
  | S754_infinity _ => Raise OverflowError
  | x => Ok x
  end.

Definition mul : spec_float → spec_float → spec_float := SFmul prec emax.

(** The number a finite [float] stands for. *)
Definition to_Q (x : spec_float) : Q :=
  match x with
  | S754_finite s m e => (inject_Z (cond_Zopp s (Zpos m)) * 2 ^ e)%Q
  | _ => 0%Q
  end.

(** [int(x)] of a [float]. *)
Definition to_int (x : spec_float) : res Z :=
  match x with
  | S754_nan => Raise ValueError
  | S754_infinity _ => Raise OverflowError
  | _ => Ok (py_int (to_Q x))
  end.

(** [len(input_data) * sampling_rate] *)
Definition product {A} (input_data : list A) (sampling_rate : spec_float)
    : res spec_float :=
  len ← of_int (Z.of_nat (length input_data));
  Ok (mul len sampling_rate).

Definition sampling_size {A} (input_data : list A) (sampling_rate : spec_float)
    : res Z :=
  p ← product input_data sampling_rate;
  to_int p.

Definition verification_sample {A} (perm : list nat) (input_data : list A)
    (sampling_rate : spec_float) : res (list A) :=
  sampling_size ← sampling_size input_data sampling_rate;
  random_sampling perm input_data sampling_size.

(** The [float] that the quotient [n / d] of two [int]s is, which is the
    [float] a decimal literal with that value is read as. *)
Definition of_ratio (n d : Z) : spec_float :=
  SFdiv prec emax (binary_normalize prec emax n 0 false)
                  (binary_normalize prec emax d 0 false).




End F64.

(** ** Sample collaborators

    To run the builder on concrete documents the three collaborators are
    instantiated: a decoder for the JSON fragment the annotation files use
    (objects, arrays, strings with the simple escapes, integers and the three
    literals), a rule-of-thumb singulariser, and a tagger for plain noun
    phrases (possessive pronouns are [poss], the last word is the [ROOT]).
    The decoder's error messages are cut down to their first words, without
    the position. The general results below hold for every instance. *)

Module Sample.

Definition json_ws (c : ascii) : bool :=
  bool_decide (c = " "%char) || bool_decide (c = "009"%char)
  || bool_decide (c = "010"%char) || bool_decide (c = "013"%char).

Definition skip_ws (s : string) : string := Py.lstrip json_ws s.

(** The characters of a string literal up to its closing quote. *)
Fixpoint string_body (acc : string) (s : string) : option (string * string) :=
  match s with
  | EmptyString => None
  | String c s' =>
      if bool_decide (c = "034"%char) then Some (String.rev acc, s')
      else if bool_decide (c = "\"%char) then
        match s' with
        | String e s'' =>
            let esc x := string_body (String x acc) s'' in
            if bool_decide (e = "034"%char) then esc "034"%char
            else if bool_decide (e = "\"%char) then esc "\"%char
            else if bool_decide (e = "/"%char) then esc "/"%char
            else if bool_decide (e = "n"%char) then esc "010"%char
            else if bool_decide (e = "t"%char) then esc "009"%char
            else if bool_decide (e = "r"%char) then esc "013"%char
            else None
        | EmptyString => None
        end
      else if (nat_of_ascii c <? 32)%nat then None
      else string_body (String c acc) s'
  end.

Fixpoint digits (acc : Z) (s : string) : Z * string :=
  match s with
  | String c s' =>
      if Py.is_digit c
      then digits (10 * acc + Z.of_nat (nat_of_ascii c - 48)) s'
      else (acc, s)
  | EmptyString => (acc, s)
  end.

Definition number (s : string) : option (json * string) :=
  let '(neg, s1) := match s with
                    | String "-" s' => (true, s')
                    | _ => (false, s)
                    end in
  match s1 with
  | String c _ =>
      if Py.is_digit c then
        let '(n, rest) := digits 0 s1 in
        match rest with
        | String "." _ | String "e" _ | String "E" _ => None
        | _ => Some (JNum (if neg then - n else n), rest)
        end
      else None
  | EmptyString => None
  end.

(** A repeated key keeps its place and takes the later value. *)
Fixpoint set_field (k : string) (v : json) (kv : list (string * json))
    : list (string * json) :=
  match kv with
  | [] => [(k, v)]
  | (k', v') :: kv' =>
      if decide (k' = k) then (k, v) :: kv' else (k', v') :: set_field k v kv'
  end.

Definition literal (word : string) (v : json) (s : string) : option (json * string) :=
  if String.prefix word s
  then Some (v, String.substring (String.length word)
                  (String.length s - String.length word) s)
  else None.

Fixpoint value (fuel : nat) (s : string) : option (json * string) :=
  match fuel with
  | O => None
  | S fuel' =>
      match skip_ws s with
      | String "{" s1 =>
          match skip_ws s1 with
          | String "}" s2 => Some (JObj [], s2)
          | s2 => members fuel' [] s2
          end
      | String "[" s1 =>
          match skip_ws s1 with
          | String "]" s2 => Some (JArr [], s2)
          | s2 => elements fuel' [] s2
          end
      | String "034" s1 =>
          match string_body EmptyString s1 with
          | Some (x, rest) => Some (JStr x, rest)
          | None => None
          end
      | String "t" _ as s1 => literal "true" (JBool true) s1
      | String "f" _ as s1 => literal "false" (JBool false) s1
      | String "n" _ as s1 => literal "null" JNull s1
      | s1 => number s1
      end
  end
with members (fuel : nat) (acc : list (string * json)) (s : string)
    : option (json * string) :=
  match fuel with
  | O => None
  | S fuel' =>
      match skip_ws s with
      | String "034" s1 =>
          match string_body EmptyString s1 with
          | Some (k, s2) =>
              match skip_ws s2 with
              | String ":" s3 =>
                  match value fuel' s3 with
                  | Some (v, s4) =>
                      match skip_ws s4 with
                      | String "," s5 => members fuel' (set_field k v acc) s5
                      | String "}" s5 => Some (JObj (set_field k v acc), s5)
                      | _ => None
                      end
                  | None => None
                  end
              | _ => None
              end
          | None => None
          end
      | _ => None
      end
  end
with elements (fuel : nat) (acc : list json) (s : string) : option (json * string) :=
  match fuel with
  | O => None
  | S fuel' =>
      match value fuel' s with
      | Some (v, s1) =>
          match skip_ws s1 with
          | String "," s2 => elements fuel' (acc ++ [v]) s2
          | String "]" s2 => Some (JArr (acc ++ [v]), s2)
          | _ => None
          end
      | None => None
      end
  end.

Definition loads (s : string) : string + json :=
  match value (S (String.length s)) s with
  | Some (v, rest) =>
      match skip_ws rest with
      | EmptyString => inr v
      | _ => inl "Extra data"
      end
  | None => inl "Expecting value"
  end.

(** A trailing [s] is dropped, except after [s], [u] or [i]. *)
Definition singular (w : string) : option string :=
  match String.rev w with
  | String "s" (String c rest) =>
      if bool_decide (c = "s"%char) || bool_decide (c = "u"%char)
         || bool_decide (c = "i"%char)
      then None
      else Some (String.rev (String c rest))
  | _ => None
  end.

Definition possessives : list string :=
  ["my"; "our"; "your"; "his"; "her"; "its"; "their";
   "My"; "Our"; "Your"; "His"; "Her"; "Its"; "Their"].

Fixpoint tag (ws : list string) : list token :=
  match ws with
  | [] => []
  | [w] => [Token w "ROOT" "NOUN"]
  | w :: ws' =>
      (if bool_decide (w ∈ possessives) then Token w "poss" "PRON"
       else Token w "compound" "NOUN") :: tag ws'
  end.

Definition tagger (phrase : string) : list token := tag (Py.split phrase).

Definition collaborators : Collaborators :=
  {| json_loads := fun s => Ok (loads s); singular_noun := singular; nlp := tagger |}.

End Sample.

(** JSON texts are written below with a backquote for the double quote. *)
Fixpoint jtext (s : string) : string :=
  match s with
  | EmptyString => EmptyString
  | String c s' => String (if bool_decide (c = "`"%char) then "034"%char else c) (jtext s')
  end.

(** ** Sample documents *)

Module Doc.

Definition main_party : string := "audi".

Definition text_dictrionary : list (string * string) :=
  [("1", "We share your email address with insurers.");
   ("2", "We pass email addresses to our dealers for marketing.");
   ("3", "We collect GPS Data from your car.")].

Definition purpose_color_map : list (string * string) :=
  [("Marketing; ", "#e54545"); ("Contract", "#45e545")].

Definition output (category : string) : string :=
  jtext ("{`Output`: [{`DataCategory`: `" +:+ category
         +:+ "`, `InputText`: `email address`, `KBIndex`: 3}]}").

Definition flow (sender data_type receiver : string) : string :=
  jtext ("{`data`: [{`data_sender`: `" +:+ sender +:+ "`, `data_type`: `"
         +:+ data_type +:+ "`, `data_receiver`: `" +:+ receiver +:+ "`}]}").

Definition row (idx data_type category sender receiver party purpose method : string)
    : list string :=
  [idx; data_type; output category; flow sender data_type receiver;
   output party; output purpose; output method].

(** Two records on the ordered pair (audi, email address). *)
Definition two_flows : list (list string) :=
  [row "1" "email address" "Contact" "Audi" "insurers" "Third Party" "Contract" "Direct";
   row "2" "email address" "Contact" "Audi" "our dealers" "Third Party" "Marketing" "Direct"].

(** A record whose category column is not JSON. *)
Definition bad_category : list (list string) :=
  [["1"; "email address"; "not json"; flow "Audi" "email address" "insurers";
    output "Third Party"; output "Contract"; output "Direct"]].

(** A record whose flow column is not JSON, followed by a sound one. *)
Definition bad_flow : list (list string) :=
  [["1"; "email address"; output "Contact"; "not json";
    output "Third Party"; output "Contract"; output "Direct"];
   row "2" "email address" "Contact" "Audi" "our dealers" "Third Party" "Marketing" "Direct"].

(** Names that contain the key delimiter. *)
Definition hash_names : list (list string) :=
  [row "1" "T1" "Contact" "S1" "R1#" "Third Party" "Contract" "Direct";
   row "2" "T1#R1" "Contact" "S1" "" "Third Party" "Contract" "Direct"].

(** A raw data type that normalisation changes. *)
Definition gps : list (list string) :=
  [row "3" "GPS Data" "Location" "your car" "Audi" "First Party" "Contract" "Sensor"].

(** A flow without a sender and nothing else. *)
Definition no_sender_only : list (list string) :=
  [row "1" "email address" "Contact" "" "insurers" "Third Party" "Contract" "Direct"].

Definition run (rows : list (list string)) : res state :=
  @get_data_flow_graph_revised Sample.collaborators main_party text_dictrionary
    purpose_color_map rows.

End Doc.

(** ** Specification predicates *)

(** *** Graph and output rows *)

(** No ordered pair carries two edges. *)
Definition simple_pairs (g : graph) : Prop :=
  ∀ u v, (number_of_edges_between g u v ≤ 1)%nat.

(** The edges of [g] on the ordered pair of [e]. *)
Definition edges_on_pair_of (e : edge) (g : graph) : list edge :=
  filter (fun e' => on_pair (e_src e) (e_dst e) e' = true) (edges g).

(** [e] is one of the two edges of the flow [sender → data_type → receiver]
    with attributes [a]. *)
Definition edge_of_flow (sender data_type receiver : string) (a : edge_attr) (e : edge) : Prop :=
  e_attr e = a
  ∧ ((e_src e = sender ∧ e_dst e = data_type) ∨ (e_src e = data_type ∧ e_dst e = receiver)).

(** A graph as the builder leaves it: no node is listed twice, and every
    edge is the first on its pair (key 0), joins two different nodes, and has
    its end points among the nodes. *)
Definition built (g : graph) : Prop :=
  NoDup (nodes g).*1
  ∧ Forall (fun e => e_key e = 0%nat ∧ e_src e ≠ e_dst e
                     ∧ e_src e ∈ (nodes g).*1 ∧ e_dst e ∈ (nodes g).*1) (edges g).

(** The validity of a row of [data_output_arr]: sender, data type and
    receiver are pairwise different strings. *)
Definition distinct_triple (o : output_row) : Prop :=
  o_sender o ≠ o_data_type o ∧ o_receiver o ≠ o_data_type o ∧ o_sender o ≠ o_receiver o.

(** [e] joins sender and data type, or data type and receiver, of [o]. *)
Definition edge_of_row (o : output_row) (e : edge) : Prop :=
  (e_src e = o_sender o ∧ e_dst e = o_data_type o)
  ∨ (e_src e = o_data_type o ∧ e_dst e = o_receiver o).

(** Every output row is valid and every edge of the graph stems from one. *)
Definition accepted_distinct (st : state) : Prop :=
  Forall distinct_triple (data_output_arr st)
  ∧ ∀ e, e ∈ edges (G st) → ∃ o, o ∈ data_output_arr st ∧ edge_of_row o e.

(** The data type a row was read with, [row[1]]. *)
Definition raw_data_type (row : list string) : option string := row !! 1%nat.

(** A state up to the reports printed. *)
Definition forget_stdout (st : state) : state :=
  State (G st) (data_category_dic st) (first_party_arr st) (third_party_arr st)
        (user_party_arr st) (data_flow_completed_arr st) (data_flow_no_sender_arr st)
        (data_flow_no_receiver_arr st) (data_output_arr st) (abbreviation_dict st) [].

(** *** Flow keys *)

(** The key delimiter occurs in [s]. *)
Definition has_hash (s : string) : bool :=
  Py.existsb_str (fun c => bool_decide (c = "#"%char)) s.

(** Sender and data type of the row are free of the delimiter. The
    receiver, the last piece of a key, may contain it. *)
Definition hash_free (o : output_row) : Prop :=
  has_hash (o_sender o) = false ∧ has_hash (o_data_type o) = false.

Definition key_of (o : output_row) : string :=
  flow_key (o_sender o) (o_data_type o) (o_receiver o).

(** Every key of a dedup registry is the key of an output row whose sender
    and receiver are empty or not as the registry requires. *)
Definition keys_from_rows (st : state) : Prop :=
  (∀ k, k ∈ data_flow_completed_arr st →
        ∃ o, o ∈ data_output_arr st ∧ k = key_of o
             ∧ o_sender o ≠ EmptyString ∧ o_receiver o ≠ EmptyString)
  ∧ (∀ k, k ∈ data_flow_no_sender_arr st →
          ∃ o, o ∈ data_output_arr st ∧ k = key_of o
               ∧ o_sender o = EmptyString ∧ o_receiver o ≠ EmptyString)
  ∧ (∀ k, k ∈ data_flow_no_receiver_arr st →
          ∃ o, o ∈ data_output_arr st ∧ k = key_of o
               ∧ o_sender o ≠ EmptyString ∧ o_receiver o = EmptyString).

(** *** Abbreviation folding *)

Global Instance exn_eq_dec : EqDecision exn.
Proof. solve_decision. Defined.

Global Instance res_eq_dec {A} `{EqDecision A} : EqDecision (res A).
Proof. solve_decision. Defined.

(** The character [c] occurs in [s]. *)
Definition has_char (c : ascii) (s : string) : bool :=
  Py.existsb_str (fun x => bool_decide (x = c)) s.







(** *** Undirected graphs *)

(** An undirected graph without repeated nodes, loops or parallel edges,
    whose edges join nodes of the graph. *)
Definition simple_undirected (g : ugraph) : Prop :=
  NoDup (u_nodes g)
  ∧ Forall (fun e : uedge => e.1.1 ≠ e.1.2 ∧ e.1.1 ∈ u_nodes g ∧ e.1.2 ∈ u_nodes g)
           (u_edges g)
  ∧ ∀ u v, (length (filter (fun e => joins u v e = true) (u_edges g)) ≤ 1)%nat.

(** Adjacency and connection. *)
Definition adjacent (g : ugraph) (x y : string) : Prop := y ∈ neighbors g x.

Definition connected (g : ugraph) : relation string := rtc (adjacent g).

(** [seen] contains the neighbours of its nodes. *)
Definition closed (g : ugraph) (seen : list string) : Prop :=
  ∀ x y, x ∈ seen → adjacent g x y → y ∈ seen.

(** [t] is the subgraph of [g] induced by the nodes in [c]: the nodes of [g]
    that are in [c] and the edges of [g] between them, in the order of [g]. *)
Definition induced (g : ugraph) (c : list string) (t : ugraph) : Prop :=
  (∀ n, n ∈ u_nodes t ↔ n ∈ u_nodes g ∧ n ∈ c)
  ∧ (∀ e : uedge, e ∈ u_edges t ↔ e ∈ u_edges g ∧ e.1.1 ∈ c ∧ e.1.2 ∈ c)
  ∧ sublist (u_nodes t) (u_nodes g)
  ∧ sublist (u_edges t) (u_edges g).

(** A tree: a graph with a node in which every two nodes are connected, with
    one edge less than it has nodes. *)
Definition tree (t : ugraph) : Prop :=
  u_nodes t ≠ []
  ∧ (∀ x y, x ∈ u_nodes t → y ∈ u_nodes t → connected t x y)
  ∧ length (u_edges t) = (length (u_nodes t) - 1)%nat.

(** *** Sampling *)

(** [sample] holds the elements of [population] at the positions [idxs]. *)
Definition drawn_at {A} (population : list A) (idxs : list nat) (sample : list A) : Prop :=
  Forall2 (fun i x => population !! i = Some x) idxs sample.

(** *** Parties *)

(** The two tests [get_entity_property] applies to a non-empty entity. *)
Definition is_first_party `{Collaborators} (main_party entity : string) : bool :=
  (0 <=? Py.find main_party entity) || rectify_collection_party entity.

Definition is_user_party `{Collaborators} (entity : string) : bool :=
  let main_part := get_main entity in
  Py.startswith "you" main_part || Py.startswith "user" main_part
  || Py.startswith "customer" main_part.

(** Registries without repetition that hold non-empty entities of their
    own class only. *)
Definition registries_sorted `{Collaborators} (main_party : string)
    (first third user : list string) : Prop :=
  NoDup first ∧ NoDup third ∧ NoDup user
  ∧ Forall (fun e => e ≠ EmptyString ∧ is_first_party main_party e = true) first
  ∧ Forall (fun e => e ≠ EmptyString ∧ is_first_party main_party e = false
                     ∧ is_user_party e = false) third
  ∧ Forall (fun e => e ≠ EmptyString ∧ is_first_party main_party e = false
                     ∧ is_user_party e = true) user.

(** *** Flow registries *)

(** The registry the key of a triple belongs to. *)
Definition registered (st : state) (o : output_row) : Prop :=
  (o_sender o ≠ EmptyString → o_receiver o ≠ EmptyString →
   key_of o ∈ data_flow_completed_arr st)
  ∧ (o_sender o = EmptyString → key_of o ∈ data_flow_no_sender_arr st)
  ∧ (o_receiver o = EmptyString → key_of o ∈ data_flow_no_receiver_arr st).

(** *** The graph against the output rows *)

(** [n] is the sender, the data type or the receiver of [o]. *)
Definition node_of_row (o : output_row) (n : string) : Prop :=
  n = o_sender o ∨ n = o_data_type o ∨ n = o_receiver o.

(** [(u, v)] is one of the two ordered pairs the flow of [o] joins. *)
Definition pair_of_row (o : output_row) (u v : string) : Prop :=
  (u = o_sender o ∧ v = o_data_type o) ∨ (u = o_data_type o ∧ v = o_receiver o).

(** [g] has the nodes and the joined pairs of the rows [out], and no
    others. *)
Definition draws (g : graph) (out : list output_row) : Prop :=
  (∀ n, has_node g n = true ↔ ∃ o, o ∈ out ∧ node_of_row o n)
  ∧ (∀ u v, has_edge g u v = true ↔ ∃ o, o ∈ out ∧ pair_of_row o u v).

(** *** Rankings and tallies *)

(** [x] has the score [q]. *)
Definition same_score (q : Q) (x : scored) : Prop := Qeq_bool x.2 q = true.

Global Instance same_score_dec q x : Decision (same_score q x).
Proof. unfold same_score. apply _. Defined.

(** The flows a tally has counted. *)
Definition counted (t : tally) : Z :=
  count_u_2_f t + count_u_2_t t + count_f_2_u t + count_f_2_t t
  + count_f_2_f t + count_t_2_t t + count_t_2_f t.

(** What [post_processing] needs to get through its divisions. *)
Definition divisible `{Centrality} (st : state) (option_ : string) (top_n : Z) : Prop :=
  data_flow_completed_arr st ≠ []
  ∧ first_party_arr st ++ user_party_arr st ++ third_party_arr st ≠ []
  ∧ get_network_stats (G st) option_ top_n ≠ Some [].

(** *** A scoring for the sample runs

    networkx's degree centrality, the degree of a node over the number of
    other nodes; for the sample runs it stands for all three centralities. *)

Definition degree (g : graph) (n : string) : nat :=
  length (filter (fun e => e_src e = n) (edges g))
  + length (filter (fun e => e_dst e = n) (edges g)).

Definition degree_scores (g : graph) : list scored :=
  let n := length (nodes g) in
  (fun node : string * node_attr =>
     (node.1, if (n <=? 1)%nat then 1%Q
              else (Z.of_nat (degree g node.1) # Pos.of_nat (n - 1))%Q)) <$> nodes g.

Definition sample_centrality : Centrality :=
  {| betweenness_centrality := degree_scores;
     closeness_centrality := degree_scores;
     degree_centrality := degree_scores |}.

(** Every key is non-empty and does not end with the separator that
    closes every purpose of a joined purpose string. *)
Definition plain_keys (purpose_color_map : list (string * string)) : Prop :=
  Forall (fun k => k ≠ EmptyString ∧ Py.endswith "; " k = false) purpose_color_map.*1.

(** *** The colour legend *)

(** A node drawn in the colour of a party class has its lower-case name in
    the registry of that class. *)
Definition colour_legend (st : state) : Prop :=
  ∀ n a, (n, a) ∈ nodes (G st) →
    (n_color a = Some "#ccff99" → Py.lower n ∈ first_party_arr st)
    ∧ (n_color a = Some "#f7ff99" → Py.lower n ∈ user_party_arr st)
    ∧ (n_color a = Some "#ff99ff" → Py.lower n ∈ third_party_arr st).

(** *** Segment texts *)

(** The text of the last row of [rows] that carries the index [idx]. *)
Definition last_text (idx : string) (rows : list (list string)) : option string :=
  last (omap (fun row : list string =>
                if bool_decide (row !! 0%nat = Some idx) then row !! 1%nat else None)
             rows).

(** *** The shape of a graph

    The names of the nodes in their order, and end points and key of the
    edges in theirs; [shape_add_flow] is what an accepted record does to
    it. *)

Definition shape : Type := list string * list (string * string * nat).

Definition shape_of (g : graph) : shape :=
  ((nodes g).*1, (fun e => (e_src e, e_dst e, e_key e)) <$> edges g).

Definition simple_shape_of (g : Simple.graph) : shape :=
  ((Simple.nodes g).*1,
   (fun e => (Simple.e_src e, Simple.e_dst e, Simple.e_key e)) <$> Simple.edges g).

Definition shape_on_pair (u v : string) (p : string * string * nat) : bool :=
  bool_decide (p.1.1 = u) && bool_decide (p.1.2 = v).

Definition shape_has_node (sh : shape) (n : string) : bool := bool_decide (n ∈ sh.1).

Definition shape_has_edge (sh : shape) (u v : string) : bool :=
  existsb (shape_on_pair u v) sh.2.

Definition names_add (n : string) (names : list string) : list string :=
  if bool_decide (n ∈ names) then names else names ++ [n].

Definition shape_add_node (n : string) (sh : shape) : shape := (names_add n sh.1, sh.2).

Definition shape_add_edge (u v : string) (sh : shape) : shape :=
  (names_add v (names_add u sh.1),
   sh.2 ++ [(u, v, length (filter (fun p => shape_on_pair u v p = true) sh.2))]).

Definition shape_add_flow (s t r : string) (sh : shape) : shape :=
  let sh := if shape_has_node sh s then sh else shape_add_node s sh in
  let sh := if negb (shape_has_node sh t) && bool_decide (t ≠ EmptyString)
            then shape_add_node t sh else sh in
  let sh := if shape_has_node sh r then sh else shape_add_node r sh in
  let sh := if shape_has_edge sh s t then sh else shape_add_edge s t sh in
  if shape_has_edge sh t r then sh else shape_add_edge t r sh.

(** The plain builder has come as far as the full one. *)
Definition same_run (st : state) (sst : Simple.state) : Prop :=
  simple_shape_of (Simple.G sst) = shape_of (G st)
  ∧ Simple.abbreviation_dict sst = abbreviation_dict st
  ∧ Simple.stdout sst = stdout st.

(** An edge of the plain graph carries no reference to a segment, or the
    id of a segment together with its text. *)
Definition references (text_dictrionary : list (string * string)) (e : Simple.edge)
    : Prop :=
  Simple.e_arrows (Simple.e_attr e) = "to"
  ∧ ((Simple.e_group (Simple.e_attr e) = None
      ∧ Simple.e_description (Simple.e_attr e) = None)
     ∨ ∃ idx text, Simple.e_group (Simple.e_attr e) = Some idx
                   ∧ Simple.e_description (Simple.e_attr e) = Some text
                   ∧ assoc idx text_dictrionary = Some text).

(** *** Exceptions *)




(** *** Attributes of edges and nodes *)

(** An edge carries the id and the text of one segment, the joined purposes
    as its title and the colour of that title. *)
Definition labelled (text_dictrionary purpose_color_map : list (string * string))
    (e : edge) : Prop :=
  assoc (e_group (e_attr e)) text_dictrionary = Some (e_description (e_attr e))
  ∧ e_color (e_attr e)
    = match assoc (e_title (e_attr e)) purpose_color_map with
      | Some c => c
      | None => "ff000000"
      end
  ∧ e_arrows (e_attr e) = "to".

(** An edge stems from a row: it carries the segment id in the first column
    of the row, and its title is the purposes of the row, joined. *)
Definition titled_by `{Collaborators} (row : list string) (e : edge) : Prop :=
  ∃ d,
    column row 0 = Ok (e_group (e_attr e))
    ∧ decode_row row = Ok d
    ∧ get_collection_purpose (d_purpose d) = Ok (e_title (e_attr e)).

(** The three kinds of nodes: an entity (size 40, titled by its name, or
    [unknown] for an empty sender), a data type (a box of size 20 in the data
    colour), and the node without attributes that an edge creates. *)
Definition entity_node (x : string * node_attr) : Prop :=
  ∃ c, n_color x.2 = Some c ∧ n_size x.2 = Some 40 ∧ n_shape x.2 = None
       ∧ (n_title x.2 = Some x.1 ∨ (x.1 = EmptyString ∧ n_title x.2 = Some "unknown")).

Definition data_type_node (x : string * node_attr) : Prop :=
  x.1 ≠ EmptyString
  ∧ x.2 = NodeAttr (Some data_color) (Some 20) (Some x.1) (Some "box").

Definition bare_node (x : string * node_attr) : Prop :=
  x = (EmptyString, no_attr).

(** *** Components *)

(** No node is in two of the listed components. *)
Definition pairwise_disjoint (cs : list (list string)) : Prop :=
  ∀ i j c1 c2, i ≠ j → cs !! i = Some c1 → cs !! j = Some c2 → c1 ## c2.

(** ** Sample data *)

(** The states the sample documents lead to. *)
Module Run.

Definition state_of (rows : list (list string)) : state :=
  match Doc.run rows with
  | Ok st => st
  | Raise _ => initial_state
  end.

Definition first_flow : state := Eval vm_compute in state_of (take 1 Doc.two_flows).
Definition two_flows : state := Eval vm_compute in state_of Doc.two_flows.
Definition bad_category : state := Eval vm_compute in state_of Doc.bad_category.
Definition hash_names : state := Eval vm_compute in state_of Doc.hash_names.
Definition gps : state := Eval vm_compute in state_of Doc.gps.
Definition no_sender_only : state := Eval vm_compute in state_of Doc.no_sender_only.

End Run.

(** Flows to a user party, from a third party and from the first party. *)
Definition to_user_rows : list (list string) :=
  [Doc.row "1" "email address" "Contact" "insurers" "you" "Third Party" "Contract" "Direct";
   Doc.row "2" "email address" "Contact" "Audi" "you" "Third Party" "Contract" "Direct"].
Definition to_user_run : state := Eval vm_compute in Run.state_of to_user_rows.

(** A colour map keyed by the plain purpose names. *)
Definition plain_color_map : list (string * string) :=
  [("Marketing", "#e54545"); ("Contract", "#45e545")].
Definition plain_color_run : state :=
  Eval vm_compute in
    match @get_data_flow_graph_revised Sample.collaborators Doc.main_party
            Doc.text_dictrionary plain_color_map Doc.two_flows with
    | Ok st => st
    | Raise _ => initial_state
    end.

(** The plain builder on the first record of [Doc.two_flows]. *)
Definition plain_first_flow : Simple.state :=
  Eval vm_compute in
    match @Simple.get_data_flow_graph_simple Sample.collaborators Doc.text_dictrionary
            (take 1 Doc.two_flows) with
    | Ok sst => sst
    | Raise _ => Simple.initial_state
    end.

(** A record whose data type is empty. *)
Definition empty_type_rows : list (list string) :=
  [Doc.row "1" "" "Contact" "Audi" "insurers" "Third Party" "Contract" "Direct"].
Definition empty_type_run : state := Eval vm_compute in Run.state_of empty_type_rows.

(** A completed flow, a flow without sender, a flow without receiver, and a
    completed flow whose receiver contains the key delimiter. *)
Definition three_kinds_rows : list (list string) :=
  [Doc.row "1" "email address" "Contact" "Audi" "insurers" "Third Party" "Contract" "Direct";
   Doc.row "2" "email address" "Contact" "" "insurers" "Third Party" "Marketing" "Direct";
   Doc.row "3" "vehicle location" "Location" "Audi" "" "Third Party" "Contract" "Sensor";
   Doc.row "1" "phone number" "Contact" "Audi" "dealer #7" "Third Party" "Contract" "Direct"].
Definition three_kinds_run : state := Eval vm_compute in Run.state_of three_kinds_rows.

(** A ranking of five nodes. *)
Definition ranking5 : list scored :=
  [("a", 1 # 10); ("b", 5 # 10); ("c", 3 # 10); ("d", 2 # 10); ("e", 4 # 10)]%Q.

(** A path of four nodes and three edges, with mixed directions. *)
Definition path4 : graph :=
  let a := EdgeAttr "1" "ff000000" "text" "purpose" "to" in
  add_edge (add_edge (add_edge empty_graph "a" "b" a) "c" "b" a) "c" "d" a.

(** Two paths and a cycle: a - b - c, p - q, and x - y - z - x. *)
Definition forest_and_cycle : graph :=
  let a := EdgeAttr "1" "ff000000" "text" "purpose" "to" in
  add_edge
    (add_edge
       (add_edge
          (add_edge (add_edge (add_edge empty_graph "a" "b" a) "c" "b" a) "p" "q" a)
          "x" "y" a)
       "y" "z" a)
    "z" "x" a.

(** The [float]s [0.7], [0.29], [0.4], [-0.5], [-0.3333333333333333] and
    [1e308]. *)
Definition rate_0_7 : spec_float := Eval vm_compute in F64.of_ratio 7 10.
Definition rate_0_29 : spec_float := Eval vm_compute in F64.of_ratio 29 100.
Definition rate_minus_half : spec_float := Eval vm_compute in F64.of_ratio (-1) 2.
Definition rate_1e308 : spec_float :=
  Eval vm_compute in
    match F64.of_int (10 ^ 308) with Ok x => x | Raise _ => S754_nan end.

Definition hundred_rows : list nat := seq 0 100.

(** A population of ten rows, and an order of its indices the generator may
    draw. *)
Definition ten_rows : list nat := [10; 11; 12; 13; 14; 15; 16; 17; 18; 19]%nat.
Definition drawn_order : list nat := [3; 7; 1; 9; 0; 2; 8; 4; 6; 5]%nat.

(** * Properties *)

(** ** Sanity checks of the embedding *)

Example split_ex :
  Py.split "  Global Positioning   System " = ["Global"; "Positioning"; "System"].
Proof. reflexivity. Qed.

Example remove_ex : Py.remove_all "the" "other theme the" = "or me ".
Proof. reflexivity. Qed.

Example slice_ex : Py.slice 0 (-1) "abcd" = "abc" ∧ Py.slice_from 2 "abcd" = "cd".
Proof. split; reflexivity. Qed.

Example strip_ex : Py.strip_quote "''{a}'" = "{a}" ∧ Py.strip "  a b " = "a b".
Proof. split; reflexivity. Qed.

Example find_ex : Py.find "(" "ab (c)" = 3 ∧ Py.find "(" "abc" = -1.
Proof. split; reflexivity. Qed.

Example loads_flow :
  Sample.loads (jtext "{`data`: [{`data_sender`: `user`, `data_type`: `email`, `data_receiver`: `audi`}]}")
  = inr (JObj [("data", JArr [JObj [("data_sender", JStr "user");
                                    ("data_type", JStr "email");
                                    ("data_receiver", JStr "audi")]])]).
Proof. vm_compute. reflexivity. Qed.

Example loads_malformed : Sample.loads "not json" = inl "Expecting value".
Proof. vm_compute. reflexivity. Qed.


(** ** The error monad *)

Lemma bind_Ok_l {A B} (a : A) (f : A → res B) : Ok a ≫= f = f a.
Proof. done. Qed.

Lemma bind_Ok {A B} (m : res A) (f : A → res B) (b : B) :
  m ≫= f = Ok b ↔ ∃ a, m = Ok a ∧ f a = Ok b.
Proof.
  destruct m as [a|e]; simpl.
  - split; [eauto | intros (a' & [= <-] & ?); done].
  - split; [done | intros (a' & ? & ?); done].
Qed.

(** Inversion of a successful sequence of binds in a hypothesis. *)
Ltac bind_inv H :=
  repeat match type of H with
         | _ ≫= _ = Ok _ =>
             let a := fresh "a" in let Ha := fresh "Hbind" in
             apply bind_Ok in H as (a & Ha & H); simpl in H
         | (let '(_, _) := ?p in _) = Ok _ => destruct p; simpl in H
         end.

Lemma foldM_app {A B} (f : B → A → res B) (acc : B) (xs ys : list A) :
  foldM f acc (xs ++ ys) = foldM f acc xs ≫= fun acc' => foldM f acc' ys.
Proof.
  revert acc. induction xs as [|x xs IH]; intros acc; simpl; [done|].
  destruct (f acc x) as [acc'|e]; simpl; [apply IH | done].
Qed.

(** A property established initially and kept by every successful
    iteration holds of the result of the loop. *)
Lemma foldM_invariant {A B} (P : B → Prop) (f : B → A → res B) (xs : list A) :
  (∀ b a b', P b → f b a = Ok b' → P b') →
  ∀ acc r, P acc → foldM f acc xs = Ok r → P r.
Proof.
  intros Hstep. induction xs as [|x xs IH]; intros acc r Hacc Hrun; simpl in Hrun.
  - by injection Hrun as <-.
  - apply bind_Ok in Hrun as (acc' & Hf & Hrun). eauto.
Qed.

(** ** Edges of the multigraph *)

Lemma has_edge_false g u v :
  has_edge g u v = false → number_of_edges_between g u v = 0%nat.
Proof.
  unfold has_edge, number_of_edges_between. induction (edges g) as [|e es IH]; simpl; [done|].
  intros [He Hes]%orb_false_iff. rewrite filter_cons.
  destruct (decide (on_pair u v e = true)) as [Heq|_]; [congruence | auto].
Qed.

Lemma number_of_edges_between_app u v (es1 es2 : list edge) :
  length (filter (fun e => on_pair u v e = true) (es1 ++ es2))
  = (length (filter (fun e => on_pair u v e = true) es1)
     + length (filter (fun e => on_pair u v e = true) es2))%nat.
Proof. by rewrite filter_app, length_app. Qed.

Lemma on_pair_true u v e : on_pair u v e = true ↔ e_src e = u ∧ e_dst e = v.
Proof.
  unfold on_pair. rewrite andb_true_iff, !bool_decide_eq_true. done.
Qed.

Lemma add_edge_guarded g u v a :
  simple_pairs g → has_edge g u v = false → simple_pairs (add_edge g u v a).
Proof.
  intros Hg Hno u' v'. unfold number_of_edges_between, add_edge; simpl.
  rewrite number_of_edges_between_app. simpl. rewrite filter_cons, filter_nil.
  destruct (decide _) as [Hon|Hoff]; simpl.
  - apply on_pair_true in Hon as [<- <-]; simpl.
    apply has_edge_false in Hno. unfold number_of_edges_between in Hno.
    rewrite Hno. lia.
  - specialize (Hg u' v'). unfold number_of_edges_between in Hg. lia.
Qed.

(** What [add_flow] does to the edge list: it appends at most the two edges
    of the record, each only on a pair without an edge. *)
Lemma add_flow_edges g s t r sc rc a :
  ∃ new, edges (add_flow g s t r sc rc a) = edges g ++ new
         ∧ Forall (edge_of_flow s t r a) new
         ∧ (simple_pairs g → simple_pairs (add_flow g s t r sc rc a)).
Proof.
  unfold add_flow.
  set (g1 := if has_node g s then g else _).
  set (g2 := if negb (has_node g1 t) && _ then _ else g1).
  set (g3 := if has_node g2 r then g2 else _).
  assert (H3 : edges g3 = edges g).
  { subst g3 g2 g1. repeat (case_match; simpl); done. }
  assert (S3 : simple_pairs g → simple_pairs g3).
  { intros Hg u v. unfold number_of_edges_between. rewrite H3. apply Hg. }
  destruct (has_edge g3 s t) eqn:E1.
  - destruct (has_edge g3 t r) eqn:E2.
    + exists []. rewrite app_nil_r. done.
    + eexists [_]. split_and!.
      * simpl. by rewrite H3.
      * apply Forall_singleton. split; [done | by right].
      * intros Hg. apply add_edge_guarded; auto.
  - set (g4 := add_edge g3 s t a).
    assert (S4 : simple_pairs g → simple_pairs g4).
    { intros Hg. apply add_edge_guarded; auto. }
    destruct (has_edge g4 t r) eqn:E2.
    + eexists [_]. split_and!.
      * simpl. by rewrite H3.
      * apply Forall_singleton. split; [done | by left].
      * done.
    + eexists [_; _]. split_and!.
      * simpl. rewrite H3, <- app_assoc. done.
      * apply Forall_cons; split; [split; [done | by left] |].
        apply Forall_singleton. split; [done | by right].
      * intros Hg. apply add_edge_guarded; auto.
Qed.

(** ** One iteration of the builder *)

Section BuilderSteps.
Context `{Collaborators}.
Variable main_party : string.
Variable text_dictrionary : list (string * string).
Variable purpose_color_map : list (string * string).

Local Abbreviation step := (process_row main_party text_dictrionary purpose_color_map).
Local Abbreviation accepted := (accept main_party purpose_color_map).

(** An accepted record: registries and graph are extended, one row is
    appended; the category map, the abbreviations and the reports stay. *)
Lemma accept_inv raw_idx raw_text cat d t s r st st' :
  accepted raw_idx raw_text cat d t s r st = Ok st' →
  ∃ sc rc a out,
    G st' = add_flow (G st) s t r sc rc a
    ∧ e_group a = raw_idx ∧ e_description a = raw_text
    ∧ data_output_arr st' = data_output_arr st ++ [out]
    ∧ o_sender out = s ∧ o_data_type out = t ∧ o_receiver out = r
    ∧ o_data_category out = cat
    ∧ data_category_dic st' = data_category_dic st
    ∧ data_flow_completed_arr st' = data_flow_completed_arr (record_flow s t r st)
    ∧ data_flow_no_sender_arr st' = data_flow_no_sender_arr (record_flow s t r st)
    ∧ data_flow_no_receiver_arr st' = data_flow_no_receiver_arr (record_flow s t r st)
    ∧ stdout st' = stdout st.
Proof.
  unfold accept. intros Hrun. bind_inv Hrun.
  repeat (destruct (get_entity_property _ _ _ _ _ _) as [[[? ?] ?] ?]; simpl in Hrun).
  injection Hrun as <-. simpl. eexists _, _, _, _. split_and!; done.
Qed.

(** What a successful iteration does. *)
Lemma process_row_inv st row st' :
  step st row = Ok st' →
  ∃ raw_idx raw_text data_type d cat t s r abbr,
    row !! 0%nat = Some raw_idx ∧ row !! 1%nat = Some data_type
    ∧ decode_row row = Ok d ∧ get_category (d_category d) = Ok cat
    ∧ let st1 := State (G st) (set_default data_type cat (data_category_dic st))
                   (first_party_arr st) (third_party_arr st) (user_party_arr st)
                   (data_flow_completed_arr st) (data_flow_no_sender_arr st)
                   (data_flow_no_receiver_arr st) (data_output_arr st)
                   abbr (stdout st ++ d_reports d) in
      (valid_triple s t r = true ∧ accepted raw_idx raw_text cat d t s r st1 = Ok st')
      ∨ (valid_triple s t r = false ∧ st' = st1).
Proof.
  unfold process_row. intros Hrun. bind_inv Hrun.
  unfold column in *.
  destruct (row !! 0%nat) as [raw_idx|] eqn:E0; [|done].
  destruct (row !! 1%nat) as [data_type|] eqn:E1; [|done].
  repeat match goal with H : Ok _ = Ok _ |- _ => injection H as <- end.
  match type of Hrun with
  | (if valid_triple ?s ?t ?r then _ else _) = _ =>
      exists raw_idx, a0, data_type, a2, a3, t, s, r
  end.
  eexists. split_and!; try done.
  destruct (valid_triple _ _ _) eqn:Hv; [left | right]; split; try done.
  by injection Hrun as <-.
Qed.

End BuilderSteps.

(** ** Invariants of the builder *)

Lemma filter_unique {A} (P : A → Prop) `{∀ x, Decision (P x)} (l : list A) (x : A) :
  x ∈ l → P x → (length (filter P l) ≤ 1)%nat → filter P l = [x].
Proof.
  intros Hin HP Hlen.
  assert (Hx : x ∈ filter P l) by (apply list_elem_of_filter; done).
  destruct (filter P l) as [|y [|z l']]; simpl in *.
  - by apply elem_of_nil in Hx.
  - by apply list_elem_of_singleton in Hx as ->.
  - lia.
Qed.

Section BuilderInvariants.
Context `{Collaborators}.
Variable main_party : string.
Variable text_dictrionary : list (string * string).
Variable purpose_color_map : list (string * string).

Local Abbreviation step := (process_row main_party text_dictrionary purpose_color_map).
Local Abbreviation build :=
  (get_data_flow_graph_revised main_party text_dictrionary purpose_color_map).

Lemma valid_triple_distinct s t r :
  valid_triple s t r = true ↔ s ≠ t ∧ r ≠ t ∧ s ≠ r.
Proof.
  unfold valid_triple. rewrite !andb_true_iff, !bool_decide_eq_true. tauto.
Qed.

Lemma step_accepted_distinct st row st' :
  accepted_distinct st → step st row = Ok st' → accepted_distinct st'.
Proof.
  intros [Hrows Hedges] Hstep.
  apply process_row_inv in Hstep
    as (raw_idx & raw_text & data_type & d & cat & t & s & r & abbr
        & _ & _ & _ & _ & [[Hvalid Hacc] | [_ ->]]); [|done].
  apply accept_inv in Hacc
    as (sc & rc & a & out & HG & _ & _ & Hout & <- & <- & <- & _); simpl in *.
  apply valid_triple_distinct in Hvalid.
  split.
  - rewrite Hout. apply Forall_app. split; [done|]. by apply Forall_singleton.
  - intros e. rewrite HG, Hout.
    destruct (add_flow_edges (G st) (o_sender out) (o_data_type out) (o_receiver out)
                sc rc a) as (new & -> & Hnew & _).
    intros [He | He]%elem_of_app.
    + destruct (Hedges e He) as (o & Ho & Hoe).
      exists o. split; [apply elem_of_app; by left | done].
    + exists out. split; [apply elem_of_app; right; apply list_elem_of_singleton; done|].
      rewrite Forall_forall in Hnew. by destruct (Hnew e He) as [_ ?].
Qed.

(** C5 — every row the builder appends to the output rows has a
    normalised (sender, data type, receiver) triple of three pairwise
    different strings, the empty string being compared like any other; and
    every edge of the graph was created for such a row, so no record with
    two equal members enters graph construction. *)
Theorem accepted_triples_distinct (rows : list (list string)) (st : state) :
  build rows = Ok st → accepted_distinct st.
Proof.
  apply (foldM_invariant accepted_distinct).
  - intros b a b' Hb Hstep. by eapply step_accepted_distinct.
  - split; [constructor | intros e He; by apply elem_of_nil in He].
Qed.

Lemma step_edges_grow st row st' :
  step st row = Ok st' → simple_pairs (G st) →
  simple_pairs (G st') ∧ edges (G st) `prefix_of` edges (G st').
Proof.
  intros Hstep Hsimple.
  apply process_row_inv in Hstep
    as (raw_idx & raw_text & data_type & d & cat & t & s & r & abbr
        & _ & _ & _ & _ & [[Hvalid Hacc] | [_ ->]]); [|done].
  apply accept_inv in Hacc as (sc & rc & a & out & -> & _); simpl.
  destruct (add_flow_edges (G st) s t r sc rc a) as (new & -> & _ & Hkeep).
  split; [auto | by apply prefix_app_r].
Qed.

Lemma build_edges_grow rows st st' :
  foldM step st rows = Ok st' → simple_pairs (G st) →
  simple_pairs (G st') ∧ edges (G st) `prefix_of` edges (G st').
Proof.
  revert st. induction rows as [|row rows IH]; intros st Hrun Hsimple; simpl in Hrun.
  - by injection Hrun as <-.
  - apply bind_Ok in Hrun as (st1 & Hstep & Hrun).
    destruct (step_edges_grow _ _ _ Hstep Hsimple) as [Hs1 Hp1].
    destruct (IH _ Hrun Hs1) as [Hs2 Hp2].
    split; [done | by etrans].
Qed.

(** C6 — the graph the builder returns has at most one edge on every
    ordered pair of nodes, and an edge written while the first records
    were read is, whatever records follow, still the only edge on its pair,
    with the attributes (segment-id group, colour, description, purpose
    title) it was given first. *)
Theorem one_edge_per_ordered_pair (rows later : list (list string)) (st st' : state) :
  build rows = Ok st → build (rows ++ later) = Ok st' →
  simple_pairs (G st')
  ∧ ∀ e, e ∈ edges (G st) → edges_on_pair_of e (G st') = [e].
Proof.
  intros Hrun Hrun'. unfold get_data_flow_graph_revised in *.
  rewrite foldM_app, Hrun in Hrun'. simpl in Hrun'.
  assert (Hinit : simple_pairs (G initial_state)).
  { intros u v. unfold number_of_edges_between. simpl. lia. }
  destruct (build_edges_grow _ _ _ Hrun Hinit) as [Hs _].
  destruct (build_edges_grow _ _ _ Hrun' Hs) as [Hs' [new Hnew]].
  split; [done|]. intros e He. unfold edges_on_pair_of.
  apply filter_unique.
  - rewrite Hnew. apply elem_of_app. by left.
  - by apply on_pair_true.
  - apply Hs'.
Qed.

End BuilderInvariants.

(** ** The dedup registries and the category map *)

Lemma elem_of_append_new x y (l : list string) :
  x ∈ append_new y l ↔ x ∈ l ∨ x = y.
Proof.
  unfold append_new. case_bool_decide as Hy.
  - split; [by left | intros [?| ->]; done].
  - rewrite elem_of_app, list_elem_of_singleton. done.
Qed.

Lemma append_nil_l (s : string) : EmptyString +:+ s = s.
Proof. done. Qed.

Lemma append_cons (c : ascii) (a b : string) : String c a +:+ b = String c (a +:+ b).
Proof. done. Qed.

(** Two hash-free prefixes followed by the delimiter determine each other. *)
Lemma delimited_inj a b x y :
  has_hash a = false → has_hash b = false →
  a +:+ "#" +:+ x = b +:+ "#" +:+ y → a = b ∧ x = y.
Proof.
  revert b. induction a as [|c a IH]; intros [|c' b] Ha Hb Heq;
    rewrite ?append_cons, ?append_nil_l in Heq.
  - by injection Heq as ->.
  - injection Heq as <- _. done.
  - injection Heq as -> _. done.
  - injection Heq as <- Heq. unfold has_hash in *. simpl in *.
    apply orb_false_iff in Ha as [_ Ha]. apply orb_false_iff in Hb as [_ Hb].
    destruct (IH b Ha Hb Heq) as [-> ->]. done.
Qed.

Lemma flow_key_inj s t r s' t' r' :
  has_hash s = false → has_hash t = false →
  has_hash s' = false → has_hash t' = false →
  flow_key s t r = flow_key s' t' r' → s = s' ∧ t = t' ∧ r = r'.
Proof.
  unfold flow_key. intros Hs Ht Hs' Ht' Heq.
  apply delimited_inj in Heq as [-> Heq]; [|done..].
  apply delimited_inj in Heq as [-> ->]; done.
Qed.

Section Registries.
Context `{Collaborators}.
Variable main_party : string.
Variable text_dictrionary : list (string * string).
Variable purpose_color_map : list (string * string).

Local Abbreviation step := (process_row main_party text_dictrionary purpose_color_map).
Local Abbreviation build :=
  (get_data_flow_graph_revised main_party text_dictrionary purpose_color_map).

Lemma step_keys_from_rows st row st' :
  keys_from_rows st → step st row = Ok st' → keys_from_rows st'.
Proof.
  intros (Hc & Hs & Hr) Hstep.
  apply process_row_inv in Hstep
    as (raw_idx & raw_text & data_type & d & cat & t & s & r & abbr
        & _ & _ & _ & _ & [[Hvalid Hacc] | [_ ->]]); [|done].
  apply accept_inv in Hacc
    as (sc & rc & a & out & _ & _ & _ & Hout & <- & <- & <- & _ & _ & Ec & Es & Er & _).
  simpl in *.
  assert (Hold : ∀ o, o ∈ data_output_arr st → o ∈ data_output_arr st').
  { intros o Ho. rewrite Hout. apply elem_of_app. by left. }
  assert (Hnew : out ∈ data_output_arr st').
  { rewrite Hout. apply elem_of_app. right. by apply list_elem_of_singleton. }
  split_and!; intros k Hk.
  - rewrite Ec in Hk. case_match eqn:Hcase.
    + apply andb_true_iff in Hcase as [?%bool_decide_eq_true ?%bool_decide_eq_true].
      apply elem_of_append_new in Hk as [Hk | ->]; [|by exists out].
      destruct (Hc k Hk) as (o & ? & ?). exists o. auto.
    + destruct (Hc k Hk) as (o & ? & ?). exists o. auto.
  - rewrite Es in Hk. case_match eqn:Hcase.
    + apply andb_true_iff in Hcase as [?%bool_decide_eq_true ?%bool_decide_eq_true].
      apply elem_of_append_new in Hk as [Hk | ->]; [|by exists out].
      destruct (Hs k Hk) as (o & ? & ?). exists o. auto.
    + destruct (Hs k Hk) as (o & ? & ?). exists o. auto.
  - rewrite Er in Hk. case_match eqn:Hcase.
    + apply andb_true_iff in Hcase as [?%bool_decide_eq_true ?%bool_decide_eq_true].
      apply elem_of_append_new in Hk as [Hk | ->]; [|by exists out].
      destruct (Hr k Hk) as (o & ? & ?). exists o. auto.
    + destruct (Hr k Hk) as (o & ? & ?). exists o. auto.
Qed.

Lemma build_keys_from_rows rows st : build rows = Ok st → keys_from_rows st.
Proof.
  apply (foldM_invariant keys_from_rows).
  - intros b a b' Hb Hstep. by eapply step_keys_from_rows.
  - split_and!; intros k Hk; by apply elem_of_nil in Hk.
Qed.

(** C7, amended — when no normalised sender and no normalised data type
    of an accepted record contains the delimiter [#] (receivers may contain
    it), the three dedup sets the builder returns are pairwise disjoint as
    sets of key strings, and the key of a triple whose sender and receiver
    are both empty is in none of them. *)
Theorem dedup_sets_disjoint (rows : list (list string)) (st : state) :
  build rows = Ok st → Forall hash_free (data_output_arr st) →
  data_flow_completed_arr st ## data_flow_no_sender_arr st
  ∧ data_flow_completed_arr st ## data_flow_no_receiver_arr st
  ∧ data_flow_no_sender_arr st ## data_flow_no_receiver_arr st
  ∧ ∀ t, has_hash t = false →
         flow_key EmptyString t EmptyString
         ∉ data_flow_completed_arr st ++ data_flow_no_sender_arr st
           ++ data_flow_no_receiver_arr st.
Proof.
  intros Hrun Hfree. destruct (build_keys_from_rows _ _ Hrun) as (Hc & Hs & Hr).
  rewrite Forall_forall in Hfree.
  assert (Hinj : ∀ o o', o ∈ data_output_arr st → o' ∈ data_output_arr st →
                   key_of o = key_of o' →
                   o_sender o = o_sender o' ∧ o_receiver o = o_receiver o').
  { intros o o' Ho Ho' Heq.
    destruct (Hfree o Ho) as (? & ?), (Hfree o' Ho') as (? & ?).
    apply flow_key_inj in Heq as (? & ? & ?); done. }
  split_and!.
  - intros k (o & Ho & -> & ? & ?)%Hc (o' & Ho' & Heq & ? & ?)%Hs.
    destruct (Hinj o o' Ho Ho' Heq). congruence.
  - intros k (o & Ho & -> & ? & ?)%Hc (o' & Ho' & Heq & ? & ?)%Hr.
    destruct (Hinj o o' Ho Ho' Heq). congruence.
  - intros k (o & Ho & -> & ? & ?)%Hs (o' & Ho' & Heq & ? & ?)%Hr.
    destruct (Hinj o o' Ho Ho' Heq). congruence.
  - intros t Ht Hin.
    assert (∃ o, o ∈ data_output_arr st
                 ∧ flow_key EmptyString t EmptyString = key_of o
                 ∧ (o_sender o ≠ EmptyString ∨ o_receiver o ≠ EmptyString))
      as (o & Ho & Heq & Hne).
    { apply elem_of_app in Hin as [Hin | Hin]; [|apply elem_of_app in Hin as [Hin | Hin]].
      - destruct (Hc _ Hin) as (o & ? & ? & ? & ?). exists o. auto.
      - destruct (Hs _ Hin) as (o & ? & ? & ? & ?). exists o. auto.
      - destruct (Hr _ Hin) as (o & ? & ? & ? & ?). exists o. auto. }
    destruct (Hfree o Ho) as (? & ?).
    apply flow_key_inj in Heq as (? & ? & ?); [|done..].
    destruct Hne; congruence.
Qed.

Lemma step_category_keys st row st' :
  step st row = Ok st' →
  ∃ data_type, raw_data_type row = Some data_type
    ∧ ∀ k, k ∈ (data_category_dic st').*1
           ↔ k ∈ (data_category_dic st).*1 ∨ k = data_type.
Proof.
  intros Hstep.
  apply process_row_inv in Hstep
    as (raw_idx & raw_text & data_type & d & cat & t & s & r & abbr
        & _ & Hraw & _ & _ & Hcases).
  exists data_type. split; [done|].
  assert (Hset : ∀ k, k ∈ (set_default data_type cat (data_category_dic st)).*1
                      ↔ k ∈ (data_category_dic st).*1 ∨ k = data_type).
  { intros k. unfold set_default.
    destruct (assoc data_type (data_category_dic st)) as [v|] eqn:Hassoc.
    - split; [by left | intros [?| ->]; [done|]].
      clear -Hassoc. induction (data_category_dic st) as [|[k' v'] l IH]; simpl in *; [done|].
      case_decide as Hk; [subst; apply elem_of_cons; by left|].
      apply elem_of_cons. right. auto.
    - rewrite fmap_app, elem_of_app. simpl. rewrite list_elem_of_singleton. done. }
  destruct Hcases as [[_ Hacc] | [_ ->]]; [|done].
  apply accept_inv in Hacc as (sc & rc & a & out & _ & _ & _ & _ & _ & _ & _ & _ & -> & _).
  done.
Qed.

Lemma build_category_keys rows st st' :
  foldM step st rows = Ok st' →
  ∀ k, k ∈ (data_category_dic st').*1
       ↔ k ∈ (data_category_dic st).*1 ∨ ∃ row, row ∈ rows ∧ raw_data_type row = Some k.
Proof.
  revert st. induction rows as [|row rows IH]; intros st Hrun k; simpl in Hrun.
  - injection Hrun as <-. split; [by left | intros [?|(row & Hrow & _)]; [done|]].
    by apply elem_of_nil in Hrow.
  - apply bind_Ok in Hrun as (st1 & Hstep & Hrun).
    apply step_category_keys in Hstep as (data_type & Hraw & Hkeys).
    rewrite (IH _ Hrun k), Hkeys. split.
    + intros [[?| ->] | (row' & ? & ?)]; [by left | right | right].
      * exists row. split; [apply elem_of_cons; by left | done].
      * exists row'. split; [apply elem_of_cons; by right | done].
    + intros [? | (row' & [-> | ?]%elem_of_cons & Hk)].
      * by left; left.
      * left; right. congruence.
      * right. eauto.
Qed.

End Registries.

(** ** The invariants on the sample documents *)

Lemma accepted_triples_distinct_witness :
  Doc.run Doc.two_flows = Ok Run.two_flows ∧ accepted_distinct Run.two_flows.
Proof.
  split; [vm_compute; reflexivity|].
  apply (accepted_triples_distinct (H := Sample.collaborators) Doc.main_party
           Doc.text_dictrionary Doc.purpose_color_map Doc.two_flows).
  vm_compute; reflexivity.
Defined.

Lemma one_edge_per_ordered_pair_witness :
  Doc.run (take 1 Doc.two_flows) = Ok Run.first_flow
  ∧ Doc.run (take 1 Doc.two_flows ++ drop 1 Doc.two_flows) = Ok Run.two_flows
  ∧ simple_pairs (G Run.two_flows)
  ∧ ∀ e, e ∈ edges (G Run.first_flow) → edges_on_pair_of e (G Run.two_flows) = [e].
Proof.
  split; [vm_compute; reflexivity|]. split; [vm_compute; reflexivity|].
  apply (one_edge_per_ordered_pair (H := Sample.collaborators) Doc.main_party
           Doc.text_dictrionary Doc.purpose_color_map
           (take 1 Doc.two_flows) (drop 1 Doc.two_flows));
    vm_compute; reflexivity.
Defined.

(** Two records on the pair (audi, email address): one edge, with the
    group, colour, description and title of the first record. *)
Example audi_email_address_edge :
  filter (fun e => on_pair "audi" "email address" e = true) (edges (G Run.two_flows))
  = [Edge "audi" "email address" 0
       (EdgeAttr "1" "ff000000" "We share your email address with insurers."
                 "Contract; " "to")]
  ∧ (o_collection_purpose <$> data_output_arr Run.two_flows) = ["Contract; "; "Marketing; "].
Proof. split; vm_compute; reflexivity. Qed.

(** C7, as stated, fails — with names that contain the delimiter, a
    completed flow and a flow without receiver share one key. *)
Lemma dedup_sets_overlap :
  Doc.run Doc.hash_names = Ok Run.hash_names
  ∧ data_flow_completed_arr Run.hash_names = ["s1#t1#r1#"]
  ∧ data_flow_no_receiver_arr Run.hash_names = ["s1#t1#r1#"]
  ∧ ¬ (data_flow_completed_arr Run.hash_names ## data_flow_no_receiver_arr Run.hash_names).
Proof.
  split_and!; [vm_compute; reflexivity | done | done |].
  intros Hdisj. apply (Hdisj "s1#t1#r1#"); simpl; apply list_elem_of_singleton; done.
Qed.

Lemma dedup_sets_disjoint_witness :
  Doc.run three_kinds_rows = Ok three_kinds_run
  ∧ data_flow_completed_arr three_kinds_run
    = ["audi#email address#insurer"; "audi#phone number#dealer #7"]
  ∧ data_flow_no_sender_arr three_kinds_run = ["#email address#insurer"]
  ∧ data_flow_no_receiver_arr three_kinds_run = ["audi#vehicle location#"]
  ∧ Forall hash_free (data_output_arr three_kinds_run)
  ∧ data_flow_completed_arr three_kinds_run ## data_flow_no_sender_arr three_kinds_run
  ∧ data_flow_completed_arr three_kinds_run ## data_flow_no_receiver_arr three_kinds_run
  ∧ data_flow_no_sender_arr three_kinds_run ## data_flow_no_receiver_arr three_kinds_run
  ∧ ∀ t, has_hash t = false →
         flow_key EmptyString t EmptyString
         ∉ data_flow_completed_arr three_kinds_run
           ++ data_flow_no_sender_arr three_kinds_run
           ++ data_flow_no_receiver_arr three_kinds_run.
Proof.
  assert (Hfree : Forall hash_free (data_output_arr three_kinds_run)).
  { unfold three_kinds_run; simpl. repeat constructor. }
  split; [vm_compute; reflexivity|]. split; [vm_compute; reflexivity|].
  split; [vm_compute; reflexivity|]. split; [vm_compute; reflexivity|].
  split; [exact Hfree|].
  apply (dedup_sets_disjoint (H := Sample.collaborators) Doc.main_party
           Doc.text_dictrionary Doc.purpose_color_map three_kinds_rows);
    [vm_compute; reflexivity | exact Hfree].
Defined.

(** C10 — the category map is keyed by the data type as the row has it in
    its second column: its keys are exactly the raw data types of the rows
    read. The raw string is recorded before it is normalised, so the keys can
    differ from the data-type labels in the graph, the output rows and the
    flow keys: the raw type [GPS Data] is the key, [gps data] the label. *)
Theorem category_map_keyed_by_raw_data_type :
  (∀ (C : Collaborators) (main_party : string) (text_dictrionary : list (string * string))
     (purpose_color_map : list (string * string)) (rows : list (list string)) (st : state),
      get_data_flow_graph_revised main_party text_dictrionary purpose_color_map rows = Ok st →
      ∀ k, k ∈ (data_category_dic st).*1 ↔ ∃ row, row ∈ rows ∧ raw_data_type row = Some k)
  ∧ (Doc.run Doc.gps = Ok Run.gps
     ∧ (data_category_dic Run.gps).*1 = ["GPS Data"]
     ∧ (nodes (G Run.gps)).*1 = ["your car"; "gps data"; "audi"]
     ∧ (o_data_type <$> data_output_arr Run.gps) = ["gps data"]
     ∧ data_flow_completed_arr Run.gps = ["your car#gps data#audi"]).
Proof.
  split.
  - intros C main_party text_dictrionary purpose_color_map rows st Hrun k.
    unfold get_data_flow_graph_revised in Hrun.
    rewrite (build_category_keys _ _ _ _ _ _ Hrun k). simpl. split.
    + intros [Hnil | ?]; [by apply elem_of_nil in Hnil | done].
    + by right.
  - split_and!; vm_compute; reflexivity.
Qed.

Lemma category_map_keyed_by_raw_data_type_witness :
  Doc.run Doc.gps = Ok Run.gps
  ∧ ∀ k, k ∈ (data_category_dic Run.gps).*1
         ↔ ∃ row, row ∈ Doc.gps ∧ raw_data_type row = Some k.
Proof.
  split; [vm_compute; reflexivity|].
  apply (proj1 category_map_keyed_by_raw_data_type Sample.collaborators Doc.main_party
           Doc.text_dictrionary Doc.purpose_color_map Doc.gps).
  vm_compute; reflexivity.
Defined.

(** ** Top-N selection *)

Lemma insert_by_perm before x l : insert_by before x l ≡ₚ x :: l.
Proof.
  induction l as [|y l IH]; simpl; [done|].
  destruct (before x.2 y.2); [done|].
  rewrite IH. apply Permutation_swap.
Qed.

Lemma sorted_by_perm before l : sorted_by before l ≡ₚ l.
Proof.
  induction l as [|x l IH]; simpl; [done|].
  rewrite insert_by_perm. by constructor.
Qed.

Lemma sorted_by_length before l : length (sorted_by before l) = length l.
Proof. by rewrite sorted_by_perm. Qed.

(** The order a comparison puts the items in. *)
Lemma insert_by_sorted (before : Q → Q → bool) x l :
  (∀ a b, before a b = false → before b a = true) →
  (∀ a b c, before a b = true → before b c = true → before a c = true) →
  StronglySorted (fun y z : scored => before y.2 z.2 = true) l →
  StronglySorted (fun y z : scored => before y.2 z.2 = true) (insert_by before x l).
Proof.
  intros Htotal Htrans. induction 1 as [|y l Hl IH Hy]; simpl.
  - repeat constructor.
  - destruct (before x.2 y.2) eqn:Hxy.
    + constructor; [by constructor|].
      constructor; [done|]. eapply Forall_impl; [exact Hy|].
      intros z Hz. simpl in Hz. eauto.
    + constructor; [done|].
      rewrite insert_by_perm. constructor; [auto | done].
Qed.

Lemma sorted_by_sorted (before : Q → Q → bool) l :
  (∀ a b, before a b = false → before b a = true) →
  (∀ a b c, before a b = true → before b c = true → before a c = true) →
  StronglySorted (fun y z : scored => before y.2 z.2 = true) (sorted_by before l).
Proof.
  intros Htotal Htrans. induction l as [|x l IH]; simpl; [constructor|].
  by apply insert_by_sorted.
Qed.

Lemma ascending_total a b : ascending a b = false → ascending b a = true.
Proof.
  unfold ascending. intros Hab. apply Qle_bool_iff.
  destruct (Qlt_le_dec b a) as [Hlt | Hle]; [by apply Qlt_le_weak|].
  apply Qle_bool_iff in Hle. congruence.
Qed.

Lemma ascending_trans a b c :
  ascending a b = true → ascending b c = true → ascending a c = true.
Proof.
  unfold ascending. rewrite !Qle_bool_iff. apply Qle_trans.
Qed.

(** For a positive count the selection is the front of the descending
    order, for a negative count [n] the ascending order without its last
    [-n] items. *)
Lemma process_positive input_data top_n :
  0 < top_n →
  process input_data top_n = take (Z.to_nat top_n) (sorted_by descending input_data).
Proof.
  intros Hn. unfold process, Py.list_slice_to, Py.clamp.
  destruct (0 <? top_n) eqn:E1; [|lia]. destruct (top_n <? 0) eqn:E2; [lia|].
  rewrite sorted_by_length.
  destruct (Z.min_spec top_n (Z.of_nat (length input_data))) as [[_ ->] | [Hle ->]]; [done|].
  rewrite Nat2Z.id, !firstn_all2; [done | rewrite sorted_by_length; lia |].
  by rewrite sorted_by_length.
Qed.

Lemma process_negative input_data top_n :
  top_n < 0 →
  process input_data top_n
  = take (length input_data - Z.to_nat (- top_n)) (sorted_by ascending input_data).
Proof.
  intros Hn. unfold process, Py.list_slice_to, Py.clamp.
  destruct (0 <? top_n) eqn:E1; [lia|]. rewrite sorted_by_length.
  destruct (top_n <? 0) eqn:E2; [|lia].
  f_equal. lia.
Qed.

Lemma process_zero input_data : process input_data 0 = [].
Proof.
  unfold process, Py.list_slice_to, Py.clamp. simpl.
  rewrite Z.min_l by lia. done.
Qed.

Lemma process_negative_length input_data top_n :
  top_n < 0 →
  length (process input_data top_n) = (length input_data - Z.to_nat (- top_n))%nat.
Proof.
  intros Hn. rewrite process_negative by lia.
  rewrite length_take, sorted_by_length. lia.
Qed.

(** C1 — on a ranking of five nodes [process] with the count -2 sorts in
    ascending order and returns the three lowest entries, all but the two
    highest, where the negative-count convention asks for the two lowest. *)
Theorem process_minus_two_of_five :
  process ranking5 (-2) = [("a", 1 # 10); ("d", 2 # 10); ("c", 3 # 10)]%Q
  ∧ length (process ranking5 (-2)) ≠ 2%nat
  ∧ process ranking5 2 = [("b", 5 # 10); ("e", 4 # 10)]%Q.
Proof. split_and!; [reflexivity | vm_compute; lia | reflexivity]. Qed.

(** ** Derived scores *)

Lemma py_div_spec a b :
  py_div a b = if decide (b = 0) then Raise ZeroDivisionError else Ok (a # Z.to_pos b)%Q.
Proof.
  unfold py_div. destruct (Z.eqb_spec b 0); case_decide; done.
Qed.

Lemma length_zero_iff {A} (l : list A) : Z.of_nat (length l) = 0 ↔ l = [].
Proof. destruct l; simpl; split; intros; try done; lia. Qed.

(** C2, amended — the derived scores are plain divisions. Each yields the
    quotient when its denominator is not zero and raises [ZeroDivisionError]
    when it is: no completed flow for the transparency score, no registered
    entity for the third-party ratio, an empty ranking result for the top-N
    overlap. The only explicit null result is that of the overlap for an
    absent ranking ([None]). *)
Theorem derived_scores_divide
    (no_receiver no_sender completed first third user entity_arr : list string)
    (ranking : list scored) :
  transparency_score no_receiver no_sender completed
  = (if decide (completed = []) then Raise ZeroDivisionError
     else Ok (Z.of_nat (length no_receiver + length no_sender)
              # Z.to_pos (Z.of_nat (length completed)))%Q)
  ∧ third_party_score first third user
    = (if decide (first = [] ∧ user = [] ∧ third = []) then Raise ZeroDivisionError
       else Ok (Z.of_nat (length third)
                # Z.to_pos (Z.of_nat (length first + length user + length third)))%Q)
  ∧ get_percentage (Some ranking) entity_arr
    = (if decide (ranking = []) then Raise ZeroDivisionError
       else Ok (Some (Z.of_nat (count_in ranking.*1 entity_arr)
                      # Z.to_pos (Z.of_nat (length ranking)))%Q))
  ∧ get_percentage None entity_arr = Ok None.
Proof.
  unfold transparency_score, third_party_score, get_percentage.
  rewrite !py_div_spec. split_and!; [| | |done].
  - repeat case_decide; try done.
    + by apply length_zero_iff in H.
    + by subst.
  - repeat case_decide; try done.
    + exfalso. apply H0. rewrite <- !length_zero_iff. lia.
    + destruct H0 as (-> & -> & ->). done.
  - repeat case_decide; simpl; try done.
    + by apply length_zero_iff in H.
    + by subst.
Qed.

(** C2, as stated, fails — without a completed flow, without a registered
    entity, or with an empty ranking result the division faults; so does the
    whole score computation for a document whose only flow has no sender,
    whatever the centrality. *)
Lemma zero_denominators_raise :
  transparency_score [] ["#email address#insurer"] [] = Raise ZeroDivisionError
  ∧ third_party_score [] [] [] = Raise ZeroDivisionError
  ∧ get_percentage (Some []) ["audi"] = Raise ZeroDivisionError
  ∧ Doc.run Doc.no_sender_only = Ok Run.no_sender_only
  ∧ ∀ (C : Centrality) option_ top_n,
      post_processing_stats Run.no_sender_only option_ top_n = Raise ZeroDivisionError.
Proof.
  split_and!; [done | done | done | vm_compute; reflexivity |].
  intros C option_ top_n. reflexivity.
Qed.

(** The transparency score of the specification's example: 8 completed flows,
    one without sender, one without receiver. *)
Example transparency_quarter :
  ∃ q, transparency_score ["r"] ["s"] (replicate 8 "k") = Ok q ∧ (q == 1 # 4)%Q.
Proof. eexists. split; [reflexivity | reflexivity]. Qed.

Lemma descending_total a b : descending a b = false → descending b a = true.
Proof. unfold descending. intros Hab. by apply (ascending_total b a). Qed.

Lemma descending_trans a b c :
  descending a b = true → descending b c = true → descending a c = true.
Proof. unfold descending. intros Hab Hbc. by apply (ascending_trans c b a). Qed.

(** The selection for a positive count: the first items of the ranking
    rearranged by non-increasing score. *)
Lemma process_positive_sorted input_data top_n :
  0 < top_n →
  ∃ ranked, ranked ≡ₚ input_data
            ∧ StronglySorted (fun y z : scored => (z.2 <= y.2)%Q) ranked
            ∧ process input_data top_n = take (Z.to_nat top_n) ranked.
Proof.
  intros Hn. exists (sorted_by descending input_data). split_and!.
  - apply sorted_by_perm.
  - eapply StronglySorted_ind with
      (P := StronglySorted (fun y z : scored => (z.2 <= y.2)%Q));
      [constructor | | apply (sorted_by_sorted descending);
                       [apply descending_total | apply descending_trans]].
    intros y l _ IH Hy. constructor; [done|].
    eapply Forall_impl; [exact Hy|]. intros z Hz. by apply Qle_bool_iff.
  - by apply process_positive.
Qed.

(** ** Rows with a column that is not JSON *)

Section Unparseable.
Context `{Collaborators}.
Variable main_party : string.
Variable text_dictrionary : list (string * string).
Variable purpose_color_map : list (string * string).

Local Abbreviation step := (process_row main_party text_dictrionary purpose_color_map).

(** A column that [json.loads] rejects is reported and read as [None]. *)
Lemma load_json_data_malformed (c msg : string) :
  json_loads (Py.strip (unquote c)) = Ok (inl msg) →
  load_json_data c = Ok (JNull, ["Error parsing JSON: " +:+ msg]).
Proof. unfold load_json_data. by intros ->. Qed.

(** The body under the validity test does not look at the reports, nor at the decoded
    category and flow columns. *)
Lemma accept_forget_stdout raw_idx raw_text cat d d' t s r st st' :
  d_party d = d_party d' → d_purpose d = d_purpose d' → d_method d = d_method d' →
  forget_stdout st = forget_stdout st' →
  forget_stdout <$> accept main_party purpose_color_map raw_idx raw_text cat d t s r st
  = forget_stdout <$> accept main_party purpose_color_map raw_idx raw_text cat d' t s r st'.
Proof.
  intros Hparty Hpurpose Hmethod Hst. destruct st, st'. injection Hst as -> -> -> -> -> -> -> -> -> ->.
  unfold accept, record_flow. simpl. rewrite Hparty, Hpurpose, Hmethod.
  destruct (get_collection_party _ _ _) as [party|]; simpl; [|done].
  destruct (get_collection_purpose _) as [purpose|]; simpl; [|done].
  destruct (get_collection_method _ _) as [method|]; simpl; [|done].
  repeat (destruct (get_entity_property _ _ _ _ _ _) as [[[? ?] ?] ?]; simpl).
  done.
Qed.

(** C3, amended — a row whose category column is not JSON is reported and
    is not excluded: the builder treats it exactly like the same row with a
    well-formed category column naming the empty category, up to the
    reports printed. In particular the row raises no exception that the
    well-formed row would not raise, it passes the validity gate and enters
    the graph whenever the well-formed row does, and the loop goes on with
    the rows that follow. The report is among the printed lines. *)
Theorem unparseable_category_is_empty_category
    (st : state) (row : list string) (c2 msg c2' : string) (category_json : json) :
  row !! 2%nat = Some c2 →
  json_loads (Py.strip (unquote c2)) = Ok (inl msg) →
  load_json_data c2' = Ok (category_json, []) →
  get_category category_json = Ok (JStr EmptyString) →
  forget_stdout <$> step st row = forget_stdout <$> step st (<[2%nat:=c2']> row)
  ∧ ∀ st', step st row = Ok st' → "Error parsing JSON: " +:+ msg ∈ stdout st'.
Proof.
  intros Hcol Hbad Hgood Hcat. apply load_json_data_malformed in Hbad.
  assert (Hlen : (2 < length row)%nat) by (by eapply lookup_lt_Some).
  unfold process_row, decode_row, column.
  rewrite (list_lookup_insert_ne row 2 0), (list_lookup_insert_ne row 2 1),
    (list_lookup_insert_ne row 2 3), (list_lookup_insert_ne row 2 4),
    (list_lookup_insert_ne row 2 5), (list_lookup_insert_ne row 2 6) by lia.
  rewrite list_lookup_insert_eq by lia.
  rewrite Hcol. simpl.
  destruct (row !! 0%nat) as [raw_idx|]; simpl; [|done].
  destruct (lookup_text _ _) as [raw_text|]; simpl; [|done].
  destruct (row !! 1%nat) as [data_type|]; simpl; [|done].
  rewrite Hbad, Hgood. simpl.
  destruct (row !! 3%nat) as [c3|]; simpl; [|done].
  destruct (load_json_data c3) as [[flow r3]|]; simpl; [|done].
  destruct (row !! 4%nat) as [c4|]; simpl; [|done].
  destruct (load_json_data c4) as [[party r4]|]; simpl; [|done].
  destruct (row !! 5%nat) as [c5|]; simpl; [|done].
  destruct (load_json_data c5) as [[purpose r5]|]; simpl; [|done].
  destruct (row !! 6%nat) as [c6|]; simpl; [|done].
  destruct (load_json_data c6) as [[method r6]|]; simpl; [|done].
  rewrite Hcat. simpl.
  destruct (get_flow flow) as [[data_sender data_receiver]|]; simpl; [|done].
  destruct (normalise _ _ _ _) as [[[[t s] r] abbr]|]; simpl; [|done].
  destruct (valid_triple s t r) eqn:Hvalid.
  - split; [by apply accept_forget_stdout|].
    intros st' Hacc. apply accept_inv in Hacc.
    destruct Hacc as (? & ? & ? & ? & _ & _ & _ & _ & _ & _ & _ & _ & _ & _ & _ & _ & ->).
    simpl. apply elem_of_app. right. apply elem_of_cons. by left.
  - split; [done|]. intros st' [= <-]. simpl.
    apply elem_of_app. right. apply elem_of_cons. by left.
Qed.

End Unparseable.

(** C3, as stated, fails — the record with the unparseable category column
    is reported, but not excluded: its two edges are in the graph and its
    row is in the output, with the empty category. *)
Lemma unparseable_category_record_kept :
  Doc.run Doc.bad_category = Ok Run.bad_category
  ∧ stdout Run.bad_category = ["Error parsing JSON: Expecting value"]
  ∧ ((fun e => (e_src e, e_dst e, e_group (e_attr e))) <$> edges (G Run.bad_category))
    = [("audi", "email address", "1"); ("email address", "insurer", "1")]
  ∧ ((fun o => (o_sender o, o_data_type o, o_receiver o, o_data_category o))
       <$> data_output_arr Run.bad_category)
    = [("audi", "email address", "insurer", JStr EmptyString)].
Proof. split_and!; vm_compute; reflexivity. Qed.

(** An unparseable flow column, by contrast, ends the run: [None] is
    subscripted without a test, and the sound row that follows is not read. *)
Example unparseable_flow_aborts : Doc.run Doc.bad_flow = Raise TypeError.
Proof. vm_compute. reflexivity. Qed.

Lemma unparseable_category_is_empty_category_witness :
  Doc.bad_category !! 0%nat
  = Some ["1"; "email address"; "not json"; Doc.flow "Audi" "email address" "insurers";
          Doc.output "Third Party"; Doc.output "Contract"; Doc.output "Direct"]
  ∧ ∀ row, Doc.bad_category !! 0%nat = Some row →
      forget_stdout <$> process_row (H := Sample.collaborators) Doc.main_party
                          Doc.text_dictrionary Doc.purpose_color_map initial_state row
      = forget_stdout <$> process_row (H := Sample.collaborators) Doc.main_party
                            Doc.text_dictrionary Doc.purpose_color_map initial_state
                            (<[2%nat:=Doc.output EmptyString]> row)
      ∧ ∀ st', process_row (H := Sample.collaborators) Doc.main_party
                 Doc.text_dictrionary Doc.purpose_color_map initial_state row = Ok st' →
               "Error parsing JSON: " +:+ "Expecting value" ∈ stdout st'.
Proof.
  split; [reflexivity|]. intros row [= <-].
  apply (unparseable_category_is_empty_category (H := Sample.collaborators)
           Doc.main_party Doc.text_dictrionary Doc.purpose_color_map initial_state _
           "not json" "Expecting value" (Doc.output EmptyString)
           (JObj [("Output", JArr [JObj [("DataCategory", JStr EmptyString);
                                         ("InputText", JStr "email address");
                                         ("KBIndex", JNum 3)]])]));
    vm_compute; reflexivity.
Defined.

(** ** Strings: words, deletion of substrings *)














Lemma prefix_empty s : String.prefix EmptyString s = true.
Proof. by destruct s. Qed.


Lemma substring_all s : String.substring 0 (String.length s) s = s.
Proof. induction s; simpl; [done | by f_equal]. Qed.

Lemma slice_from_one c s : Py.slice_from 1 (String c s) = s.
Proof.
  unfold Py.slice_from, Py.slice, Py.clamp.
  set (n := Z.of_nat (String.length (String c s))).
  assert (Hn : n = Z.of_nat (String.length s) + 1) by (subst n; simpl; lia).
  replace (1 <? 0) with false by done.
  replace (n <? 0) with false by (symmetry; apply Z.ltb_ge; lia).
  rewrite Z.min_l by lia. rewrite Z.min_id.
  replace (Z.to_nat 1) with 1%nat by done.
  replace (Z.to_nat (n - 1)) with (String.length s) by lia.
  simpl. apply substring_all.
Qed.


(** ** Registration of abbreviations *)

Lemma register_keeps k v (d : gmap string string) k' v' :
  d !! k' = Some v' → register k v d !! k' = Some v'.
Proof.
  intros Hk'. unfold register. destruct (d !! k) eqn:Hk; [done|].
  rewrite lookup_insert_ne; [done | congruence].
Qed.

Lemma register_lookup k v (d : gmap string string) :
  register k v d !! k = Some (default v (d !! k)).
Proof.
  unfold register. destruct (d !! k) eqn:Hk; simpl; [done|].
  by rewrite lookup_insert_eq.
Qed.

Lemma register_twice k v v' (d : gmap string string) :
  register k v' (register k v d) = register k v d.
Proof.
  unfold register at 1. by rewrite register_lookup.
Qed.

(** ** Abbreviation folding *)






(** Nothing is left of a text made of the token's letters. *)
Example folding_nothing_left : get_abbreviation "aa(a)" ∅ = Raise IndexError.
Proof. vm_compute. reflexivity. Qed.

(** ** Verification sampler *)


Lemma mapM_lookup {A} (input_data : list A) (idxs : list nat) :
  Forall (fun i => (i < length input_data)%nat) idxs →
  ∃ sample,
    mapM (fun idx => match input_data !! idx with
                     | Some x => Ok x
                     | None => Raise IndexError
                     end) idxs = Ok sample
    ∧ drawn_at input_data idxs sample.
Proof.
  induction 1 as [|i idxs Hi _ (sample & IH & Hat)]; [exists []; split; [done | constructor]|].
  destruct (lookup_lt_is_Some_2 input_data i Hi) as [x Hx].
  exists (x :: sample). simpl. rewrite Hx. simpl. rewrite IH. simpl.
  split; [done | by constructor].
Qed.


(** *** Signs in binary64

    Rounding a mantissa that is not negative gives no NaN and keeps the
    sign. *)













(** C9, as stated — the size is not the floor of rate times population
    size, and errors occur. Ten rows at the [float] 0.7, which lies below
    7/10, give seven rows although the floor of the product with that
    [float]'s value is 6; a hundred rows at the [float] 0.29 give 28 rows
    although the floor of 100 times 29/100 is 29; a negative rate ends in
    [ValueError] and a large one in [OverflowError]. *)
Lemma verification_sampler_rounds :
  rate_0_7 = F64.of_ratio 7 10
  ∧ F64.sampling_size ten_rows rate_0_7 = Ok 7
  ∧ Qfloor (inject_Z (Z.of_nat (length ten_rows)) * F64.to_Q rate_0_7) = 6
  ∧ rate_0_29 = F64.of_ratio 29 100
  ∧ F64.sampling_size hundred_rows rate_0_29 = Ok 28
  ∧ Qfloor (inject_Z (Z.of_nat (length hundred_rows)) * (29 # 100)) = 29
  ∧ F64.verification_sample drawn_order ten_rows rate_minus_half = Raise ValueError
  ∧ F64.verification_sample drawn_order ten_rows rate_1e308 = Raise OverflowError.
Proof. split_and!; vm_compute; reflexivity. Qed.

(** ** Tree detection *)

Lemma joins_true u v (e : uedge) :
  joins u v e = true ↔ (e.1.1 = u ∧ e.1.2 = v) ∨ (e.1.1 = v ∧ e.1.2 = u).
Proof.
  unfold joins. rewrite orb_true_iff, !andb_true_iff, !bool_decide_eq_true. done.
Qed.

Lemma filter_none {A} (P : A → Prop) `{∀ x, Decision (P x)} (l : list A) :
  Forall (fun x => ¬ P x) l → filter P l = [].
Proof.
  induction 1 as [|x l Hx _ IH]; [done|]. by rewrite filter_cons_False.
Qed.

Lemma existsb_false {A} (f : A → bool) (l : list A) :
  existsb f l = false → Forall (fun x => f x = false) l.
Proof.
  induction l as [|x l IH]; simpl; [constructor|].
  intros [Hx Hl]%orb_false_iff. constructor; auto.
Qed.

(** What the conversion keeps of every edge when all keys are 0: one
    undirected edge per joined pair. *)
Lemma add_uedges_simple (ns : list string) (new acc : list uedge) :
  let ok := fun e : uedge => e.2 = 0%nat ∧ e.1.1 ≠ e.1.2 ∧ e.1.1 ∈ ns ∧ e.1.2 ∈ ns in
  Forall ok new → Forall ok acc →
  (∀ u v, (length (filter (fun e => joins u v e = true) acc) ≤ 1)%nat) →
  Forall ok (add_uedges new acc)
  ∧ ∀ u v, (length (filter (fun e => joins u v e = true) (add_uedges new acc)) ≤ 1)%nat.
Proof.
  intros ok Hnew. revert acc.
  induction Hnew as [|e new He _ IH]; intros acc Hacc Hone; simpl; [done|].
  destruct (existsb (same_uedge e) acc) eqn:Hex; [by apply IH|].
  apply IH.
  - apply Forall_app. split; [done | by apply Forall_singleton].
  - intros u v. rewrite filter_app, length_app, filter_cons, filter_nil.
    destruct (decide (joins u v e = true)) as [Hj|_]; simpl; [|specialize (Hone u v); lia].
    rewrite filter_none; [simpl; lia|].
    apply existsb_false in Hex. rewrite Forall_forall in Hex, Hacc.
    apply Forall_forall. intros b Hb Hjb.
    specialize (Hex b Hb). unfold same_uedge in Hex.
    destruct He as [He _]. destruct (Hacc b Hb) as [Hkb _].
    rewrite He, Hkb, bool_decide_eq_true_2, andb_true_r in Hex by done.
    assert (joins e.1.1 e.1.2 b = true); [|congruence].
    apply joins_true in Hj, Hjb. apply joins_true.
    destruct Hj as [[<- <-] | [<- <-]], Hjb as [[-> ->] | [-> ->]]; auto.
Qed.

(** The undirected graph of a built graph is simple. *)
Lemma to_undirected_simple g : built g → simple_undirected (to_undirected g).
Proof.
  intros [Hnodes Hg]. unfold simple_undirected, to_undirected. simpl.
  destruct (add_uedges_simple (nodes g).*1
              ((fun e => (e_src e, e_dst e, e_key e)) <$> edges g) []) as [Hok Hone].
  - apply Forall_fmap. eapply Forall_impl; [exact Hg|]. by intros e (? & ? & ? & ?).
  - constructor.
  - intros u v. rewrite filter_nil. simpl. lia.
  - split_and!; [done | | done].
    eapply Forall_impl; [exact Hok|]. by intros e (? & ? & ? & ?).
Qed.

(** ** The builder's graphs are built graphs *)

Lemma update_node_names n a ns m :
  m ∈ (update_node n a ns).*1 ↔ m ∈ ns.*1 ∨ m = n.
Proof.
  induction ns as [|[k b] ns IH]; simpl.
  - rewrite list_elem_of_singleton. split; [by right | intros [Hnil | ?]; [|done]].
    by apply elem_of_nil in Hnil.
  - case_decide as Hk; simpl.
    + subst. rewrite elem_of_cons. split; [by left | intros [?| ->]; [done | by left]].
    + rewrite !elem_of_cons, IH. tauto.
Qed.

Lemma update_node_NoDup n a ns : NoDup ns.*1 → NoDup (update_node n a ns).*1.
Proof.
  induction ns as [|[k b] ns IH]; simpl; [intros _; apply NoDup_singleton|].
  intros [Hk Hns]%NoDup_cons. case_decide as Hkn; simpl.
  - by apply NoDup_cons.
  - apply NoDup_cons. split; [|auto].
    rewrite update_node_names. intros [? | ?]; done.
Qed.

Lemma add_node_built g n a : built g → built (add_node g n a).
Proof.
  unfold built. simpl. intros [Hnodes Hg]. split; [by apply update_node_NoDup|].
  eapply Forall_impl; [exact Hg|].
  intros e (? & ? & ? & ?). rewrite !update_node_names. auto.
Qed.

Lemma add_edge_built g u v a :
  built g → has_edge g u v = false → u ≠ v → built (add_edge g u v a).
Proof.
  intros [Hnodes Hg] Hno Hne. unfold built, add_edge. simpl.
  split; [by do 2 apply update_node_NoDup|]. apply Forall_app. split.
  - eapply Forall_impl; [exact Hg|].
    intros e (? & ? & ? & ?). rewrite !update_node_names. tauto.
  - apply Forall_singleton. simpl. rewrite !update_node_names.
    split_and!; [by apply has_edge_false | done | tauto | tauto].
Qed.

Lemma add_flow_built g s t r sc rc a :
  built g → s ≠ t → r ≠ t → built (add_flow g s t r sc rc a).
Proof.
  intros Hg Hst Hrt. unfold add_flow.
  set (g1 := if has_node g s then g else _).
  assert (H1 : built g1) by (subst g1; case_match; [done | by apply add_node_built]).
  set (g2 := if negb (has_node g1 t) && _ then _ else g1).
  assert (H2 : built g2) by (subst g2; case_match; [by apply add_node_built | done]).
  set (g3 := if has_node g2 r then g2 else _).
  assert (H3 : built g3) by (subst g3; case_match; [done | by apply add_node_built]).
  set (g4 := if has_edge g3 s t then g3 else _).
  assert (H4 : built g4).
  { subst g4. destruct (has_edge g3 s t) eqn:E; [done | by apply add_edge_built]. }
  destruct (has_edge g4 t r) eqn:E; [done | by apply add_edge_built].
Qed.

Lemma build_graph_built `{Collaborators} main_party text_dictrionary purpose_color_map
    (rows : list (list string)) (st : state) :
  get_data_flow_graph_revised main_party text_dictrionary purpose_color_map rows = Ok st →
  built (G st).
Proof.
  apply (foldM_invariant (fun st => built (G st))); [|split; constructor].
  intros b row b' Hb Hstep.
  apply process_row_inv in Hstep
    as (raw_idx & raw_text & data_type & d & cat & t & s & r & abbr
        & _ & _ & _ & _ & [[Hvalid Hacc] | [_ ->]]); [|done].
  apply accept_inv in Hacc as (sc & rc & a & out & -> & _). simpl.
  apply valid_triple_distinct in Hvalid as (? & ? & ?).
  by apply add_flow_built.
Qed.

(** ** The breadth-first search finds the connected nodes *)

Lemma neighbors_in_nodes g x y :
  simple_undirected g → adjacent g x y → y ∈ u_nodes g.
Proof.
  intros (_ & Hedges & _) Hadj. unfold adjacent, neighbors in Hadj.
  apply list_elem_of_omap in Hadj as (e & He & Hy).
  rewrite Forall_forall in Hedges. destruct (Hedges e He) as (_ & ? & ?).
  repeat case_bool_decide; by simplify_eq.
Qed.

(** The nodes added in one round: those of [l] not yet in [acc]. *)
Lemma add_new_spec (l acc : list string) :
  ∃ extra,
    foldl (fun acc n => if bool_decide (n ∈ acc) then acc else acc ++ [n]) acc l
    = acc ++ extra
    ∧ (∀ y, y ∈ extra ↔ y ∈ l ∧ y ∉ acc)
    ∧ (NoDup acc → NoDup (acc ++ extra)).
Proof.
  revert acc. induction l as [|n l IH]; intros acc; simpl.
  - exists []. rewrite app_nil_r. split_and!; [done | | done].
    intros y. split; [by intros ?%elem_of_nil | by intros [?%elem_of_nil _]].
  - case_bool_decide as Hn.
    + destruct (IH acc) as (extra & -> & Hextra & Hnodup).
      exists extra. split_and!; [done | | done].
      intros y. rewrite Hextra, elem_of_cons. split; [tauto|].
      intros [[-> | ?] ?]; done.
    + destruct (IH (acc ++ [n])) as (extra & -> & Hextra & Hnodup).
      exists (n :: extra). split_and!.
      * by rewrite <- app_assoc.
      * intros y. rewrite !elem_of_cons, Hextra, elem_of_app, list_elem_of_singleton.
        destruct (decide (y = n)) as [->|]; [tauto|]. tauto.
      * intros Hacc.
        replace (acc ++ n :: extra) with ((acc ++ [n]) ++ extra)
          by (by rewrite <- app_assoc).
        apply Hnodup.
        apply NoDup_app. split_and!; [done | | apply NoDup_singleton].
        intros x Hx ->%list_elem_of_singleton. done.
Qed.

Lemma expand_spec g seen :
  ∃ extra, expand g seen = seen ++ extra
           ∧ (∀ y, y ∈ extra ↔ (∃ x, x ∈ seen ∧ adjacent g x y) ∧ y ∉ seen)
           ∧ (NoDup seen → NoDup (seen ++ extra)).
Proof.
  unfold expand. destruct (add_new_spec (seen ≫= neighbors g) seen)
    as (extra & -> & Hextra & Hnodup).
  exists extra. split_and!; [done | | done].
  intros y. rewrite Hextra, list_elem_of_bind. unfold adjacent.
  split; intros [(x & ? & ?) ?]; (split; [by exists x | done]).
Qed.

Lemma reach_closed fuel g seen : expand g seen = seen → reach fuel g seen = seen.
Proof.
  intros Hfix. induction fuel as [|fuel IH]; simpl; [done|]. by rewrite Hfix.
Qed.

(** Every round either adds a node or has reached a closed set. *)
Lemma reach_grows fuel g seen :
  closed g (reach fuel g seen) ∨ (length seen + fuel ≤ length (reach fuel g seen))%nat.
Proof.
  revert seen. induction fuel as [|fuel IH]; intros seen; simpl; [right; lia|].
  destruct (expand_spec g seen) as (extra & Hexp & Hextra & _).
  destruct extra as [|n extra].
  - left. rewrite app_nil_r in Hexp. rewrite Hexp, reach_closed by done.
    intros x y Hx Hadj. destruct (decide (y ∈ seen)) as [|Hy]; [done|].
    assert (Hin : y ∈ []) by (apply Hextra; eauto). by apply elem_of_nil in Hin.
  - destruct (IH (expand g seen)) as [? | Hlen]; [by left | right].
    assert (length (expand g seen) = length seen + S (length extra))%nat
      by (by rewrite Hexp, length_app).
    lia.
Qed.

Lemma reach_invariant fuel g seen :
  simple_undirected g → NoDup seen → seen ⊆ u_nodes g →
  NoDup (reach fuel g seen) ∧ reach fuel g seen ⊆ u_nodes g ∧ seen ⊆ reach fuel g seen.
Proof.
  intros Hg. revert seen. induction fuel as [|fuel IH]; intros seen Hnodup Hsub; simpl; [done|].
  destruct (expand_spec g seen) as (extra & Hexp & Hextra & Hnd).
  destruct (IH (expand g seen)) as (? & ? & Hmono).
  - rewrite Hexp. auto.
  - rewrite Hexp. intros y [Hy | Hy]%elem_of_app; [by apply Hsub|].
    apply Hextra in Hy as [(x & _ & Hadj) _]. by eapply neighbors_in_nodes.
  - split_and!; [done | done |].
    intros y Hy. apply Hmono. rewrite Hexp. apply elem_of_app. by left.
Qed.

Lemma reach_sound fuel g seen y :
  y ∈ reach fuel g seen → ∃ x, x ∈ seen ∧ connected g x y.
Proof.
  revert seen. induction fuel as [|fuel IH]; intros seen Hy; simpl in Hy.
  - exists y. split; [done | apply rtc_refl].
  - destruct (IH _ Hy) as (x & Hx & Hxy).
    destruct (expand_spec g seen) as (extra & Hexp & Hextra & _).
    rewrite Hexp in Hx. apply elem_of_app in Hx as [Hx | Hx]; [by exists x|].
    apply Hextra in Hx as [(x0 & Hx0 & Hadj) _].
    exists x0. split; [done|]. by eapply rtc_l.
Qed.

(** The search from [v] returns exactly the nodes connected to [v]. *)
Lemma plain_bfs_connected g v y :
  simple_undirected g → v ∈ u_nodes g →
  y ∈ plain_bfs g v ↔ connected g v y.
Proof.
  intros Hg Hv. unfold plain_bfs.
  assert (Hsub : [v] ⊆ u_nodes g) by (by intros x ->%list_elem_of_singleton).
  destruct (reach_invariant (length (u_nodes g)) g [v] Hg (NoDup_singleton v) Hsub)
    as (Hnodup & Hnodes & Hmono).
  split.
  - intros (x & ->%list_elem_of_singleton & Hconn)%reach_sound. done.
  - intros Hconn.
    assert (Hclosed : closed g (reach (length (u_nodes g)) g [v])).
    { destruct (reach_grows (length (u_nodes g)) g [v]) as [|Hlen]; [done|].
      pose proof (submseteq_length _ _ (NoDup_submseteq _ _ Hnodup Hnodes)) as Hle.
      simpl in Hlen. lia. }
    assert (Hstart : v ∈ reach (length (u_nodes g)) g [v])
      by (apply Hmono, list_elem_of_singleton; done).
    generalize dependent (reach (length (u_nodes g)) g [v]). intros found _ _ _ Hclosed.
    clear Hv Hsub. induction Hconn as [|x y z Hadj _ IH]; [done|].
    intros Hx. apply IH. by eapply Hclosed.
Qed.

Lemma components_go_spec g todo seen c :
  c ∈ components_go g todo seen → ∃ v, v ∈ todo ∧ c = plain_bfs g v.
Proof.
  revert seen. induction todo as [|v todo IH]; intros seen Hc; simpl in Hc.
  - by apply elem_of_nil in Hc.
  - case_bool_decide.
    + destruct (IH _ Hc) as (w & ? & ?). exists w. split; [by apply elem_of_cons; right | done].
    + apply elem_of_cons in Hc as [-> | Hc].
      * exists v. split; [by apply elem_of_cons; left | done].
      * destruct (IH _ Hc) as (w & ? & ?). exists w.
        split; [by apply elem_of_cons; right | done].
Qed.

(** Every listed component is the set of nodes connected to one of its
    nodes. *)
Lemma connected_components_sound g c :
  simple_undirected g → c ∈ connected_components g →
  ∃ v, v ∈ u_nodes g ∧ ∀ y, y ∈ c ↔ connected g v y.
Proof.
  intros Hg (v & Hv & ->)%components_go_spec. exists v. split; [done|].
  intros y. by apply plain_bfs_connected.
Qed.

Lemma plain_bfs_start g v :
  simple_undirected g → v ∈ u_nodes g → v ∈ plain_bfs g v.
Proof. intros Hg Hv. apply plain_bfs_connected; [done | done | apply rtc_refl]. Qed.

(** Every node is in a listed component. *)
Lemma components_go_cover g todo seen v :
  simple_undirected g → todo ⊆ u_nodes g → v ∈ todo →
  v ∈ seen ∨ ∃ c, c ∈ components_go g todo seen ∧ v ∈ c.
Proof.
  intros Hg. revert seen. induction todo as [|w todo IH]; intros seen Hsub Hv; simpl.
  - by apply elem_of_nil in Hv.
  - assert (Hsub' : todo ⊆ u_nodes g) by (intros x Hx; apply Hsub; by apply elem_of_cons; right).
    assert (Hw : w ∈ u_nodes g) by (apply Hsub; by apply elem_of_cons; left).
    apply elem_of_cons in Hv as [-> | Hv].
    + case_bool_decide; [by left | right].
      exists (plain_bfs g w). split; [by apply elem_of_cons; left | by apply plain_bfs_start].
    + case_bool_decide.
      * by apply IH.
      * destruct (IH (seen ++ plain_bfs g w) Hsub' Hv) as [Hin | (c & Hc & Hvc)].
        -- apply elem_of_app in Hin as [? | ?]; [by left | right].
           exists (plain_bfs g w). split; [by apply elem_of_cons; left | done].
        -- right. exists c. split; [by apply elem_of_cons; right | done].
Qed.

Lemma connected_components_cover g v :
  simple_undirected g → v ∈ u_nodes g → ∃ c, c ∈ connected_components g ∧ v ∈ c.
Proof.
  intros Hg Hv.
  destruct (components_go_cover g (u_nodes g) [] v Hg) as [Hnil | ?]; [done | done | | done].
  by apply elem_of_nil in Hnil.
Qed.

Lemma length_filter_filter {A} (P Q : A → Prop)
    `{∀ x, Decision (P x)} `{∀ x, Decision (Q x)} (l : list A) :
  (length (filter P (filter Q l)) ≤ length (filter P l))%nat.
Proof.
  induction l as [|x l IH]; [done|].
  rewrite (filter_cons Q), (filter_cons P).
  destruct (decide (Q x)), (decide (P x)); rewrite ?filter_cons;
    repeat case_decide; simpl; try done; lia.
Qed.

(** The subgraph induced by a set of nodes is simple again. *)
Lemma subgraph_simple g c : simple_undirected g → simple_undirected (subgraph g c).
Proof.
  intros (Hnodes & Hedges & Hone). unfold simple_undirected, subgraph. simpl. split_and!.
  - by apply NoDup_filter.
  - rewrite Forall_forall in Hedges. apply Forall_forall.
    intros e [[Hc1 Hc2] He]%list_elem_of_filter.
    destruct (Hedges e He) as (? & ? & ?).
    rewrite !list_elem_of_filter. done.
  - intros u v. etrans; [apply length_filter_filter | apply Hone].
Qed.

(** Adjacency and connection are symmetric. *)
Lemma adjacent_sym g x y : adjacent g x y → adjacent g y x.
Proof.
  unfold adjacent, neighbors. rewrite !list_elem_of_omap.
  intros (e & He & Hy). exists e. split; [done|].
  destruct (decide (e.1.1 = x)) as [H1 | H1].
  - rewrite bool_decide_eq_true_2 in Hy by done. injection Hy as <-.
    destruct (decide (e.1.1 = e.1.2)) as [H2 | H2].
    + rewrite bool_decide_eq_true_2 by done. congruence.
    + rewrite bool_decide_eq_false_2, bool_decide_eq_true_2 by done. congruence.
  - rewrite bool_decide_eq_false_2 in Hy by done.
    destruct (decide (e.1.2 = x)) as [H2 | H2].
    + rewrite bool_decide_eq_true_2 in Hy by done. injection Hy as <-.
      rewrite bool_decide_eq_true_2 by done. congruence.
    + by rewrite bool_decide_eq_false_2 in Hy.
Qed.

Lemma connected_sym g x y : connected g x y → connected g y x.
Proof.
  induction 1 as [x | x z y Hxz _ IH]; [done|].
  eapply rtc_r; [exact IH | by apply adjacent_sym].
Qed.

(** [is_connected] tells that every node is connected to the first one. *)
Lemma is_connected_spec g :
  simple_undirected g → is_connected g = true →
  ∃ v, v ∈ u_nodes g ∧ ∀ y, y ∈ u_nodes g → connected g v y.
Proof.
  intros Hg Hconn. unfold is_connected in Hconn.
  destruct (u_nodes g) as [|v ns] eqn:Hnodes; [done|].
  apply bool_decide_eq_true in Hconn.
  assert (Hv : v ∈ u_nodes g) by (rewrite Hnodes; by apply elem_of_cons; left).
  exists v. rewrite <- Hnodes. split; [done|]. intros y Hy.
  apply plain_bfs_connected; [done | done |].
  assert (Hsub : [v] ⊆ u_nodes g) by (by intros x ->%list_elem_of_singleton).
  destruct (reach_invariant (length (u_nodes g)) g [v] Hg (NoDup_singleton v) Hsub)
    as (Hnodup & Hin & _).
  fold (plain_bfs g v) in Hnodup, Hin.
  assert (Hperm : plain_bfs g v ≡ₚ u_nodes g).
  { apply submseteq_length_Permutation; [by apply NoDup_submseteq|].
    rewrite Hconn, Hnodes. done. }
  by rewrite Hperm.
Qed.

(** [is_connected] holds exactly of the graphs with a node in which every
    two nodes are connected. *)
Lemma is_connected_iff g :
  simple_undirected g →
  is_connected g = true
  ↔ u_nodes g ≠ [] ∧ ∀ x y, x ∈ u_nodes g → y ∈ u_nodes g → connected g x y.
Proof.
  intros Hg. split.
  - intros Hconn. destruct (is_connected_spec g Hg Hconn) as (v & Hv & Hall).
    split; [intros Hnil; rewrite Hnil in Hv; by apply elem_of_nil in Hv|].
    intros x y Hx Hy. etrans; [apply connected_sym, Hall, Hx | by apply Hall].
  - intros [Hne Hall]. unfold is_connected.
    destruct (u_nodes g) as [|v ns] eqn:Hnodes; [done|].
    apply bool_decide_eq_true. rewrite <- Hnodes.
    assert (Hv : v ∈ u_nodes g) by (rewrite Hnodes; by apply elem_of_cons; left).
    assert (Hsub : [v] ⊆ u_nodes g) by (by intros x ->%list_elem_of_singleton).
    destruct (reach_invariant (length (u_nodes g)) g [v] Hg (NoDup_singleton v) Hsub)
      as (Hnodup & Hin & _).
    fold (plain_bfs g v) in Hnodup, Hin.
    apply Permutation_length, NoDup_Permutation; [done | apply Hg |].
    intros y. split; [apply Hin|]. intros Hy.
    apply plain_bfs_connected; [done | done | apply Hall; by rewrite <- Hnodes].
Qed.

Lemma is_tree_iff g : simple_undirected g → is_tree g = true ↔ tree g.
Proof.
  intros Hg. unfold is_tree, tree.
  rewrite andb_true_iff, bool_decide_eq_true, is_connected_iff by done.
  split; [intros [? [? ?]] | intros (? & ? & ?)]; done.
Qed.

(** The subgraph of a set of nodes is the induced one. *)
Lemma subgraph_induced g c : induced g c (subgraph g c).
Proof.
  unfold induced, subgraph. simpl. split_and!.
  - intros n. rewrite list_elem_of_filter. tauto.
  - intros e. rewrite list_elem_of_filter. tauto.
  - apply sublist_filter.
  - apply sublist_filter.
Qed.

Lemma component_in_nodes g c :
  simple_undirected g → c ∈ connected_components g → c ⊆ u_nodes g.
Proof.
  intros Hg (v & Hv & ->)%components_go_spec. unfold plain_bfs.
  apply reach_invariant; [done | apply NoDup_singleton |].
  by intros x ->%list_elem_of_singleton.
Qed.

(** Two nodes are adjacent when an edge joins them. *)
Lemma adjacent_joins g x y :
  adjacent g x y ↔ ∃ e, e ∈ u_edges g ∧ joins x y e = true.
Proof.
  unfold adjacent, neighbors. rewrite list_elem_of_omap. split.
  - intros (e & He & Hy). exists e. split; [done|]. apply joins_true.
    repeat case_bool_decide; simplify_eq; auto.
  - intros (e & He & [[H1 H2] | [H1 H2]]%joins_true); exists e; (split; [done|]).
    + rewrite bool_decide_eq_true_2 by done. congruence.
    + destruct (decide (e.1.1 = x)) as [Hx | Hx].
      * rewrite bool_decide_eq_true_2 by done. congruence.
      * rewrite bool_decide_eq_false_2, bool_decide_eq_true_2 by done. congruence.
Qed.

Lemma add_uedges_elem new acc (b : uedge) :
  b ∈ add_uedges new acc → b ∈ new ∨ b ∈ acc.
Proof.
  revert acc. induction new as [|e new IH]; intros acc Hb; simpl in Hb; [by right|].
  apply IH in Hb as [Hb | Hb]; [left; by apply elem_of_cons; right|].
  destruct (existsb (same_uedge e) acc); [by right|].
  apply elem_of_app in Hb as [? | ->%list_elem_of_singleton]; [by right|].
  left. by apply elem_of_cons; left.
Qed.

Lemma add_uedges_keeps new acc (b : uedge) : b ∈ acc → b ∈ add_uedges new acc.
Proof.
  revert acc. induction new as [|e new IH]; intros acc Hb; simpl; [done|].
  apply IH. destruct (existsb (same_uedge e) acc); [done|]. apply elem_of_app. by left.
Qed.

Lemma existsb_elem {A} (f : A → bool) (l : list A) :
  existsb f l = true → ∃ x, x ∈ l ∧ f x = true.
Proof.
  induction l as [|x l IH]; simpl; [done|].
  intros [Hx | Hl]%orb_true_iff.
  - exists x. split; [by apply elem_of_cons; left | done].
  - destruct (IH Hl) as (y & ? & ?). exists y. split; [by apply elem_of_cons; right | done].
Qed.

Lemma existsb_intro {A} (f : A → bool) (l : list A) (x : A) :
  x ∈ l → f x = true → existsb f l = true.
Proof.
  intros Hx Hf. induction l as [|a l IH]; simpl; [by apply elem_of_nil in Hx|].
  apply elem_of_cons in Hx as [<- | Hx]; [by rewrite Hf|].
  rewrite IH by done. apply orb_true_r.
Qed.

(** Every directed edge has an undirected edge on its two end points. *)
Lemma add_uedges_joined new acc (e : uedge) :
  e ∈ new → ∃ b, b ∈ add_uedges new acc ∧ joins e.1.1 e.1.2 b = true.
Proof.
  revert acc. induction new as [|a new IH]; intros acc He; [by apply elem_of_nil in He|].
  simpl. apply elem_of_cons in He as [-> | He]; [|by apply IH].
  destruct (existsb (same_uedge a) acc) eqn:Hex.
  - apply existsb_elem in Hex as (b & Hb & Hsame). exists b.
    split; [by apply add_uedges_keeps|].
    unfold same_uedge in Hsame. by apply andb_true_iff in Hsame as [? _].
  - exists a. split.
    + apply add_uedges_keeps, elem_of_app. right. by apply list_elem_of_singleton.
    + apply joins_true. by left.
Qed.

Lemma has_edge_elem g u v :
  has_edge g u v = true ↔ ∃ e, e ∈ edges g ∧ e_src e = u ∧ e_dst e = v.
Proof.
  unfold has_edge. split.
  - intros (e & He & Hpair)%existsb_elem. exists e. split; [done|].
    unfold on_pair in Hpair.
    by apply andb_true_iff in Hpair as [?%bool_decide_eq_true ?%bool_decide_eq_true].
  - intros (e & He & Hs & Hd). apply existsb_intro with e; [done|].
    unfold on_pair. by rewrite !bool_decide_eq_true_2.
Qed.

(** Two nodes are adjacent in the undirected graph when the graph has an
    edge between them, in either direction. *)
Lemma to_undirected_adjacent g x y :
  adjacent (to_undirected g) x y ↔ has_edge g x y = true ∨ has_edge g y x = true.
Proof.
  rewrite adjacent_joins, !has_edge_elem. unfold to_undirected. simpl. split.
  - intros (b & Hb & Hj).
    apply add_uedges_elem in Hb as [Hb | Hb]; [|by apply elem_of_nil in Hb].
    apply list_elem_of_fmap in Hb as (e & -> & He).
    apply joins_true in Hj. simpl in Hj.
    destruct Hj as [[? ?] | [? ?]]; [left | right]; by exists e.
  - intros [(e & He & Hs & Hd) | (e & He & Hs & Hd)];
      destruct (add_uedges_joined ((fun e => (e_src e, e_dst e, e_key e)) <$> edges g) []
                  (e_src e, e_dst e, e_key e)) as (b & Hb & Hj);
      try (apply list_elem_of_fmap; by exists e);
      exists b; (split; [done|]); simpl in Hj; subst;
      apply joins_true; apply joins_true in Hj; tauto.
Qed.

(** C8 — tree detection turns a built graph into an undirected simple graph
    on the same nodes, in which two nodes are adjacent when the built graph
    has an edge between them in either direction. It enumerates the connected
    components (every node is in one, and each is the set of nodes connected
    to one of its nodes), takes of each the induced subgraph (the nodes of the
    component and the edges between them) and reports exactly the components
    whose induced subgraph is a tree: it has a node, every two of its nodes
    are connected within it, and it has one edge less than it has nodes. *)
Theorem tree_detection (g : graph) :
  built g →
  let ug := to_undirected g in
  simple_undirected ug
  ∧ u_nodes ug = (nodes g).*1
  ∧ (∀ x y, adjacent ug x y ↔ has_edge g x y = true ∨ has_edge g y x = true)
  ∧ (∀ v, v ∈ u_nodes ug → ∃ c, c ∈ connected_components ug ∧ v ∈ c)
  ∧ (∀ c, c ∈ connected_components ug →
          ∃ v, v ∈ u_nodes ug ∧ ∀ y, y ∈ c ↔ connected ug v y)
  ∧ (∀ c, c ∈ connected_components ug →
          induced ug c (subgraph ug c) ∧ ∀ n, n ∈ u_nodes (subgraph ug c) ↔ n ∈ c)
  ∧ (∀ t, t ∈ finding_tree g
          ↔ ∃ c, c ∈ connected_components ug ∧ t = subgraph ug c ∧ tree t)
  ∧ (∀ t, t ∈ finding_tree g
          ↔ ∃ c, c ∈ connected_components ug
                 ∧ t = subgraph ug c
                 ∧ is_connected t = true
                 ∧ length (u_edges t) = (length (u_nodes t) - 1)%nat)
  ∧ (∀ t, t ∈ finding_tree g →
          ∃ v, v ∈ u_nodes t ∧ ∀ y, y ∈ u_nodes t → connected t v y).
Proof.
  intros Hg ug. assert (Hug : simple_undirected ug) by (by apply to_undirected_simple).
  assert (Hspec : ∀ t, t ∈ finding_tree g
                       ↔ ∃ c, c ∈ connected_components ug
                              ∧ t = subgraph ug c
                              ∧ is_connected t = true
                              ∧ length (u_edges t) = (length (u_nodes t) - 1)%nat).
  { intros t. unfold finding_tree. fold ug.
    rewrite list_elem_of_filter, list_elem_of_fmap.
    unfold is_tree. rewrite andb_true_iff, bool_decide_eq_true. split.
    - intros [[Hcount Hconn] (c & -> & Hc)]. exists c. done.
    - intros (c & Hc & -> & Hconn & Hcount). split; [done|]. by exists c. }
  split_and!; [done | done | | | | | | done |].
  - intros x y. apply to_undirected_adjacent.
  - intros v Hv. by apply connected_components_cover.
  - intros c Hc. by apply connected_components_sound.
  - intros c Hc. split; [apply subgraph_induced|].
    intros n. destruct (subgraph_induced ug c) as (Hn & _). rewrite Hn.
    pose proof (component_in_nodes ug c Hug Hc n). tauto.
  - intros t. unfold finding_tree. fold ug.
    rewrite list_elem_of_filter, list_elem_of_fmap. split.
    + intros [Htree (c & -> & Hc)]. exists c. split_and!; [done | done |].
      apply is_tree_iff; [by apply subgraph_simple | done].
    + intros (c & Hc & -> & Htree). split; [|by exists c].
      apply is_tree_iff; [by apply subgraph_simple | done].
  - intros t (c & _ & -> & Hconn & _)%Hspec.
    apply is_connected_spec; [by apply subgraph_simple | done].
Qed.

(** A sample graph is a built graph. *)
Ltac sample_built :=
  unfold built; simpl; split;
  [ apply (bool_decide_unpack _); vm_compute; exact I
  | repeat (constructor;
            [split_and!; [vm_compute; reflexivity | done
                          | apply (bool_decide_unpack _); vm_compute; exact I
                          | apply (bool_decide_unpack _); vm_compute; exact I]|]);
    constructor ].

(** A path of four nodes and three edges is one tree with all four nodes. Of
    two paths and a cycle, the two paths are reported, each with its own nodes
    and edges. *)
Lemma tree_detection_witness :
  built path4
  ∧ finding_tree path4
    = [UGraph ["a"; "b"; "c"; "d"] [("a", "b", 0%nat); ("c", "b", 0%nat); ("c", "d", 0%nat)]]
  ∧ (∀ t, t ∈ finding_tree path4
          ↔ ∃ c, c ∈ connected_components (to_undirected path4)
                 ∧ t = subgraph (to_undirected path4) c ∧ tree t)
  ∧ built forest_and_cycle
  ∧ connected_components (to_undirected forest_and_cycle)
    = [["a"; "b"; "c"]; ["p"; "q"]; ["x"; "y"; "z"]]
  ∧ finding_tree forest_and_cycle
    = [UGraph ["a"; "b"; "c"] [("a", "b", 0%nat); ("c", "b", 0%nat)];
       UGraph ["p"; "q"] [("p", "q", 0%nat)]]
  ∧ (∀ t, t ∈ finding_tree forest_and_cycle
          ↔ ∃ c, c ∈ connected_components (to_undirected forest_and_cycle)
                 ∧ t = subgraph (to_undirected forest_and_cycle) c ∧ tree t)
  ∧ (∀ c, c ∈ connected_components (to_undirected forest_and_cycle) →
          ∀ n, n ∈ u_nodes (subgraph (to_undirected forest_and_cycle) c) ↔ n ∈ c).
Proof.
  assert (Hpath : built path4) by sample_built.
  assert (Hforest : built forest_and_cycle) by sample_built.
  pose proof (tree_detection path4 Hpath) as (_ & _ & _ & _ & _ & _ & Hpath_trees & _).
  pose proof (tree_detection forest_and_cycle Hforest)
    as (_ & _ & _ & _ & _ & Hinduced & Htrees & _).
  split_and!; [exact Hpath | vm_compute; reflexivity | exact Hpath_trees | exact Hforest
               | vm_compute; reflexivity | vm_compute; reflexivity | exact Htrees |].
  intros c Hc. apply (Hinduced c Hc).
Defined.

(** ** The score computation as a whole *)

(** [post_processing] gets through its scores only for a document with a
    completed flow and a non-empty ranking result. *)
Lemma post_processing_needs_flows `{Centrality} (st : state) (option_ : string)
    (top_n : Z) (stats : list stat) :
  post_processing_stats st option_ top_n = Ok stats →
  data_flow_completed_arr st ≠ []
  ∧ ∀ ranking, get_network_stats (G st) option_ top_n = Some ranking → ranking ≠ [].
Proof.
  unfold post_processing_stats. intros Hrun. bind_inv Hrun.
  match goal with
  | Ht : transparency_score ?nr ?ns ?c = Ok _ |- _ =>
      destruct (derived_scores_divide nr ns c [] [] [] [] []) as (Hdiv & _);
      rewrite Hdiv in Ht
  end.
  split; [by case_decide|].
  intros ranking Hranking -> .
  match goal with
  | Hp : get_percentage (get_network_stats _ _ _) (first_party_arr st) = Ok _ |- _ =>
      rewrite Hranking in Hp; done
  end.
Qed.

(** * Further properties of the module *)

(** ** Abbreviation folding on arbitrary texts *)

Lemma findall_no_paren s : has_char "(" s = false → findall_go None s = [].
Proof.
  unfold has_char. induction s as [|c s IH]; simpl; [done|].
  intros [Hc Hs]%orb_false_iff. rewrite Hc. auto.
Qed.

(** X1 — a text without an opening parenthesis passes through the folder
    unchanged, and so does the dictionary; the call cannot fail. *)
Theorem get_abbreviation_without_parenthesis
    (text : string) (abbreviation_dict : gmap string string) :
  has_char "(" text = false →
  get_abbreviation text abbreviation_dict = Ok (text, abbreviation_dict).
Proof.
  intros Hno. unfold get_abbreviation, findall_parens. by rewrite findall_no_paren.
Qed.

Lemma get_abbreviation_without_parenthesis_witness :
  has_char "(" "email address" = false
  ∧ get_abbreviation "email address" {[ "GPS" := "global positioning system" ]}
    = Ok ("email address", {[ "GPS" := "global positioning system" ]}).
Proof.
  split; [reflexivity|].
  apply (get_abbreviation_without_parenthesis "email address"). reflexivity.
Defined.

Lemma match_single_dict text abbreviation ws st st' :
  match_single text abbreviation ws st = Ok st' →
  st'.2 = st.2 ∨ ∃ v, st'.2 = register abbreviation v st.2.
Proof.
  unfold match_single. intros Hrun. bind_inv Hrun.
  case_bool_decide; [|left; by injection Hrun as <-].
  bind_inv Hrun. injection Hrun as <-. right. eauto.
Qed.

Lemma match_multi_dict text abbreviation sub st st' :
  match_multi text abbreviation sub st = Ok st' →
  st'.2 = st.2 ∨ ∃ v, st'.2 = register abbreviation v st.2.
Proof.
  unfold match_multi. intros Hrun.
  destruct (last (Py.split sub)); [|left; by injection Hrun as <-].
  case_bool_decide; [|left; by injection Hrun as <-].
  bind_inv Hrun. injection Hrun as <-. right. eauto.
Qed.

(** X2 — whatever the text, a successful call of the folder leaves the
    dictionary as it is or registers one abbreviation that was not yet
    registered: an entry, once made, is never overwritten or removed. *)
Theorem get_abbreviation_registers_once
    (text processed : string) (abbreviation_dict dict' : gmap string string) :
  get_abbreviation text abbreviation_dict = Ok (processed, dict') →
  (dict' = abbreviation_dict
   ∨ ∃ k v, abbreviation_dict !! k = None ∧ dict' = <[k:=v]> abbreviation_dict)
  ∧ ∀ k v, abbreviation_dict !! k = Some v → dict' !! k = Some v.
Proof.
  intros Hrun.
  assert (Hreg : dict' = abbreviation_dict ∨ ∃ k v, dict' = register k v abbreviation_dict).
  { unfold get_abbreviation in Hrun.
    destruct (findall_parens text) as [|text_brackets [|??]];
      [left; by injection Hrun as _ <- | | left; by injection Hrun as _ <-].
    destruct (Py.split text_brackets) as [|abbreviation [|??]].
    - left; by injection Hrun as _ <-.
    - apply bind_Ok in Hrun as ([p1 d1] & H1 & H2).
      assert (Hd1 : d1 = abbreviation_dict ∨ ∃ v, d1 = register abbreviation v abbreviation_dict).
      { match type of H1 with (if ?b then _ else _) = _ => destruct b end;
          [by apply match_single_dict in H1 | left; by injection H1 as _ <-]. }
      assert (Hd2 : dict' = d1 ∨ ∃ v, dict' = register abbreviation v d1).
      { match type of H2 with (if ?b then _ else _) = _ => destruct b end;
          [by apply match_single_dict in H2 | left; by injection H2 as _ <-]. }
      destruct Hd1 as [-> | [v ->]], Hd2 as [-> | [v' ->]]; eauto.
      right. exists abbreviation, v. apply register_twice.
    - apply bind_Ok in Hrun as (letters & _ & Hrun).
      apply bind_Ok in Hrun as ([p1 d1] & H1 & H2).
      apply match_multi_dict in H1, H2. simpl in *.
      destruct H1 as [-> | [v ->]], H2 as [-> | [v' ->]]; eauto.
      right. exists letters, v. apply register_twice. }
  split.
  - destruct Hreg as [-> | (k & v & ->)]; [by left|].
    unfold register. destruct (abbreviation_dict !! k) eqn:Hk; [by left | right; eauto].
  - intros k v Hk. destruct Hreg as [-> | (k' & v' & ->)]; [done|].
    by apply register_keeps.
Qed.

Lemma get_abbreviation_registers_once_witness :
  get_abbreviation "Global Positioning System (GPS) data"
    {[ "GPS" := "general problem solver" ]}
  = Ok ("Global Positioning System  data", {[ "GPS" := "general problem solver" ]})
  ∧ ∀ k v, ({[ "GPS" := "general problem solver" ]} : gmap string string) !! k = Some v →
           ({[ "GPS" := "general problem solver" ]} : gmap string string) !! k = Some v.
Proof.
  assert (Hrun : get_abbreviation "Global Positioning System (GPS) data"
                   {[ "GPS" := "general problem solver" ]}
                 = Ok ("Global Positioning System  data",
                       {[ "GPS" := "general problem solver" ]})).
  { vm_compute. reflexivity. }
  split; [exact Hrun|].
  exact (proj2 (get_abbreviation_registers_once _ _ _ _ Hrun)).
Defined.

(** ** [remove_spaces] *)

(** X3 — [remove_spaces] fails with [IndexError] on the empty string. On
    any other text it drops a single leading space and nothing else: further
    leading spaces and all trailing spaces stay, except that a text of
    exactly two spaces becomes empty. *)
Theorem remove_spaces_behaviour :
  remove_spaces EmptyString = Raise IndexError
  ∧ ∀ c s,
      remove_spaces (String c s)
      = Ok (if bool_decide (c = " "%char)
            then (if bool_decide (s = " ") then EmptyString else s)
            else String c s).
Proof.
  split; [done|]. intros c s. unfold remove_spaces. simpl.
  rewrite slice_from_one. destruct (decide (c = " "%char)) as [-> | Hc].
  - rewrite !(bool_decide_eq_true_2 (" "%char = " "%char)) by done.
    destruct (decide (s = " ")) as [-> | Hs]; [done|].
    by rewrite !(bool_decide_eq_false_2 (s = " ")).
  - rewrite !(bool_decide_eq_false_2 (c = " "%char)) by done.
    rewrite bool_decide_eq_false_2; [done|]. by intros [= -> _].
Qed.

(** ** Decoding a column *)


Example load_json_data_list :
  load_json_data (H := Sample.collaborators) "[1, 2]" = Raise AttributeError.
Proof. vm_compute. reflexivity. Qed.

(** ** The builder: rows that end the run *)

Section FlowColumn.
Context `{Collaborators}.
Variable main_party : string.
Variable text_dictrionary : list (string * string).
Variable purpose_color_map : list (string * string).

Local Abbreviation step := (process_row main_party text_dictrionary purpose_color_map).
Local Abbreviation build :=
  (get_data_flow_graph_revised main_party text_dictrionary purpose_color_map).



End FlowColumn.


(** ** The builder: registries, category map, graph *)

Lemma append_new_NoDup x (l : list string) : NoDup l → NoDup (append_new x l).
Proof.
  intros Hl. unfold append_new. case_bool_decide as Hx; [done|].
  apply NoDup_app. split_and!; [done | | apply NoDup_singleton].
  by intros y Hy ->%list_elem_of_singleton.
Qed.

Lemma append_new_Forall (P : string → Prop) x (l : list string) :
  P x → Forall P l → Forall P (append_new x l).
Proof.
  intros Hx Hl. unfold append_new. case_bool_decide; [done|].
  apply Forall_app. split; [done | by apply Forall_singleton].
Qed.

Lemma append_new_length x (l : list string) :
  (length l ≤ length (append_new x l) ≤ S (length l))%nat.
Proof.
  unfold append_new. case_bool_decide; [lia|]. rewrite length_app. simpl. lia.
Qed.

Lemma get_entity_property_sorted `{Collaborators}
    entity party_category main_party first third user color first' third' user' :
  get_entity_property entity party_category main_party first third user
  = (color, first', third', user') →
  registries_sorted main_party first third user →
  registries_sorted main_party first' third' user'.
Proof.
  unfold get_entity_property. intros Hrun (Nf & Nt & Nu & Ff & Ft & Fu).
  case_bool_decide as Hne; [|by injection Hrun as _ <- <- <-].
  destruct (0 <=? Py.find main_party (Py.lower entity)) eqn:Hmain.
  { injection Hrun as _ <- <- <-. split_and!; try done; [by apply append_new_NoDup|].
    apply append_new_Forall; [|done]. split; [done|].
    unfold is_first_party. by rewrite Hmain. }
  destruct (rectify_collection_party (Py.lower entity)) eqn:Hrect.
  { injection Hrun as _ <- <- <-. split_and!; try done; [by apply append_new_NoDup|].
    apply append_new_Forall; [|done]. split; [done|].
    unfold is_first_party. by rewrite Hmain, Hrect. }
  assert (Hfirst : is_first_party main_party (Py.lower entity) = false).
  { unfold is_first_party. by rewrite Hmain, Hrect. }
  destruct (Py.startswith "you" _ || Py.startswith "user" _ || Py.startswith "customer" _)
    eqn:Huser.
  { injection Hrun as _ <- <- <-. split_and!; try done; [by apply append_new_NoDup|].
    by apply append_new_Forall. }
  destruct (eq_str party_category "Unspecified" && _);
    injection Hrun as _ <- <- <-; [done|].
  split_and!; try done; [by apply append_new_NoDup|].
  by apply append_new_Forall.
Qed.

Section BuilderFacts.
Context `{Collaborators}.
Variable main_party : string.
Variable text_dictrionary : list (string * string).
Variable purpose_color_map : list (string * string).

Local Abbreviation step := (process_row main_party text_dictrionary purpose_color_map).
Local Abbreviation build :=
  (get_data_flow_graph_revised main_party text_dictrionary purpose_color_map).

(** The registries after an accepted record: sender and receiver classified
    in turn. *)
Lemma accept_registries raw_idx raw_text cat d t s r st st' :
  accept main_party purpose_color_map raw_idx raw_text cat d t s r st = Ok st' →
  ∃ party c1 c2 first third user,
    get_entity_property s party main_party
      (first_party_arr st) (third_party_arr st) (user_party_arr st)
    = (c1, first, third, user)
    ∧ get_entity_property r party main_party first third user
      = (c2, first_party_arr st', third_party_arr st', user_party_arr st').
Proof.
  unfold accept. intros Hrun.
  apply bind_Ok in Hrun as (party & _ & Hrun).
  apply bind_Ok in Hrun as (purpose & _ & Hrun).
  apply bind_Ok in Hrun as (method & _ & Hrun).
  destruct (get_entity_property s party _ _ _ _) as [[[c1 f1] t1] u1] eqn:E1.
  destruct (get_entity_property r party _ _ _ _) as [[[c2 f2] t2] u2] eqn:E2.
  injection Hrun as <-. simpl. simpl in E1. eexists _, _, _, _, _, _.
  split; [exact E1 | exact E2].
Qed.

Lemma step_registries_sorted st row st' :
  registries_sorted main_party (first_party_arr st) (third_party_arr st) (user_party_arr st) →
  step st row = Ok st' →
  registries_sorted main_party (first_party_arr st') (third_party_arr st') (user_party_arr st').
Proof.
  intros Hst Hstep.
  apply process_row_inv in Hstep
    as (raw_idx & raw_text & data_type & d & cat & t & s & r & abbr
        & _ & _ & _ & _ & [[_ Hacc] | [_ ->]]); [|done].
  apply accept_registries in Hacc as (party & c1 & c2 & f & th & u & E1 & E2). simpl in E1.
  eapply get_entity_property_sorted; [exact E2|].
  eapply get_entity_property_sorted; [exact E1 | done].
Qed.

Lemma build_registries_sorted (rows : list (list string)) (st : state) :
  build rows = Ok st →
  registries_sorted main_party (first_party_arr st) (third_party_arr st) (user_party_arr st).
Proof.
  apply (foldM_invariant
           (fun st => registries_sorted main_party (first_party_arr st)
                        (third_party_arr st) (user_party_arr st))).
  - intros b a b' Hb Hstep. by eapply step_registries_sorted.
  - split_and!; constructor.
Qed.

Lemma party_registries_sorted (rows : list (list string)) (st : state) :
  build rows = Ok st →
  first_party_arr st ## third_party_arr st
  ∧ first_party_arr st ## user_party_arr st
  ∧ third_party_arr st ## user_party_arr st.
Proof.
  intros Hrun. destruct (build_registries_sorted _ _ Hrun) as (_ & _ & _ & Ff & Ft & Fu).
  rewrite Forall_forall in Ff, Ft, Fu. split_and!.
  - intros e (_ & ?)%Ff (_ & ? & _)%Ft. congruence.
  - intros e (_ & ?)%Ff (_ & ? & _)%Fu. congruence.
  - intros e (_ & _ & ?)%Ft (_ & _ & ?)%Fu. congruence.
Qed.

(** X6 — the three party registries the builder returns hold no entity
    twice and no empty entity, and they are pairwise disjoint: an entity is
    first party when it contains the main party's name or is a first-party
    phrase, else user party when its head starts with you, user or customer,
    else third party, and it is registered under that class only. *)
Theorem party_registries_disjoint (rows : list (list string)) (st : state) :
  build rows = Ok st →
  registries_sorted main_party (first_party_arr st) (third_party_arr st) (user_party_arr st)
  ∧ first_party_arr st ## third_party_arr st
  ∧ first_party_arr st ## user_party_arr st
  ∧ third_party_arr st ## user_party_arr st.
Proof.
  intros Hrun.
  split; [by apply (build_registries_sorted rows) | by apply (party_registries_sorted rows)].
Qed.

Lemma record_flow_registered s t r st :
  valid_triple s t r = true →
  let st' := record_flow s t r st in
  NoDup (data_flow_completed_arr st) → NoDup (data_flow_no_sender_arr st) →
  NoDup (data_flow_no_receiver_arr st) →
  NoDup (data_flow_completed_arr st') ∧ NoDup (data_flow_no_sender_arr st')
  ∧ NoDup (data_flow_no_receiver_arr st')
  ∧ data_flow_completed_arr st ⊆ data_flow_completed_arr st'
  ∧ data_flow_no_sender_arr st ⊆ data_flow_no_sender_arr st'
  ∧ data_flow_no_receiver_arr st ⊆ data_flow_no_receiver_arr st'
  ∧ (s ≠ EmptyString → r ≠ EmptyString → flow_key s t r ∈ data_flow_completed_arr st')
  ∧ (s = EmptyString → flow_key s t r ∈ data_flow_no_sender_arr st')
  ∧ (r = EmptyString → flow_key s t r ∈ data_flow_no_receiver_arr st')
  ∧ (length (data_flow_completed_arr st') + length (data_flow_no_sender_arr st')
     + length (data_flow_no_receiver_arr st')
     ≤ S (length (data_flow_completed_arr st) + length (data_flow_no_sender_arr st)
          + length (data_flow_no_receiver_arr st)))%nat.
Proof.
  intros (_ & _ & Hsr)%valid_triple_distinct st' Nc Ns Nr. subst st'.
  unfold record_flow. simpl.
  pose proof (append_new_length (flow_key s t r) (data_flow_completed_arr st)).
  pose proof (append_new_length (flow_key s t r) (data_flow_no_sender_arr st)).
  pose proof (append_new_length (flow_key s t r) (data_flow_no_receiver_arr st)).
  assert (Hsub : ∀ l : list string, l ⊆ append_new (flow_key s t r) l).
  { intros l x Hx. apply elem_of_append_new. by left. }
  assert (Hin : ∀ l : list string, flow_key s t r ∈ append_new (flow_key s t r) l).
  { intros l. apply elem_of_append_new. by right. }
  destruct (decide (s = EmptyString)) as [-> | Hs], (decide (r = EmptyString)) as [-> | Hr];
    [done | | |];
    rewrite ?(bool_decide_eq_true_2 (EmptyString = EmptyString)) by done;
    rewrite ?(bool_decide_eq_false_2 (EmptyString ≠ EmptyString)) by (by intros ?);
    rewrite ?(bool_decide_eq_true_2 (s ≠ EmptyString)) by done;
    rewrite ?(bool_decide_eq_true_2 (r ≠ EmptyString)) by done;
    rewrite ?(bool_decide_eq_false_2 (s = EmptyString)) by done;
    rewrite ?(bool_decide_eq_false_2 (r = EmptyString)) by done;
    simpl; split_and!; try done; auto using append_new_NoDup; try lia.
Qed.

Lemma step_flows_registered st row st' :
  (NoDup (data_flow_completed_arr st) ∧ NoDup (data_flow_no_sender_arr st)
   ∧ NoDup (data_flow_no_receiver_arr st)
   ∧ Forall (registered st) (data_output_arr st)
   ∧ (length (data_flow_completed_arr st) + length (data_flow_no_sender_arr st)
      + length (data_flow_no_receiver_arr st) ≤ length (data_output_arr st))%nat) →
  step st row = Ok st' →
  NoDup (data_flow_completed_arr st') ∧ NoDup (data_flow_no_sender_arr st')
  ∧ NoDup (data_flow_no_receiver_arr st')
  ∧ Forall (registered st') (data_output_arr st')
  ∧ (length (data_flow_completed_arr st') + length (data_flow_no_sender_arr st')
     + length (data_flow_no_receiver_arr st') ≤ length (data_output_arr st'))%nat.
Proof.
  intros (Nc & Ns & Nr & Hreg & Hlen) Hstep.
  apply process_row_inv in Hstep
    as (raw_idx & raw_text & data_type & d & cat & t & s & r & abbr
        & _ & _ & _ & _ & [[Hvalid Hacc] | [_ ->]]); [|done].
  apply accept_inv in Hacc
    as (sc & rc & a & out & _ & _ & _ & Hout & Hs & Ht & Hr & _ & _ & Ec & Es & Er & _).
  match type of Ec with
  | _ = data_flow_completed_arr (record_flow s t r ?st1) =>
      destruct (record_flow_registered s t r st1 Hvalid Nc Ns Nr)
        as (Nc' & Ns' & Nr' & Sc & Ss & Sr & Kc & Ks & Kr & Hlen')
  end.
  simpl in *. rewrite Ec, Es, Er, Hout. split_and!; [done | done | done | |].
  - apply Forall_app. split.
    + eapply Forall_impl; [exact Hreg|]. intros o (Hc & Hs' & Hr').
      unfold registered. rewrite Ec, Es, Er. split_and!; auto.
    + apply Forall_singleton. unfold registered, key_of.
      rewrite Ec, Es, Er, Hs, Ht, Hr. done.
  - rewrite length_app. simpl. lia.
Qed.

(** X7 — none of the three flow registries holds a key twice; the key of
    every row of the output is registered, in [completed] when sender and
    receiver are both given, in [no_sender] or [no_receiver] when one is
    empty; and the registries together hold at most as many keys as there
    are output rows. *)
Theorem flows_registered (rows : list (list string)) (st : state) :
  build rows = Ok st →
  NoDup (data_flow_completed_arr st) ∧ NoDup (data_flow_no_sender_arr st)
  ∧ NoDup (data_flow_no_receiver_arr st)
  ∧ Forall (registered st) (data_output_arr st)
  ∧ (length (data_flow_completed_arr st) + length (data_flow_no_sender_arr st)
     + length (data_flow_no_receiver_arr st) ≤ length (data_output_arr st))%nat.
Proof.
  apply (foldM_invariant
           (fun st => NoDup (data_flow_completed_arr st) ∧ NoDup (data_flow_no_sender_arr st)
                      ∧ NoDup (data_flow_no_receiver_arr st)
                      ∧ Forall (registered st) (data_output_arr st)
                      ∧ (length (data_flow_completed_arr st)
                         + length (data_flow_no_sender_arr st)
                         + length (data_flow_no_receiver_arr st)
                         ≤ length (data_output_arr st))%nat)).
  - intros b a b' Hb Hstep. by eapply step_flows_registered.
  - simpl. split_and!; try constructor.
Qed.

End BuilderFacts.

Lemma party_registries_disjoint_witness :
  Doc.run Doc.two_flows = Ok Run.two_flows
  ∧ first_party_arr Run.two_flows = ["audi"]
  ∧ third_party_arr Run.two_flows = ["insurer"; "our dealer"]
  ∧ first_party_arr Run.two_flows ## third_party_arr Run.two_flows.
Proof.
  split_and!; [vm_compute; reflexivity | vm_compute; reflexivity | vm_compute; reflexivity |].
  apply (party_registries_disjoint (H := Sample.collaborators) Doc.main_party
           Doc.text_dictrionary Doc.purpose_color_map Doc.two_flows).
  vm_compute; reflexivity.
Defined.

Lemma flows_registered_witness :
  Doc.run Doc.two_flows = Ok Run.two_flows
  ∧ NoDup (data_flow_completed_arr Run.two_flows)
  ∧ Forall (registered Run.two_flows) (data_output_arr Run.two_flows).
Proof.
  split; [vm_compute; reflexivity|].
  destruct (flows_registered (H := Sample.collaborators) Doc.main_party
              Doc.text_dictrionary Doc.purpose_color_map Doc.two_flows Run.two_flows)
    as (Hc & _ & _ & Hreg & _); [vm_compute; reflexivity | done].
Defined.

(** ** The category map *)

Lemma assoc_elem_of {A} k (l : list (string * A)) :
  k ∈ l.*1 ↔ is_Some (assoc k l).
Proof.
  induction l as [|[k' v'] l IH]; simpl.
  - split; [by intros ?%elem_of_nil | by intros [? ?]].
  - rewrite elem_of_cons, IH. case_decide as Hk; [|tauto].
    split; [by eexists | by left].
Qed.

Lemma assoc_app_Some {A} k (v : A) (l l' : list (string * A)) :
  assoc k l = Some v → assoc k (l ++ l') = Some v.
Proof.
  induction l as [|[k' v'] l IH]; simpl; [done|]. case_decide; auto.
Qed.

Lemma set_default_keeps k v (d : list (string * json)) :
  NoDup d.*1 →
  NoDup (set_default k v d).*1 ∧ d `prefix_of` set_default k v d.
Proof.
  intros Hd. unfold set_default. destruct (assoc k d) as [w|] eqn:Hk; [done|].
  split; [|by apply prefix_app_r]. rewrite fmap_app. simpl.
  apply NoDup_app. split_and!; [done | | apply NoDup_singleton].
  intros x Hx ->%list_elem_of_singleton.
  apply assoc_elem_of in Hx as [w Hw]. congruence.
Qed.

Section CategoryMap.
Context `{Collaborators}.
Variable main_party : string.
Variable text_dictrionary : list (string * string).
Variable purpose_color_map : list (string * string).

Local Abbreviation step := (process_row main_party text_dictrionary purpose_color_map).
Local Abbreviation build :=
  (get_data_flow_graph_revised main_party text_dictrionary purpose_color_map).

Lemma step_category_kept st row st' :
  step st row = Ok st' → NoDup (data_category_dic st).*1 →
  NoDup (data_category_dic st').*1
  ∧ data_category_dic st `prefix_of` data_category_dic st'.
Proof.
  intros Hstep Hd.
  apply process_row_inv in Hstep
    as (raw_idx & raw_text & data_type & d & cat & t & s & r & abbr
        & _ & _ & _ & _ & [[_ Hacc] | [_ ->]]).
  - apply accept_inv in Hacc as (sc & rc & a & out & _ & _ & _ & _ & _ & _ & _ & _ & -> & _).
    simpl. by apply set_default_keeps.
  - simpl. by apply set_default_keeps.
Qed.

Lemma build_category_kept rows st st' :
  foldM step st rows = Ok st' → NoDup (data_category_dic st).*1 →
  NoDup (data_category_dic st').*1
  ∧ data_category_dic st `prefix_of` data_category_dic st'.
Proof.
  revert st. induction rows as [|row rows IH]; intros st Hrun Hd; simpl in Hrun.
  - by injection Hrun as <-.
  - apply bind_Ok in Hrun as (st1 & Hstep & Hrun).
    destruct (step_category_kept _ _ _ Hstep Hd) as [Hd1 Hp1].
    destruct (IH _ Hrun Hd1) as [Hd2 Hp2].
    split; [done | by etrans].
Qed.

(** X8 — the category map lists every data type once, in the order the
    data types were first read, and the category a data type was given by
    its first record stays: the map of a longer input begins with the map of
    the shorter one, so a later record with the same raw data type and
    another category changes nothing. *)
Theorem category_of_first_record_kept (rows later : list (list string)) (st st' : state) :
  build rows = Ok st → build (rows ++ later) = Ok st' →
  NoDup (data_category_dic st').*1
  ∧ data_category_dic st `prefix_of` data_category_dic st'
  ∧ ∀ k v, assoc k (data_category_dic st) = Some v →
           assoc k (data_category_dic st') = Some v.
Proof.
  intros Hrun Hrun'. unfold get_data_flow_graph_revised in *.
  rewrite foldM_app, Hrun in Hrun'. simpl in Hrun'.
  destruct (build_category_kept _ _ _ Hrun) as [Hd _]; [constructor|].
  destruct (build_category_kept _ _ _ Hrun' Hd) as [Hd' [new Hnew]].
  split_and!; [done | by exists new |].
  intros k v Hk. rewrite Hnew. by apply assoc_app_Some.
Qed.

End CategoryMap.

Lemma category_of_first_record_kept_witness :
  Doc.run (take 1 Doc.two_flows) = Ok Run.first_flow
  ∧ Doc.run (take 1 Doc.two_flows ++ drop 1 Doc.two_flows) = Ok Run.two_flows
  ∧ data_category_dic Run.first_flow `prefix_of` data_category_dic Run.two_flows.
Proof.
  split_and!; [vm_compute; reflexivity | vm_compute; reflexivity |].
  destruct (category_of_first_record_kept (H := Sample.collaborators) Doc.main_party
              Doc.text_dictrionary Doc.purpose_color_map
              (take 1 Doc.two_flows) (drop 1 Doc.two_flows) Run.first_flow Run.two_flows)
    as (_ & Hp & _); [vm_compute; reflexivity | vm_compute; reflexivity | done].
Defined.

(** ** Nodes and edges of the graph *)

Lemma has_node_spec g n : has_node g n = true ↔ n ∈ (nodes g).*1.
Proof. unfold has_node. by rewrite bool_decide_eq_true. Qed.

Lemma has_edge_spec g u v :
  has_edge g u v = true ↔ ∃ e, e ∈ edges g ∧ e_src e = u ∧ e_dst e = v.
Proof.
  unfold has_edge. rewrite existsb_exists. split.
  - intros (e & He%list_elem_of_In & Hon%on_pair_true). eauto.
  - intros (e & He%list_elem_of_In & Hon). exists e. by rewrite on_pair_true.
Qed.

Lemma has_node_add_node g n a m :
  has_node (add_node g n a) m = true ↔ has_node g m = true ∨ m = n.
Proof. rewrite !has_node_spec. simpl. apply update_node_names. Qed.

Lemma has_edge_add_node g n a u v : has_edge (add_node g n a) u v = has_edge g u v.
Proof. done. Qed.

Lemma has_node_add_edge g u v a m :
  has_node (add_edge g u v a) m = true ↔ has_node g m = true ∨ m = u ∨ m = v.
Proof. rewrite !has_node_spec. simpl. rewrite !update_node_names. tauto. Qed.

Lemma has_edge_add_edge g u v a u' v' :
  has_edge (add_edge g u v a) u' v' = true
  ↔ has_edge g u' v' = true ∨ (u' = u ∧ v' = v).
Proof.
  unfold has_edge, add_edge. simpl. rewrite existsb_app, orb_true_iff. simpl.
  rewrite orb_false_r, on_pair_true. simpl. intuition congruence.
Qed.

Lemma built_has_edge g u v :
  built g → has_edge g u v = true → has_node g u = true ∧ has_node g v = true.
Proof.
  intros [_ Hg] (e & He & <- & <-)%has_edge_spec. rewrite !has_node_spec.
  rewrite Forall_forall in Hg. destruct (Hg e He) as (_ & _ & ? & ?). done.
Qed.

(** What [add_flow] leaves in the graph. *)
Lemma add_flow_draws g s t r sc rc a :
  built g →
  (∀ n, has_node (add_flow g s t r sc rc a) n = true
        ↔ has_node g n = true ∨ n = s ∨ n = t ∨ n = r)
  ∧ (∀ u v, has_edge (add_flow g s t r sc rc a) u v = true
            ↔ has_edge g u v = true ∨ (u = s ∧ v = t) ∨ (u = t ∧ v = r)).
Proof.
  intros Hg. unfold add_flow.
  set (g1 := if has_node g s then g else _).
  assert (B1 : built g1) by (subst g1; case_match; [done | by apply add_node_built]).
  assert (N1 : ∀ n, has_node g1 n = true ↔ has_node g n = true ∨ n = s).
  { intros n. subst g1. destruct (has_node g s) eqn:E; [|apply has_node_add_node].
    split; [by left | intros [?| ->]; done]. }
  assert (E1 : ∀ u v, has_edge g1 u v = has_edge g u v).
  { intros u v. subst g1. by case_match. }
  set (g2 := if negb (has_node g1 t) && _ then _ else g1).
  assert (B2 : built g2) by (subst g2; case_match; [by apply add_node_built | done]).
  assert (N2 : ∀ n, (has_node g1 n = true → has_node g2 n = true)
                    ∧ (has_node g2 n = true → has_node g1 n = true ∨ n = t)).
  { intros n. subst g2. case_match; [|tauto]. rewrite has_node_add_node. tauto. }
  assert (E2 : ∀ u v, has_edge g2 u v = has_edge g1 u v).
  { intros u v. subst g2. by case_match. }
  set (g3 := if has_node g2 r then g2 else _).
  assert (B3 : built g3) by (subst g3; case_match; [done | by apply add_node_built]).
  assert (N3 : ∀ n, has_node g3 n = true ↔ has_node g2 n = true ∨ n = r).
  { intros n. subst g3. destruct (has_node g2 r) eqn:E; [|apply has_node_add_node].
    split; [by left | intros [?| ->]; done]. }
  assert (E3 : ∀ u v, has_edge g3 u v = has_edge g2 u v).
  { intros u v. subst g3. by case_match. }
  set (g4 := if has_edge g3 s t then g3 else _).
  assert (N4 : ∀ n, has_node g4 n = true ↔ has_node g3 n = true ∨ n = s ∨ n = t).
  { intros n. subst g4. destruct (has_edge g3 s t) eqn:E; [|apply has_node_add_edge].
    destruct (built_has_edge _ _ _ B3 E) as [Hs Ht].
    split; [by left | intros [?| [-> | ->]]; done]. }
  assert (E4 : ∀ u v, has_edge g4 u v = true ↔ has_edge g3 u v = true ∨ (u = s ∧ v = t)).
  { intros u v. subst g4. destruct (has_edge g3 s t) eqn:E; [|apply has_edge_add_edge].
    split; [by left | intros [?| [-> ->]]; done]. }
  assert (S3 : has_node g3 s = true).
  { apply N3. left. apply N2. apply N1. by right. }
  assert (R3 : has_node g3 r = true) by (apply N3; by right).
  split.
  - intros n.
    pose proof (N1 n) as A1. destruct (N2 n) as [A2 A2'].
    pose proof (N3 n) as A3. pose proof (N4 n) as A4.
    assert (Hold : has_node g4 n = true ↔ has_node g n = true ∨ n = s ∨ n = t ∨ n = r).
    { rewrite A4, A3. tauto. }
    destruct (has_edge g4 t r) eqn:E; [done|].
    rewrite has_node_add_edge, Hold. tauto.
  - intros u v. destruct (has_edge g4 t r) eqn:E.
    + rewrite E4, E3, E2, E1. split; [tauto|].
      intros [? | [? | [-> ->]]]; [tauto | tauto |].
      apply E4 in E. by rewrite E3, E2, E1 in E.
    + rewrite has_edge_add_edge, E4, E3, E2, E1. tauto.
Qed.

Lemma update_node_prefix n a ns :
  a = no_attr ∨ n ∉ ns.*1 → ns `prefix_of` update_node n a ns.
Proof.
  intros Hcase. induction ns as [|[k b] ns IH]; simpl; [by apply prefix_nil|].
  case_decide as Hk.
  - subst k. destruct Hcase as [-> | Hn].
    + by destruct b as [[?|] [?|] [?|] [?|]].
    + exfalso. apply Hn. simpl. apply elem_of_cons. by left.
  - apply prefix_cons. apply IH. destruct Hcase as [? | Hn]; [by left | right].
    intros Hin. apply Hn. simpl. apply elem_of_cons. by right.
Qed.

Lemma add_node_prefix g n a :
  has_node g n = false → nodes g `prefix_of` nodes (add_node g n a).
Proof.
  intros Hn. simpl. apply update_node_prefix. right.
  intros Hin%has_node_spec. congruence.
Qed.

Lemma add_edge_prefix g u v a : nodes g `prefix_of` nodes (add_edge g u v a).
Proof.
  simpl. etrans; apply update_node_prefix; by left.
Qed.

Lemma add_flow_nodes_prefix g s t r sc rc a :
  nodes g `prefix_of` nodes (add_flow g s t r sc rc a).
Proof.
  unfold add_flow.
  set (g1 := if has_node g s then g else _).
  assert (P1 : nodes g `prefix_of` nodes g1).
  { subst g1. destruct (has_node g s) eqn:E; [done | by apply add_node_prefix]. }
  set (g2 := if negb (has_node g1 t) && _ then _ else g1).
  assert (P2 : nodes g1 `prefix_of` nodes g2).
  { subst g2. destruct (has_node g1 t) eqn:E; simpl; [done|].
    case_match; [by apply add_node_prefix | done]. }
  set (g3 := if has_node g2 r then g2 else _).
  assert (P3 : nodes g2 `prefix_of` nodes g3).
  { subst g3. destruct (has_node g2 r) eqn:E; [done | by apply add_node_prefix]. }
  set (g4 := if has_edge g3 s t then g3 else _).
  assert (P4 : nodes g3 `prefix_of` nodes g4).
  { subst g4. case_match; [done | apply add_edge_prefix]. }
  assert (P5 : nodes g4 `prefix_of` nodes (if has_edge g4 t r then g4 else add_edge g4 t r a)).
  { case_match; [done | apply add_edge_prefix]. }
  repeat (etrans; [eassumption|]). done.
Qed.

Section GraphAndRows.
Context `{Collaborators}.
Variable main_party : string.
Variable text_dictrionary : list (string * string).
Variable purpose_color_map : list (string * string).

Local Abbreviation step := (process_row main_party text_dictrionary purpose_color_map).
Local Abbreviation build :=
  (get_data_flow_graph_revised main_party text_dictrionary purpose_color_map).

Lemma step_draws st row st' :
  built (G st) ∧ draws (G st) (data_output_arr st) →
  step st row = Ok st' →
  built (G st') ∧ draws (G st') (data_output_arr st').
Proof.
  intros [Hb [Hn He]] Hstep.
  apply process_row_inv in Hstep
    as (raw_idx & raw_text & data_type & d & cat & t & s & r & abbr
        & _ & _ & _ & _ & [[Hvalid Hacc] | [_ ->]]); [|done].
  apply accept_inv in Hacc as (sc & rc & a & out & -> & _ & _ & -> & Hs & Ht & Hr & _).
  simpl in *. apply valid_triple_distinct in Hvalid as (? & ? & ?).
  split; [by apply add_flow_built|].
  destruct (add_flow_draws (G st) s t r sc rc a Hb) as [Hn' He']. split.
  - intros n. rewrite Hn', Hn. split.
    + intros [(o & Ho & Hon) | Hnew].
      * exists o. split; [apply elem_of_app; by left | done].
      * exists out. split; [apply elem_of_app; right; by apply list_elem_of_singleton|].
        unfold node_of_row. rewrite Hs, Ht, Hr. done.
    + intros (o & [Ho | ->%list_elem_of_singleton]%elem_of_app & Hon).
      * left. eauto.
      * right. unfold node_of_row in Hon. by rewrite Hs, Ht, Hr in Hon.
  - intros u v. rewrite He', He. split.
    + intros [(o & Ho & Hon) | Hnew].
      * exists o. split; [apply elem_of_app; by left | done].
      * exists out. split; [apply elem_of_app; right; by apply list_elem_of_singleton|].
        unfold pair_of_row. rewrite Hs, Ht, Hr. done.
    + intros (o & [Ho | ->%list_elem_of_singleton]%elem_of_app & Hon).
      * left. eauto.
      * right. unfold pair_of_row in Hon. by rewrite Hs, Ht, Hr in Hon.
Qed.

(** X9 — the graph the builder returns draws the output rows and nothing
    else: a name is a node exactly when it is the sender, the data type or
    the receiver of some output row (an empty sender, receiver or data type
    included), and a pair of nodes is joined exactly when it is the
    (sender, data type) or the (data type, receiver) pair of some output
    row. *)
Theorem graph_draws_output_rows (rows : list (list string)) (st : state) :
  build rows = Ok st → draws (G st) (data_output_arr st).
Proof.
  intros Hrun.
  cut (built (G st) ∧ draws (G st) (data_output_arr st)); [tauto|].
  revert Hrun. apply (foldM_invariant
                        (fun st => built (G st) ∧ draws (G st) (data_output_arr st))).
  - intros b a b' Hb Hstep. by eapply step_draws.
  - simpl. split; [split; constructor|]. split.
    + intros n. split; [done | by intros (o & ?%elem_of_nil & _)].
    + intros u v. split; [done | by intros (o & ?%elem_of_nil & _)].
Qed.

Lemma step_nodes_grow st row st' :
  step st row = Ok st' → nodes (G st) `prefix_of` nodes (G st').
Proof.
  intros Hstep.
  apply process_row_inv in Hstep
    as (raw_idx & raw_text & data_type & d & cat & t & s & r & abbr
        & _ & _ & _ & _ & [[Hvalid Hacc] | [_ ->]]); [|done].
  apply accept_inv in Hacc as (sc & rc & a & out & -> & _). simpl.
  apply add_flow_nodes_prefix.
Qed.

Lemma build_nodes_grow rows st st' :
  foldM step st rows = Ok st' → nodes (G st) `prefix_of` nodes (G st').
Proof.
  revert st. induction rows as [|row rows IH]; intros st Hrun; simpl in Hrun.
  - by injection Hrun as <-.
  - apply bind_Ok in Hrun as (st1 & Hstep & Hrun).
    etrans; [by eapply step_nodes_grow | by apply IH].
Qed.

(** X10 — a node keeps the attributes (colour, size, title, shape) it was
    created with: the node list of a longer input begins with the node list
    of the shorter one, name for name and attribute for attribute, so a
    later record that classifies the same entity otherwise does not
    re-colour it. *)
Theorem node_attributes_of_first_record_kept (rows later : list (list string))
    (st st' : state) :
  build rows = Ok st → build (rows ++ later) = Ok st' →
  nodes (G st) `prefix_of` nodes (G st').
Proof.
  intros Hrun Hrun'. unfold get_data_flow_graph_revised in *.
  rewrite foldM_app, Hrun in Hrun'. simpl in Hrun'.
  by eapply build_nodes_grow.
Qed.

End GraphAndRows.

Lemma graph_draws_output_rows_witness :
  Doc.run Doc.two_flows = Ok Run.two_flows
  ∧ draws (G Run.two_flows) (data_output_arr Run.two_flows).
Proof.
  split; [vm_compute; reflexivity|].
  apply (graph_draws_output_rows (H := Sample.collaborators) Doc.main_party
           Doc.text_dictrionary Doc.purpose_color_map Doc.two_flows).
  vm_compute; reflexivity.
Defined.

Lemma node_attributes_of_first_record_kept_witness :
  Doc.run (take 1 Doc.two_flows) = Ok Run.first_flow
  ∧ Doc.run (take 1 Doc.two_flows ++ drop 1 Doc.two_flows) = Ok Run.two_flows
  ∧ nodes (G Run.first_flow) `prefix_of` nodes (G Run.two_flows).
Proof.
  split_and!; [vm_compute; reflexivity | vm_compute; reflexivity |].
  apply (node_attributes_of_first_record_kept (H := Sample.collaborators) Doc.main_party
           Doc.text_dictrionary Doc.purpose_color_map
           (take 1 Doc.two_flows) (drop 1 Doc.two_flows));
    vm_compute; reflexivity.
Defined.

(** ** Top-N selection in general *)

Lemma sorted_by_ascending l :
  StronglySorted (fun y z : scored => (y.2 <= z.2)%Q) (sorted_by ascending l).
Proof.
  eapply StronglySorted_ind with
    (P := StronglySorted (fun y z : scored => (y.2 <= z.2)%Q));
    [constructor | | apply (sorted_by_sorted ascending);
                     [apply ascending_total | apply ascending_trans]].
  intros y l' _ IH Hy. constructor; [done|].
  eapply Forall_impl; [exact Hy|]. intros z Hz. by apply Qle_bool_iff.
Qed.

Lemma sorted_by_descending l :
  StronglySorted (fun y z : scored => (z.2 <= y.2)%Q) (sorted_by descending l).
Proof.
  eapply StronglySorted_ind with
    (P := StronglySorted (fun y z : scored => (z.2 <= y.2)%Q));
    [constructor | | apply (sorted_by_sorted descending);
                     [apply descending_total | apply descending_trans]].
  intros y l' _ IH Hy. constructor; [done|].
  eapply Forall_impl; [exact Hy|]. intros z Hz. by apply Qle_bool_iff.
Qed.

Lemma sorted_app_inv {A} (R : A → A → Prop) (l1 l2 : list A) :
  StronglySorted R (l1 ++ l2) →
  StronglySorted R l1 ∧ ∀ x y, x ∈ l1 → y ∈ l2 → R x y.
Proof.
  induction l1 as [|a l1 IH]; simpl; intros Hs.
  - split; [constructor | by intros x y ?%elem_of_nil].
  - apply StronglySorted_inv in Hs as [Hs Ha]. destruct (IH Hs) as [H1 Hcross].
    apply Forall_app in Ha as [Ha1 Ha2]. split; [by constructor|].
    intros x y [-> | Hx]%elem_of_cons Hy; [|by apply Hcross].
    rewrite Forall_forall in Ha2. by apply Ha2.
Qed.

(** The front of a sorted list against its back. *)
Lemma take_of_sorted {A} (R : A → A → Prop) (l : list A) (n : nat) :
  StronglySorted R l →
  take n l ++ drop n l = l
  ∧ StronglySorted R (take n l)
  ∧ ∀ x y, x ∈ take n l → y ∈ drop n l → R x y.
Proof.
  intros Hl. split; [apply take_drop|].
  rewrite <- (take_drop n l) in Hl. by apply sorted_app_inv.
Qed.

(** X11 — for a positive count N the selection holds the N entries of
    highest score (all entries when there are fewer), by non-increasing
    score: no entry left out has a higher score than an entry selected. *)
Theorem process_selects_highest (input_data : list scored) (top_n : Z) :
  0 < top_n →
  ∃ rest,
    process input_data top_n ++ rest ≡ₚ input_data
    ∧ length (process input_data top_n) = Nat.min (Z.to_nat top_n) (length input_data)
    ∧ StronglySorted (fun y z : scored => (z.2 <= y.2)%Q) (process input_data top_n)
    ∧ ∀ x y, x ∈ process input_data top_n → y ∈ rest → (y.2 <= x.2)%Q.
Proof.
  intros Hn. rewrite process_positive by done.
  destruct (take_of_sorted _ _ (Z.to_nat top_n) (sorted_by_descending input_data))
    as (Happ & Hsorted & Hcross).
  exists (drop (Z.to_nat top_n) (sorted_by descending input_data)). split_and!.
  - rewrite Happ. apply sorted_by_perm.
  - by rewrite length_take, sorted_by_length.
  - done.
  - intros x y Hx Hy. by apply Hcross.
Qed.

Lemma process_selects_highest_witness :
  0 < 2
  ∧ ∃ rest, process ranking5 2 ++ rest ≡ₚ ranking5
            ∧ length (process ranking5 2) = Nat.min (Z.to_nat 2) (length ranking5)
            ∧ StronglySorted (fun y z : scored => (z.2 <= y.2)%Q) (process ranking5 2)
            ∧ ∀ x y, x ∈ process ranking5 2 → y ∈ rest → (y.2 <= x.2)%Q.
Proof. split; [lia | apply (process_selects_highest ranking5 2); lia]. Defined.

(** X12 — for a negative count N the selection is in non-decreasing order
    and leaves out the |N| entries of highest score (all entries when there
    are no more than |N|): it keeps [len - |N|] entries, none of them with a
    higher score than an entry left out. *)
Theorem process_negative_drops_highest (input_data : list scored) (top_n : Z) :
  top_n < 0 →
  ∃ rest,
    process input_data top_n ++ rest ≡ₚ input_data
    ∧ length rest = Nat.min (Z.to_nat (- top_n)) (length input_data)
    ∧ length (process input_data top_n) = (length input_data - Z.to_nat (- top_n))%nat
    ∧ StronglySorted (fun y z : scored => (y.2 <= z.2)%Q) (process input_data top_n)
    ∧ ∀ x y, x ∈ process input_data top_n → y ∈ rest → (x.2 <= y.2)%Q.
Proof.
  intros Hn. rewrite process_negative by done.
  set (k := (length input_data - Z.to_nat (- top_n))%nat).
  destruct (take_of_sorted _ _ k (sorted_by_ascending input_data))
    as (Happ & Hsorted & Hcross).
  exists (drop k (sorted_by ascending input_data)). split_and!.
  - rewrite Happ. apply sorted_by_perm.
  - rewrite length_drop, sorted_by_length. lia.
  - rewrite length_take, sorted_by_length. lia.
  - done.
  - intros x y Hx Hy. by apply Hcross.
Qed.

Lemma process_negative_drops_highest_witness :
  -2 < 0
  ∧ ∃ rest, process ranking5 (-2) ++ rest ≡ₚ ranking5
            ∧ length rest = Nat.min (Z.to_nat (- -2)) (length ranking5)
            ∧ length (process ranking5 (-2)) = (length ranking5 - Z.to_nat (- -2))%nat
            ∧ StronglySorted (fun y z : scored => (y.2 <= z.2)%Q) (process ranking5 (-2))
            ∧ ∀ x y, x ∈ process ranking5 (-2) → y ∈ rest → (x.2 <= y.2)%Q.
Proof. split; [lia | apply (process_negative_drops_highest ranking5 (-2)); lia]. Defined.

Lemma insert_by_same_score (before : Q → Q → bool) q x l :
  (∀ a b, (a == b)%Q → before a b = true) →
  filter (same_score q) (insert_by before x l)
  = if decide (same_score q x) then x :: filter (same_score q) l
    else filter (same_score q) l.
Proof.
  intros Hrefl. induction l as [|y l IH]; simpl.
  - rewrite filter_cons, filter_nil. done.
  - destruct (before x.2 y.2) eqn:Hxy.
    + by rewrite filter_cons.
    + rewrite !(filter_cons _ y), IH.
      destruct (decide (same_score q x)) as [Hx|Hx]; [|done].
      destruct (decide (same_score q y)) as [Hy|Hy]; [|done].
      unfold same_score in Hx, Hy. apply Qeq_bool_iff in Hx, Hy.
      rewrite Hrefl in Hxy; [done|]. by rewrite Hx, Hy.
Qed.

(** The sort is stable. *)
Lemma sorted_by_same_score (before : Q → Q → bool) q l :
  (∀ a b, (a == b)%Q → before a b = true) →
  filter (same_score q) (sorted_by before l) = filter (same_score q) l.
Proof.
  intros Hrefl. induction l as [|x l IH]; [done|]. simpl.
  rewrite insert_by_same_score, filter_cons, IH by done. done.
Qed.

Lemma filter_take_prefix {A} (P : A → Prop) `{∀ x, Decision (P x)} (n : nat) (l : list A) :
  filter P (take n l) `prefix_of` filter P l.
Proof.
  exists (filter P (drop n l)). by rewrite <- filter_app, take_drop.
Qed.

(** X13 — ties are broken by the order of the input: among the entries of
    one score, the selection holds those that come first in the input, in
    their input order, whatever the count. *)
Theorem process_ties_keep_input_order (input_data : list scored) (top_n : Z) (q : Q) :
  filter (same_score q) (process input_data top_n)
  `prefix_of` filter (same_score q) input_data.
Proof.
  assert (Ha : ∀ a b, (a == b)%Q → ascending a b = true).
  { intros a b Hab. apply Qle_bool_iff. rewrite Hab. apply Qle_refl. }
  assert (Hd : ∀ a b, (a == b)%Q → descending a b = true).
  { intros a b Hab. apply Qle_bool_iff. rewrite Hab. apply Qle_refl. }
  destruct (Z.lt_trichotomy top_n 0) as [Hn | [-> | Hn]].
  - rewrite process_negative by done.
    rewrite <- (sorted_by_same_score ascending q input_data) by done.
    apply filter_take_prefix.
  - rewrite process_zero. apply prefix_nil.
  - rewrite process_positive by done.
    rewrite <- (sorted_by_same_score descending q input_data) by done.
    apply filter_take_prefix.
Qed.

(** ** Ranges of the scores *)

Lemma py_div_unit a b q :
  0 ≤ a ≤ b → py_div a b = Ok q → (0 <= q <= 1)%Q.
Proof.
  intros Hab. rewrite py_div_spec. case_decide as Hb; [done|]. intros [= <-].
  assert (Hpos : Z.pos (Z.to_pos b) = b) by (apply Z2Pos.id; lia).
  split; unfold Qle; cbn [Qnum Qden]; rewrite Hpos; lia.
Qed.

Lemma count_in_le keys entity_arr : (count_in keys entity_arr ≤ length keys)%nat.
Proof. unfold count_in. apply length_filter. Qed.

(** X14 — the share of ranked nodes found in an entity list and the share
    of third parties among the registered entities are numbers between 0
    and 1. *)
Theorem shares_in_unit_interval (ranking : list scored)
    (entity_arr first third user : list string) (q : Q) :
  get_percentage (Some ranking) entity_arr = Ok (Some q)
  ∨ third_party_score first third user = Ok q →
  (0 <= q <= 1)%Q.
Proof.
  intros [Hq | Hq].
  - unfold get_percentage in Hq. apply bind_Ok in Hq as (q' & Hdiv & [= ->]).
    eapply py_div_unit; [|exact Hdiv].
    pose proof (count_in_le ranking.*1 entity_arr) as Hle.
    rewrite length_fmap in Hle. split; [lia | by apply Nat2Z.inj_le].
  - unfold third_party_score in Hq. eapply py_div_unit; [|exact Hq]. lia.
Qed.

Lemma shares_in_unit_interval_witness :
  ∃ q, third_party_score ["audi"] ["insurer"; "our dealer"] [] = Ok q ∧ (0 <= q <= 1)%Q.
Proof.
  eexists. split; [reflexivity|].
  apply (shares_in_unit_interval [] [] ["audi"] ["insurer"; "our dealer"] []).
  right. reflexivity.
Defined.

(** ** The party-to-party tally *)

Lemma split_on_go_cons sep cur c s :
  split_on_go sep cur (String c s)
  = if bool_decide (c = sep) then String.rev cur :: split_on_go sep EmptyString s
    else split_on_go sep (String c cur) s.
Proof. done. Qed.

Lemma split_on_go_nonempty sep cur s : ∃ x l, split_on_go sep cur s = x :: l.
Proof.
  revert cur. induction s as [|c s IH]; intros cur; [simpl; eauto|].
  rewrite split_on_go_cons. destruct (bool_decide (c = sep)); eauto.
Qed.

Lemma split_on_go_sep sep cur a b :
  ∃ pre x, split_on_go sep cur (a +:+ String sep b)
           = pre ++ x :: split_on_go sep EmptyString b.
Proof.
  revert cur. induction a as [|c a IH]; intros cur.
  - rewrite append_nil_l, split_on_go_cons, bool_decide_eq_true_2 by done.
    by exists [], (String.rev cur).
  - rewrite append_cons, split_on_go_cons. destruct (bool_decide (c = sep)).
    + destruct (IH EmptyString) as (pre & x & ->). by exists (String.rev cur :: pre), x.
    + apply IH.
Qed.

(** A key always splits into three pieces or more. *)
Lemma split_on_flow_key_length s t r : (3 ≤ length (split_on "#" (flow_key s t r)))%nat.
Proof.
  unfold split_on, flow_key.
  change ("#" +:+ t +:+ "#" +:+ r) with (String "#" (t +:+ String "#" r)).
  destruct (split_on_go_sep "#" EmptyString s (t +:+ String "#" r)) as (pre & x & ->).
  destruct (split_on_go_sep "#" EmptyString t r) as (pre' & y & ->).
  destruct (split_on_go_nonempty "#" EmptyString r) as (z & l & ->).
  rewrite !length_app. simpl. rewrite !length_app. simpl. lia.
Qed.

Lemma split_on_go_plain cur s :
  has_hash s = false → split_on_go "#" cur s = [String.rev_app cur s].
Proof.
  unfold has_hash. revert cur. induction s as [|c s IH]; intros cur Hs; [done|].
  simpl in Hs. apply orb_false_iff in Hs as [Hc Hs].
  rewrite split_on_go_cons, Hc. by apply IH.
Qed.

Lemma split_on_go_piece cur a b :
  has_hash a = false →
  split_on_go "#" cur (a +:+ String "#" b)
  = String.rev_app cur a :: split_on_go "#" EmptyString b.
Proof.
  unfold has_hash. revert cur. induction a as [|c a IH]; intros cur Ha.
  - by rewrite append_nil_l, split_on_go_cons, bool_decide_eq_true_2.
  - simpl in Ha. apply orb_false_iff in Ha as [Hc Ha].
    rewrite append_cons, split_on_go_cons, Hc. by apply IH.
Qed.

Lemma split_on_flow_key_plain s t r :
  has_hash s = false → has_hash t = false → has_hash r = false →
  split_on "#" (flow_key s t r) = [s; t; r].
Proof.
  intros Hs Ht Hr. unfold split_on, flow_key.
  change ("#" +:+ t +:+ "#" +:+ r) with (String "#" (t +:+ String "#" r)).
  rewrite !split_on_go_piece by done. by rewrite split_on_go_plain.
Qed.

(** X15 — splitting a key at the delimiter gives back sender, data type
    and receiver when none of them contains the delimiter; whatever they
    contain, the key splits into three pieces or more, so reading the
    pieces 0, 1 and 2 never fails. *)
Theorem split_on_flow_key (s t r : string) :
  (3 ≤ length (split_on "#" (flow_key s t r)))%nat
  ∧ (has_hash s = false → has_hash t = false → has_hash r = false →
     split_on "#" (flow_key s t r) = [s; t; r]).
Proof.
  split; [apply split_on_flow_key_length | apply split_on_flow_key_plain].
Qed.

Lemma split_on_flow_key_witness :
  split_on "#" (flow_key "audi" "email address" "insurer")
  = ["audi"; "email address"; "insurer"].
Proof. apply (split_on_flow_key "audi" "email address" "insurer"); reflexivity. Defined.

Lemma tally_flow_counts first third user t k :
  (3 ≤ length (split_on "#" k))%nat →
  ∃ t', tally_flow first third user t k = Ok t'
        ∧ (t' = t ∨ (counted t' = counted t + 1
                     ∧ length (lines t') = S (length (lines t)))).
Proof.
  intros Hlen. unfold tally_flow.
  destruct (lookup_lt_is_Some_2 (split_on "#" k) 0) as [x ->]; [lia|].
  destruct (lookup_lt_is_Some_2 (split_on "#" k) 1) as [y ->]; [lia|].
  destruct (lookup_lt_is_Some_2 (split_on "#" k) 2) as [z ->]; [lia|].
  destruct t as [c1 c2 c3 c4 c5 c6 c7 ls]. eexists. split; [done|].
  repeat match goal with
         | |- context [if ?b then _ else _] => destruct b
         end;
    first [ by left
          | right; unfold counted; simpl; rewrite length_app; simpl; split; lia ].
Qed.

Lemma tally_counts first third user keys t :
  Forall (fun k => (3 ≤ length (split_on "#" k))%nat) keys →
  ∃ t', foldM (tally_flow first third user) t keys = Ok t'
        ∧ counted t ≤ counted t' ≤ counted t + Z.of_nat (length keys)
        ∧ counted t' - counted t
          = Z.of_nat (length (lines t')) - Z.of_nat (length (lines t)).
Proof.
  intros Hkeys. revert t. induction Hkeys as [|k keys Hk _ IH]; intros t; simpl.
  - exists t. split; [done | lia].
  - destruct (tally_flow_counts first third user t k Hk) as (t1 & -> & Hcase). simpl.
    destruct (IH t1) as (t' & -> & Hle & Hlines). exists t'. split; [done|].
    destruct Hcase as [-> | [Hc Hl]]; lia.
Qed.

Lemma mapM_py_div (cs : list Z) (b : Z) :
  mapM (fun c => py_div c b) cs
  = if decide (b = 0 ∧ cs ≠ []) then Raise ZeroDivisionError
    else Ok ((fun c => c # Z.to_pos b)%Q <$> cs).
Proof.
  induction cs as [|c cs IH]; simpl.
  - case_decide as Hb; [by destruct Hb | done].
  - rewrite py_div_spec. destruct (decide (b = 0)) as [Hb | Hb]; simpl.
    + by rewrite decide_True.
    + rewrite IH. rewrite !decide_False by (intros [? _]; done). done.
Qed.

Section Report.
Context `{Collaborators} `{Centrality}.
Variable main_party : string.
Variable text_dictrionary : list (string * string).
Variable purpose_color_map : list (string * string).

Local Abbreviation build :=
  (get_data_flow_graph_revised main_party text_dictrionary purpose_color_map).

Lemma build_keys_split rows st :
  build rows = Ok st →
  Forall (fun k => (3 ≤ length (split_on "#" k))%nat) (data_flow_completed_arr st).
Proof.
  intros Hrun. destruct (build_keys_from_rows _ _ _ _ _ Hrun) as (Hc & _).
  apply Forall_forall. intros k (o & _ & -> & _)%Hc. apply split_on_flow_key_length.
Qed.

(** X16 — on the builder's result the report raises nothing but
    [ZeroDivisionError], and it returns exactly when there is a completed
    flow, a registered entity and the ranking asked for is not empty; an
    unknown ranking option does not stand in the way. The tally loop itself
    never fails. *)
Theorem post_processing_returns (rows : list (list string)) (st : state)
    (option_ : string) (top_n : Z) :
  build rows = Ok st →
  (divisible st option_ top_n → ∃ stats, post_processing_stats st option_ top_n = Ok stats)
  ∧ (¬ divisible st option_ top_n →
     post_processing_stats st option_ top_n = Raise ZeroDivisionError).
Proof.
  intros Hrun. unfold divisible, post_processing_stats. cbv zeta.
  destruct (tally_counts (first_party_arr st) (third_party_arr st) (user_party_arr st)
              (data_flow_completed_arr st) (Tally 0 0 0 0 0 0 0 [])
              (build_keys_split _ _ Hrun)) as (t & -> & _).
  rewrite bind_Ok_l, mapM_py_div.
  unfold transparency_score, third_party_score. rewrite !py_div_spec.
  destruct (data_flow_completed_arr st) as [|k ks] eqn:Ec.
  { split; [by intros [? _]|]. intros _. simpl.
    destruct (decide (_ ∧ _)); [done|]. simpl. done. }
  rewrite (decide_False (P := _ ∧ _)) by (intros [? _]; simpl in *; lia).
  rewrite (decide_False (P := Z.of_nat (length (k :: ks)) = 0)) by (simpl; lia). simpl.
  destruct (first_party_arr st ++ user_party_arr st ++ third_party_arr st) as [|e es] eqn:Er.
  { apply app_eq_nil in Er as [-> [-> ->]%app_eq_nil]. simpl.
    split; [by intros (_ & ? & _) | done]. }
  assert (Hreg : Z.of_nat (length (first_party_arr st) + length (user_party_arr st)
                           + length (third_party_arr st)) ≠ 0).
  { apply (f_equal length) in Er. rewrite !length_app in Er. simpl in Er. lia. }
  rewrite decide_False by done. simpl.
  destruct (get_network_stats (G st) option_ top_n) as [[|x ranking]|] eqn:Es; simpl.
  - split; [by intros (_ & _ & ?) | done].
  - split; [eauto | intros Hno; exfalso; apply Hno; done].
  - split; [eauto | intros Hno; exfalso; apply Hno; done].
Qed.


End Report.

Lemma post_processing_returns_witness :
  Doc.run Doc.two_flows = Ok Run.two_flows
  ∧ ∃ stats, @post_processing_stats sample_centrality Run.two_flows "centrality" 10
             = Ok stats.
Proof.
  split; [vm_compute; reflexivity|].
  apply (@post_processing_returns Sample.collaborators sample_centrality Doc.main_party
           Doc.text_dictrionary Doc.purpose_color_map Doc.two_flows Run.two_flows
           "centrality" 10).
  - vm_compute; reflexivity.
  - split_and!; vm_compute; discriminate.
Defined.


(** ** The sampler outside its usual range *)





Lemma drawn_at_omap {A} (population : list A) idxs sample :
  drawn_at population idxs sample → sample = omap (fun i => population !! i) idxs.
Proof.
  induction 1 as [|i x idxs sample Hi _ IH]; [done|]. simpl. rewrite Hi. simpl. by f_equal.
Qed.

Lemma omap_lookup_seq {A} (pre l : list A) :
  omap (fun i => (pre ++ l) !! i) (seq (length pre) (length l)) = l.
Proof.
  revert pre. induction l as [|x l IH]; intros pre; [done|]. simpl.
  rewrite list_lookup_middle by done. simpl. f_equal.
  specialize (IH (pre ++ [x])). rewrite <- app_assoc, length_app in IH. simpl in IH.
  rewrite Nat.add_1_r in IH. done.
Qed.

(** X19 — at the rate 1 the sampler draws every row: the sample holds
    the rows at the positions of the permutation drawn, in that order, so it
    is a rearrangement of the population and need not be in its order. *)
Theorem sampler_full_rate {A} (perm : list nat) (rows : list A) :
  perm ≡ₚ seq 0 (length rows) →
  ∃ sample, verification_sample perm rows 1 = Ok sample
            ∧ drawn_at rows perm sample ∧ sample ≡ₚ rows.
Proof.
  intros Hperm.
  assert (Hsize : sampling_size rows 1 = Z.of_nat (length rows)).
  { unfold sampling_size, py_int. simpl. rewrite Z.mul_1_r. apply Z.quot_1_r. }
  unfold verification_sample, random_sampling. rewrite Hsize.
  destruct (Z.leb_spec (Z.of_nat (length rows)) (Z.of_nat (length rows))) as [_ | ?]; [|lia].
  unfold random_choice.
  destruct (Z.ltb_spec (Z.of_nat (length rows)) 0) as [? | _]; [lia|].
  destruct (Z.ltb_spec (Z.of_nat (length rows)) (Z.of_nat (length rows))) as [? | _]; [lia|].
  rewrite bind_Ok_l, Nat2Z.id.
  assert (Hlen : length perm = length rows) by (by rewrite Hperm, length_seq).
  rewrite firstn_all2 by lia.
  assert (Hbound : Forall (fun i => (i < length rows)%nat) perm).
  { rewrite Hperm. apply Forall_forall. intros i Hi%elem_of_seq. lia. }
  destruct (mapM_lookup rows perm Hbound) as (sample & -> & Hat).
  exists sample. split_and!; [done | done |].
  rewrite (drawn_at_omap _ _ _ Hat), Hperm.
  pose proof (omap_lookup_seq [] rows) as Hall. simpl in Hall. by rewrite Hall.
Qed.

Lemma sampler_full_rate_witness :
  ∃ sample, verification_sample drawn_order ten_rows 1 = Ok sample
            ∧ drawn_at ten_rows drawn_order sample ∧ sample ≡ₚ ten_rows.
Proof.
  apply (sampler_full_rate drawn_order ten_rows).
  apply (bool_decide_unpack _). vm_compute. exact I.
Defined.

(** ** The first-party phrases *)

Section FirstPartyPhrases.
Context `{Collaborators}.

Lemma rectify_roots_spec entity flag :
  rectify_roots entity flag = true
  ↔ flag = true
    ∨ (get_main entity ∈ first_party_entity_main_root_arr
       ∧ get_poss entity ∈ first_party_entity_poss_arr).
Proof.
  unfold rectify_roots.
  generalize first_party_entity_main_root_arr as roots.
  generalize first_party_entity_poss_arr as posses. intros posses roots.
  revert flag. induction roots as [|root roots IH]; intros flag; simpl.
  - split; [by left | intros [? | [?%elem_of_nil _]]; done].
  - rewrite IH, orb_true_iff, existsb_exists, elem_of_cons. split.
    + intros [[? | (p & Hp%list_elem_of_In & [Hm Hq]%andb_true_iff)] | [? ?]];
        [by left | right | right; by auto].
      apply bool_decide_eq_true in Hm, Hq. subst. auto.
    + intros [? | [[-> | ?] Hp]]; [by left; left | | by right].
      left. right. exists (get_poss entity).
      split; [by apply list_elem_of_In|]. by rewrite !bool_decide_eq_true_2.
Qed.

Lemma rectify_items_spec entity items flag :
  rectify_items entity items flag = true
  ↔ entity ∈ items ∨ flag = true
    ∨ (items ≠ []
       ∧ get_main entity ∈ first_party_entity_main_root_arr
       ∧ get_poss entity ∈ first_party_entity_poss_arr).
Proof.
  revert flag. induction items as [|item items IH]; intros flag; simpl.
  - split; [by right; left | intros [?%elem_of_nil | [? | [? _]]]; done].
  - case_bool_decide as Hitem.
    + subst. split; [intros _; left; apply elem_of_cons; by left | done].
    + rewrite IH, rectify_roots_spec, elem_of_cons. split.
      * intros [? | [[? | ?] | (_ & ?)]]; [by left; right | by right; left | |];
          right; right; done.
      * intros [[? | ?] | [? | (_ & ?)]]; [done | by left | by right; left; left |].
        right. left. by right.
Qed.

(** X20 — the loops of [rectify_collection_party] raise the flag exactly
    when the entity is one of the listed first-party phrases, or its head
    word is a listed root and its possessive modifier a listed one; the
    [break] out of the innermost loop changes nothing. *)
Theorem rectify_collection_party_spec (entity : string) :
  rectify_collection_party entity = true
  ↔ entity ∈ first_party_entity_arr
    ∨ (get_main entity ∈ first_party_entity_main_root_arr
       ∧ get_poss entity ∈ first_party_entity_poss_arr).
Proof.
  unfold rectify_collection_party. rewrite rectify_items_spec. split.
  - intros [? | [? | (_ & ?)]]; [by left | done | by right].
  - intros [? | ?]; [by left | right; right; done].
Qed.

End FirstPartyPhrases.

(** ** Edge colours *)

Lemma string_app_assoc (a b c : string) : (a +:+ b) +:+ c = a +:+ (b +:+ c).
Proof. induction a as [|x a IH]; [done|]. rewrite !append_cons. by f_equal. Qed.

Lemma rev_app_app (a b c : string) :
  String.rev_app (a +:+ b) c = String.rev_app b (String.rev_app a c).
Proof. revert c. induction a as [|x a IH]; intros c; [done|]. rewrite append_cons. apply IH. Qed.

Lemma rev_app_spec (a b : string) :
  String.rev_app a b = String.rev_app a EmptyString +:+ b.
Proof.
  revert b. induction a as [|x a IH]; intros b; [done|]. simpl.
  rewrite (IH (String x b)), (IH (String x EmptyString)), string_app_assoc. done.
Qed.

Lemma prefix_app (a b : string) : String.prefix a (a +:+ b) = true.
Proof.
  induction a as [|x a IH]; [apply prefix_empty|]. rewrite append_cons. simpl.
  destruct (ascii_dec x x); done.
Qed.

Lemma endswith_app (p q : string) : Py.endswith p (q +:+ p) = true.
Proof.
  unfold Py.endswith, String.rev. rewrite rev_app_app, (rev_app_spec p (String.rev_app q _)).
  apply prefix_app.
Qed.

Section EdgeColours.
Context `{Collaborators}.
Variable main_party : string.
Variable text_dictrionary : list (string * string).
Variable purpose_color_map : list (string * string).

Local Abbreviation step := (process_row main_party text_dictrionary purpose_color_map).
Local Abbreviation build :=
  (get_data_flow_graph_revised main_party text_dictrionary purpose_color_map).

(** A joined purpose string is empty or closed by the separator. *)
Lemma get_collection_purpose_closed purpose_json purpose :
  get_collection_purpose purpose_json = Ok purpose →
  purpose = EmptyString ∨ ∃ q, purpose = q +:+ "; ".
Proof.
  unfold get_collection_purpose. intros Hrun.
  apply bind_Ok in Hrun as (output & _ & Hrun).
  apply bind_Ok in Hrun as (n & _ & Hrun).
  destruct (0 <? n)%nat; [|injection Hrun as <-; by left].
  apply bind_Ok in Hrun as (items & _ & Hrun).
  revert Hrun.
  apply (foldM_invariant (fun acc => acc = EmptyString ∨ ∃ q, acc = q +:+ "; "));
    [|by left].
  intros acc item acc' _ Hstep.
  apply bind_Ok in Hstep as (c & _ & Hstep).
  apply bind_Ok in Hstep as (piece & Hpiece & [= <-]).
  destruct c; try done. injection Hpiece as <-.
  right. exists (acc +:+ s). by rewrite string_app_assoc.
Qed.

Lemma purpose_color_of_plain purpose :
  plain_keys purpose_color_map →
  purpose = EmptyString ∨ (∃ q, purpose = q +:+ "; ") →
  purpose_color_of purpose_color_map purpose = "ff000000".
Proof.
  unfold plain_keys, purpose_color_of. intros Hkeys Hp.
  destruct (assoc purpose purpose_color_map) as [c|] eqn:Hc; [|done].
  assert (Hin : purpose ∈ purpose_color_map.*1) by (apply assoc_elem_of; eauto).
  rewrite Forall_forall in Hkeys. destruct (Hkeys _ Hin) as [Hne Hend].
  destruct Hp as [-> | [q ->]]; [done|]. by rewrite endswith_app in Hend.
Qed.

Lemma accept_colour raw_idx raw_text cat d t s r st st' :
  accept main_party purpose_color_map raw_idx raw_text cat d t s r st = Ok st' →
  ∃ sc rc a purpose,
    G st' = add_flow (G st) s t r sc rc a
    ∧ get_collection_purpose (d_purpose d) = Ok purpose
    ∧ e_color a = purpose_color_of purpose_color_map purpose
    ∧ e_title a = purpose.
Proof.
  unfold accept. intros Hrun.
  apply bind_Ok in Hrun as (party & _ & Hrun).
  apply bind_Ok in Hrun as (purpose & Hpurpose & Hrun).
  apply bind_Ok in Hrun as (method & _ & Hrun).
  destruct (get_entity_property s party _ _ _ _) as [[[c1 f1] t1] u1].
  destruct (get_entity_property r party _ _ _ _) as [[[c2 f2] t2] u2].
  injection Hrun as <-. simpl. eexists _, _, _, purpose. split_and!; done.
Qed.

(** X21 — an edge is coloured by looking its joined purpose string up in
    the colour map, and a joined purpose string is empty or ends with the
    separator that follows every purpose. So when every key of the map is a
    non-empty name that does not end with that separator, every edge of the
    graph has the fallback colour. *)
Theorem edge_colours_need_separator_keys (rows : list (list string)) (st : state) :
  plain_keys purpose_color_map →
  build rows = Ok st →
  Forall (fun e => e_color (e_attr e) = "ff000000") (edges (G st)).
Proof.
  intros Hkeys.
  apply (foldM_invariant (fun st => Forall (fun e => e_color (e_attr e) = "ff000000")
                                      (edges (G st)))); [|constructor].
  intros b row b' Hb Hstep.
  apply process_row_inv in Hstep
    as (raw_idx & raw_text & data_type & d & cat & t & s & r & abbr
        & _ & _ & _ & _ & [[Hvalid Hacc] | [_ ->]]); [|done].
  apply accept_colour in Hacc as (sc & rc & a & purpose & -> & Hpurpose & Hcolour & _).
  simpl. destruct (add_flow_edges (G b) s t r sc rc a) as (new & -> & Hnew & _).
  apply Forall_app. split; [done|].
  eapply Forall_impl; [exact Hnew|]. intros e [-> _]. rewrite Hcolour.
  apply purpose_color_of_plain; [done|]. by eapply get_collection_purpose_closed.
Qed.

End EdgeColours.

Lemma edge_colours_need_separator_keys_witness :
  @get_data_flow_graph_revised Sample.collaborators Doc.main_party Doc.text_dictrionary
    plain_color_map Doc.two_flows = Ok plain_color_run
  ∧ length (edges (G plain_color_run)) = 3%nat
  ∧ Forall (fun e => e_color (e_attr e) = "ff000000") (edges (G plain_color_run)).
Proof.
  split_and!; [vm_compute; reflexivity | vm_compute; reflexivity |].
  apply (@edge_colours_need_separator_keys Sample.collaborators Doc.main_party
           Doc.text_dictrionary plain_color_map Doc.two_flows plain_color_run).
  - unfold plain_keys. repeat constructor; done.
  - vm_compute; reflexivity.
Defined.

(** ** Node colours and the registries *)

Lemma update_node_absent n a ns : n ∉ ns.*1 → update_node n a ns = ns ++ [(n, a)].
Proof.
  induction ns as [|[k b] ns IH]; simpl; intros Hn; [done|].
  rewrite not_elem_of_cons in Hn. destruct Hn as [Hk Hn].
  rewrite decide_False by done. by rewrite IH.
Qed.

Lemma update_node_no_attr n ns x :
  x ∈ update_node n no_attr ns → x ∈ ns ∨ x.2 = no_attr.
Proof.
  induction ns as [|[k b] ns IH]; simpl.
  - intros ->%list_elem_of_singleton. by right.
  - case_decide as Hk.
    + assert (merge_attr b no_attr = b) as -> by (by destruct b as [[?|] [?|] [?|] [?|]]).
      by left.
    + rewrite !elem_of_cons. intros [-> | Hx]; [by left; left|].
      destruct (IH Hx); [left; by right | by right].
Qed.

Lemma add_node_nodes g n a x :
  has_node g n = false → x ∈ nodes (add_node g n a) → x ∈ nodes g ∨ x = (n, a).
Proof.
  intros Hn. simpl. rewrite update_node_absent.
  - rewrite elem_of_app, list_elem_of_singleton. done.
  - intros Hin%has_node_spec. congruence.
Qed.

Lemma add_edge_nodes g u v a x :
  x ∈ nodes (add_edge g u v a) → x ∈ nodes g ∨ x.2 = no_attr.
Proof.
  simpl. intros [Hx | ?]%update_node_no_attr; [|by right].
  by apply update_node_no_attr in Hx.
Qed.

(** The nodes [add_flow] creates and their colours. *)
Lemma add_flow_nodes g s t r sc rc a x :
  x ∈ nodes (add_flow g s t r sc rc a) →
  x ∈ nodes g
  ∨ (x.1 = s ∧ n_color x.2 = Some sc)
  ∨ (x.1 = t ∧ n_color x.2 = Some data_color)
  ∨ (x.1 = r ∧ n_color x.2 = Some rc)
  ∨ n_color x.2 = None.
Proof.
  unfold add_flow.
  set (g1 := if has_node g s then g else _).
  assert (H1 : x ∈ nodes g1 → x ∈ nodes g ∨ (x.1 = s ∧ n_color x.2 = Some sc)).
  { subst g1. destruct (has_node g s) eqn:E; [by left|].
    intros [? | ->]%add_node_nodes; [by left | by right | done]. }
  set (g2 := if negb (has_node g1 t) && _ then _ else g1).
  assert (H2 : x ∈ nodes g2 → x ∈ nodes g1 ∨ (x.1 = t ∧ n_color x.2 = Some data_color)).
  { subst g2. destruct (has_node g1 t) eqn:E; simpl; [by left|].
    case_match; [|by left].
    intros [? | ->]%add_node_nodes; [by left | by right | done]. }
  set (g3 := if has_node g2 r then g2 else _).
  assert (H3 : x ∈ nodes g3 → x ∈ nodes g2 ∨ (x.1 = r ∧ n_color x.2 = Some rc)).
  { subst g3. destruct (has_node g2 r) eqn:E; [by left|].
    intros [? | ->]%add_node_nodes; [by left | by right | done]. }
  set (g4 := if has_edge g3 s t then g3 else _).
  assert (H4 : x ∈ nodes g4 → x ∈ nodes g3 ∨ n_color x.2 = None).
  { subst g4. case_match; [by left|].
    intros [? | Hx]%add_edge_nodes; [by left | right; by rewrite Hx]. }
  assert (H5 : x ∈ nodes (if has_edge g4 t r then g4 else add_edge g4 t r a) →
               x ∈ nodes g4 ∨ n_color x.2 = None).
  { case_match; [by left|].
    intros [? | Hx]%add_edge_nodes; [by left | right; by rewrite Hx]. }
  tauto.
Qed.

Lemma append_new_subseteq x (l : list string) : l ⊆ append_new x l.
Proof. intros y Hy. apply elem_of_append_new. by left. Qed.

Lemma get_entity_property_colour `{Collaborators}
    entity party_category main_party first third user color first' third' user' :
  get_entity_property entity party_category main_party first third user
  = (color, first', third', user') →
  first ⊆ first' ∧ third ⊆ third' ∧ user ⊆ user'
  ∧ (color = "#ccff99" → Py.lower entity ∈ first')
  ∧ (color = "#f7ff99" → Py.lower entity ∈ user')
  ∧ (color = "#ff99ff" → Py.lower entity ∈ third').
Proof.
  unfold get_entity_property. intros Hrun.
  assert (Hin : ∀ l : list string, Py.lower entity ∈ append_new (Py.lower entity) l).
  { intros l. apply elem_of_append_new. by right. }
  repeat match type of Hrun with
         | (if ?b then _ else _) = _ => destruct b
         end;
    injection Hrun as <- <- <- <-;
    split_and!; try done; auto using append_new_subseteq.
Qed.

Section ColourLegend.
Context `{Collaborators}.
Variable main_party : string.
Variable text_dictrionary : list (string * string).
Variable purpose_color_map : list (string * string).

Local Abbreviation step := (process_row main_party text_dictrionary purpose_color_map).
Local Abbreviation build :=
  (get_data_flow_graph_revised main_party text_dictrionary purpose_color_map).

Lemma accept_node_colours raw_idx raw_text cat d t s r st st' :
  accept main_party purpose_color_map raw_idx raw_text cat d t s r st = Ok st' →
  ∃ party c1 c2 first third user a,
    get_entity_property s party main_party
      (first_party_arr st) (third_party_arr st) (user_party_arr st)
    = (c1, first, third, user)
    ∧ get_entity_property r party main_party first third user
      = (c2, first_party_arr st', third_party_arr st', user_party_arr st')
    ∧ G st' = add_flow (G st) s t r c1 c2 a.
Proof.
  unfold accept. intros Hrun.
  apply bind_Ok in Hrun as (party & _ & Hrun).
  apply bind_Ok in Hrun as (purpose & _ & Hrun).
  apply bind_Ok in Hrun as (method & _ & Hrun).
  destruct (get_entity_property s party _ _ _ _) as [[[c1 f1] t1] u1] eqn:E1.
  destruct (get_entity_property r party _ _ _ _) as [[[c2 f2] t2] u2] eqn:E2.
  injection Hrun as <-. simpl. simpl in E1. eexists _, _, _, _, _, _, _.
  split_and!; [exact E1 | exact E2 | done].
Qed.

Lemma step_colour_legend st row st' :
  colour_legend st → step st row = Ok st' → colour_legend st'.
Proof.
  intros Hst Hstep.
  apply process_row_inv in Hstep
    as (raw_idx & raw_text & data_type & d & cat & t & s & r & abbr
        & _ & _ & _ & _ & [[_ Hacc] | [_ ->]]); [|done].
  apply accept_node_colours in Hacc
    as (party & c1 & c2 & f & th & u & a & E1 & E2 & HG). simpl in E1, HG.
  apply get_entity_property_colour in E1 as (Sf1 & St1 & Su1 & Cf1 & Cu1 & Ct1).
  apply get_entity_property_colour in E2 as (Sf2 & St2 & Su2 & Cf2 & Cu2 & Ct2).
  intros n b Hn. rewrite HG in Hn.
  apply add_flow_nodes in Hn as [Hold | [[Hs Hc] | [[Ht Hc] | [[Hr Hc] | Hc]]]];
    simpl in *.
  - destruct (Hst n b Hold) as (? & ? & ?). split_and!; auto.
  - subst n. rewrite Hc. split_and!; intros [= ->]; auto.
  - rewrite Hc. split_and!; intros [= ?].
  - subst n. rewrite Hc. split_and!; intros [= ->]; auto.
  - rewrite Hc. split_and!; intros [= ?].
Qed.

(** X22 — the colours of the graph can be read as a legend: a node drawn
    in the first-party colour has its lower-case name in the first-party
    registry, and likewise for the user-party and the third-party colour. *)
Theorem node_colours_follow_registries (rows : list (list string)) (st : state) :
  build rows = Ok st → colour_legend st.
Proof.
  apply (foldM_invariant colour_legend).
  - intros b a b' Hb Hstep. by eapply step_colour_legend.
  - intros n a Hn. by apply elem_of_nil in Hn.
Qed.

End ColourLegend.

Lemma node_colours_follow_registries_witness :
  Doc.run to_user_rows = Ok to_user_run ∧ colour_legend to_user_run.
Proof.
  split; [vm_compute; reflexivity|].
  apply (@node_colours_follow_registries Sample.collaborators Doc.main_party
           Doc.text_dictrionary Doc.purpose_color_map to_user_rows).
  vm_compute; reflexivity.
Defined.

(** ** The segment texts *)

Lemma dict_set_names {A} k (v : A) d :
  (dict_set k v d).*1 = if bool_decide (k ∈ d.*1) then d.*1 else d.*1 ++ [k].
Proof.
  induction d as [|[k' v'] d IH]; [done|]. cbn [dict_set].
  destruct (decide (k' = k)) as [Hk | Hk]; rewrite !fmap_cons; cbn [fst].
  - subst. rewrite bool_decide_eq_true_2; [done | apply elem_of_cons; by left].
  - rewrite IH. destruct (decide (k ∈ d.*1)) as [Hin | Hin].
    + rewrite !bool_decide_eq_true_2; [done | apply elem_of_cons; by right | done].
    + rewrite !bool_decide_eq_false_2; [done | | done].
      rewrite not_elem_of_cons. split; [congruence | done].
Qed.

Lemma dict_set_NoDup {A} k (v : A) d : NoDup d.*1 → NoDup (dict_set k v d).*1.
Proof.
  intros Hd. rewrite dict_set_names. case_bool_decide as Hk; [done|].
  apply NoDup_app. split_and!; [done | | apply NoDup_singleton].
  by intros x Hx ->%list_elem_of_singleton.
Qed.

Lemma assoc_dict_set {A} k (v : A) d idx :
  assoc idx (dict_set k v d) = if decide (idx = k) then Some v else assoc idx d.
Proof.
  induction d as [|[k' v'] d IH]; simpl; [done|].
  destruct (decide (k' = k)) as [-> | Hk]; simpl.
  - destruct (decide (idx = k)); done.
  - rewrite IH. destruct (decide (idx = k')) as [-> | ?]; [|done].
    by rewrite decide_False.
Qed.

Lemma read_text_rows_spec rows d0 :
  match foldM (fun text_dictrionary row =>
                 idx ← column row 0;
                 text ← column row 1;
                 Ok (dict_set idx text text_dictrionary)) d0 rows with
  | Ok d =>
      Forall (fun row : list string => (2 ≤ length row)%nat) rows
      ∧ (NoDup d0.*1 → NoDup d.*1)
      ∧ ∀ idx, assoc idx d = match last_text idx rows with
                             | Some text => Some text
                             | None => assoc idx d0
                             end
  | Raise e =>
      e = IndexError ∧ Exists (fun row : list string => (length row < 2)%nat) rows
  end.
Proof.
  revert d0. induction rows as [|row rows IH]; intros d0; simpl.
  - split_and!; [constructor | done | done].
  - unfold column at 1 2. destruct row as [|idx [|text row]]; simpl.
    + split; [done | left; simpl; lia].
    + split; [done | left; simpl; lia].
    + specialize (IH (dict_set idx text d0)).
      destruct (foldM _ (dict_set idx text d0) rows) as [d | e].
      * destruct IH as (Hlen & Hnodup & Hassoc). split_and!.
        -- constructor; [simpl; lia | done].
        -- intros Hd0. by apply Hnodup, dict_set_NoDup.
        -- intros k. rewrite Hassoc, assoc_dict_set. unfold last_text. simpl.
           destruct (decide (k = idx)) as [-> | Hk].
           ++ rewrite bool_decide_eq_true_2 by done. rewrite last_cons.
              by destruct (last _).
           ++ rewrite bool_decide_eq_false_2 by congruence. done.
      * destruct IH as [-> Hex]. split; [done | by right].
Qed.

(** X23 — [read_text_segment] returns when every row has an index and a
    text, and raises [IndexError] otherwise. The dictionary it returns has
    every index once and maps it to the text of the last row that carries
    it; an index no row carries is absent. *)
Theorem read_text_segment_last_wins (rows : list (list string)) :
  match read_text_segment rows with
  | Ok d =>
      Forall (fun row : list string => (2 ≤ length row)%nat) rows
      ∧ NoDup d.*1
      ∧ ∀ idx, assoc idx d = last_text idx rows
  | Raise e =>
      e = IndexError ∧ Exists (fun row : list string => (length row < 2)%nat) rows
  end.
Proof.
  unfold read_text_segment. pose proof (read_text_rows_spec rows []) as Hspec.
  destruct (foldM _ [] rows) as [d | e]; [|done].
  destruct Hspec as (Hlen & Hnodup & Hassoc). split_and!; [done | apply Hnodup; constructor |].
  intros idx. rewrite Hassoc. by destruct (last_text idx rows).
Qed.

(** ** The plain builder against the full one *)

Lemma update_node_fst n a ns : (update_node n a ns).*1 = names_add n ns.*1.
Proof.
  unfold names_add. induction ns as [|[k b] ns IH]; [done|]. cbn [update_node].
  destruct (decide (k = n)) as [Hk | Hk]; rewrite !fmap_cons; cbn [fst].
  - subst. rewrite bool_decide_eq_true_2; [done | apply elem_of_cons; by left].
  - rewrite IH. destruct (decide (n ∈ ns.*1)) as [Hin | Hin].
    + rewrite !bool_decide_eq_true_2; [done | apply elem_of_cons; by right | done].
    + rewrite !bool_decide_eq_false_2; [done | | done].
      rewrite not_elem_of_cons. split; [congruence | done].
Qed.

Lemma existsb_fmap {A B} (f : A → B) (p : B → bool) (l : list A) :
  existsb p (f <$> l) = existsb (fun x => p (f x)) l.
Proof.
  induction l as [|x l IH]; [done|]. rewrite fmap_cons. cbn [existsb]. by rewrite IH.
Qed.

Lemma length_filter_fmap {A B} (f : A → B) (p : B → bool) (l : list A) :
  length (filter (fun y => p y = true) (f <$> l))
  = length (filter (fun x => p (f x) = true) l).
Proof.
  induction l as [|x l IH]; [done|]. rewrite fmap_cons, !filter_cons.
  destruct (decide (p (f x) = true)); cbn [length]; by rewrite IH.
Qed.

Lemma shape_has_node_of g n : has_node g n = shape_has_node (shape_of g) n.
Proof. done. Qed.

Lemma shape_has_edge_of g u v : has_edge g u v = shape_has_edge (shape_of g) u v.
Proof. unfold has_edge, shape_has_edge, shape_of. simpl. by rewrite existsb_fmap. Qed.

Lemma shape_add_node_of g n a : shape_of (add_node g n a) = shape_add_node n (shape_of g).
Proof. unfold shape_of, shape_add_node. simpl. by rewrite update_node_fst. Qed.

Lemma shape_add_edge_of g u v a :
  shape_of (add_edge g u v a) = shape_add_edge u v (shape_of g).
Proof.
  unfold shape_of, shape_add_edge, add_edge, number_of_edges_between. simpl.
  rewrite !update_node_fst, fmap_app. simpl.
  by rewrite (length_filter_fmap _ (shape_on_pair u v)).
Qed.

Lemma shape_add_flow_of g s t r sc rc a :
  shape_of (add_flow g s t r sc rc a) = shape_add_flow s t r (shape_of g).
Proof.
  unfold add_flow, shape_add_flow.
  rewrite (shape_has_node_of g s).
  set (g1 := if shape_has_node (shape_of g) s then g else _).
  set (sh1 := if shape_has_node (shape_of g) s then shape_of g else _).
  assert (E1 : shape_of g1 = sh1).
  { subst g1 sh1. case_match; [done | apply shape_add_node_of]. }
  rewrite (shape_has_node_of g1 t), E1.
  set (g2 := if negb (shape_has_node sh1 t) && _ then _ else g1).
  set (sh2 := if negb (shape_has_node sh1 t) && _ then _ else sh1).
  assert (E2 : shape_of g2 = sh2).
  { subst g2 sh2. case_match; [by rewrite shape_add_node_of, E1 | done]. }
  rewrite (shape_has_node_of g2 r), E2.
  set (g3 := if shape_has_node sh2 r then g2 else _).
  set (sh3 := if shape_has_node sh2 r then sh2 else _).
  assert (E3 : shape_of g3 = sh3).
  { subst g3 sh3. case_match; [done | by rewrite shape_add_node_of, E2]. }
  rewrite (shape_has_edge_of g3 s t), E3.
  set (g4 := if shape_has_edge sh3 s t then g3 else _).
  set (sh4 := if shape_has_edge sh3 s t then sh3 else _).
  assert (E4 : shape_of g4 = sh4).
  { subst g4 sh4. case_match; [done | by rewrite shape_add_edge_of, E3]. }
  rewrite (shape_has_edge_of g4 t r), E4.
  case_match; [done | by rewrite shape_add_edge_of, E4].
Qed.

Lemma simple_shape_has_node_of g n :
  Simple.has_node g n = shape_has_node (simple_shape_of g) n.
Proof. done. Qed.

Lemma simple_shape_has_edge_of g u v :
  Simple.has_edge g u v = shape_has_edge (simple_shape_of g) u v.
Proof.
  unfold Simple.has_edge, shape_has_edge, simple_shape_of. simpl. by rewrite existsb_fmap.
Qed.

Lemma simple_shape_add_node_of g n a :
  simple_shape_of (Simple.add_node g n a) = shape_add_node n (simple_shape_of g).
Proof. unfold simple_shape_of, shape_add_node. simpl. by rewrite update_node_fst. Qed.

Lemma simple_shape_add_edge_of g u v a :
  simple_shape_of (Simple.add_edge g u v a) = shape_add_edge u v (simple_shape_of g).
Proof.
  unfold simple_shape_of, shape_add_edge, Simple.add_edge, Simple.number_of_edges_between.
  simpl. rewrite !update_node_fst, fmap_app. simpl.
  by rewrite (length_filter_fmap _ (shape_on_pair u v)).
Qed.

Lemma simple_shape_add_flow_of g s t r raw_idx raw_text :
  simple_shape_of (Simple.add_flow g s t r raw_idx raw_text)
  = shape_add_flow s t r (simple_shape_of g).
Proof.
  unfold Simple.add_flow, shape_add_flow.
  rewrite (simple_shape_has_node_of g s).
  set (g1 := if shape_has_node (simple_shape_of g) s then g else _).
  set (sh1 := if shape_has_node (simple_shape_of g) s then simple_shape_of g else _).
  assert (E1 : simple_shape_of g1 = sh1).
  { subst g1 sh1. case_match; [done | apply simple_shape_add_node_of]. }
  rewrite (simple_shape_has_node_of g1 t), E1.
  set (g2 := if negb (shape_has_node sh1 t) && _ then _ else g1).
  set (sh2 := if negb (shape_has_node sh1 t) && _ then _ else sh1).
  assert (E2 : simple_shape_of g2 = sh2).
  { subst g2 sh2. case_match; [by rewrite simple_shape_add_node_of, E1 | done]. }
  rewrite (simple_shape_has_node_of g2 r), E2.
  set (g3 := if shape_has_node sh2 r then g2 else _).
  set (sh3 := if shape_has_node sh2 r then sh2 else _).
  assert (E3 : simple_shape_of g3 = sh3).
  { subst g3 sh3. case_match; [done | by rewrite simple_shape_add_node_of, E2]. }
  rewrite (simple_shape_has_edge_of g3 s t), E3.
  set (g4 := if shape_has_edge sh3 s t then g3 else _).
  set (sh4 := if shape_has_edge sh3 s t then sh3 else _).
  assert (E4 : simple_shape_of g4 = sh4).
  { subst g4 sh4. case_match; [done | by rewrite simple_shape_add_edge_of, E3]. }
  rewrite (simple_shape_has_edge_of g4 t r), E4.
  case_match; [done | by rewrite simple_shape_add_edge_of, E4].
Qed.

Section TwoBuilders.
Context `{Collaborators}.
Variable main_party : string.
Variable text_dictrionary : list (string * string).
Variable purpose_color_map : list (string * string).

Local Abbreviation step := (process_row main_party text_dictrionary purpose_color_map).
Local Abbreviation build :=
  (get_data_flow_graph_revised main_party text_dictrionary purpose_color_map).

Lemma accept_rest raw_idx raw_text cat d t s r st st' :
  accept main_party purpose_color_map raw_idx raw_text cat d t s r st = Ok st' →
  ∃ sc rc a,
    G st' = add_flow (G st) s t r sc rc a
    ∧ abbreviation_dict st' = abbreviation_dict st ∧ stdout st' = stdout st.
Proof.
  unfold accept. intros Hrun.
  apply bind_Ok in Hrun as (party & _ & Hrun).
  apply bind_Ok in Hrun as (purpose & _ & Hrun).
  apply bind_Ok in Hrun as (method & _ & Hrun).
  destruct (get_entity_property s party _ _ _ _) as [[[c1 f1] t1] u1].
  destruct (get_entity_property r party _ _ _ _) as [[[c2 f2] t2] u2].
  injection Hrun as <-. simpl. eexists _, _, _. done.
Qed.

(** One iteration of the full builder, with everything it reads. *)
Lemma process_row_reads st row st' :
  step st row = Ok st' →
  ∃ raw_idx raw_text data_type d cat ds dr t s r abbr,
    column row 0 = Ok raw_idx ∧ lookup_text text_dictrionary raw_idx = Ok raw_text
    ∧ column row 1 = Ok data_type ∧ decode_row row = Ok d
    ∧ get_category (d_category d) = Ok cat ∧ get_flow (d_flow d) = Ok (ds, dr)
    ∧ normalise data_type ds dr (abbreviation_dict st) = Ok (t, s, r, abbr)
    ∧ let st1 := State (G st) (set_default data_type cat (data_category_dic st))
                   (first_party_arr st) (third_party_arr st) (user_party_arr st)
                   (data_flow_completed_arr st) (data_flow_no_sender_arr st)
                   (data_flow_no_receiver_arr st) (data_output_arr st)
                   abbr (stdout st ++ d_reports d) in
      (valid_triple s t r = true
       ∧ accept main_party purpose_color_map raw_idx raw_text cat d t s r st1 = Ok st')
      ∨ (valid_triple s t r = false ∧ st' = st1).
Proof.
  unfold process_row. intros Hrun.
  apply bind_Ok in Hrun as (raw_idx & H0 & Hrun).
  apply bind_Ok in Hrun as (raw_text & H1 & Hrun).
  apply bind_Ok in Hrun as (data_type & H2 & Hrun).
  apply bind_Ok in Hrun as (d & H3 & Hrun).
  apply bind_Ok in Hrun as (cat & H4 & Hrun).
  apply bind_Ok in Hrun as ([ds dr] & H5 & Hrun).
  apply bind_Ok in Hrun as ([[[t s] r] abbr] & H6 & Hrun).
  exists raw_idx, raw_text, data_type, d, cat, ds, dr, t, s, r, abbr.
  split_and!; try done. simpl in Hrun.
  destruct (valid_triple s t r); [left | right]; split; try done.
  by injection Hrun as <-.
Qed.

Lemma step_same_run st row st' sst :
  same_run st sst → step st row = Ok st' →
  ∃ sst', Simple.process_row text_dictrionary sst row = Ok sst' ∧ same_run st' sst'.
Proof.
  intros (Hshape & Habbr & Hout) Hstep.
  apply process_row_reads in Hstep
    as (raw_idx & raw_text & data_type & d & cat & ds & dr & t & s & r & abbr
        & H0 & H1 & H2 & H3 & H4 & H5 & H6 & Hcases).
  unfold Simple.process_row.
  rewrite H0, bind_Ok_l, H1, bind_Ok_l, H2, bind_Ok_l, H3, bind_Ok_l, H4, bind_Ok_l,
    H5, bind_Ok_l, Habbr, H6, bind_Ok_l.
  destruct Hcases as [[-> Hacc] | [-> ->]].
  - apply accept_rest in Hacc as (sc & rc & a & HG & Ha & Hs). simpl in HG, Ha, Hs.
    eexists. split; [done|]. unfold same_run. simpl.
    rewrite HG, Ha, Hs, simple_shape_add_flow_of, shape_add_flow_of, Hshape, Hout. done.
  - eexists. split; [done|]. unfold same_run. simpl. by rewrite Hshape, Hout.
Qed.

Lemma build_same_run rows st st' sst :
  same_run st sst → foldM step st rows = Ok st' →
  ∃ sst', foldM (Simple.process_row text_dictrionary) sst rows = Ok sst'
          ∧ same_run st' sst'.
Proof.
  revert st sst. induction rows as [|row rows IH]; intros st sst Hsame Hrun; simpl in *.
  - injection Hrun as <-. by exists sst.
  - apply bind_Ok in Hrun as (st1 & Hstep & Hrun).
    destruct (step_same_run _ _ _ _ Hsame Hstep) as (sst1 & -> & Hsame1).
    rewrite bind_Ok_l. by eapply IH.
Qed.

(** X24 — whenever the full builder returns, the plain builder returns on
    the same rows, and its graph has the same shape: the same node names in
    the same order, and the same edges, end points and keys, in the same
    order. It has folded the same abbreviations and printed the same parse
    reports. *)
Theorem plain_builder_same_shape (rows : list (list string)) (st : state) :
  build rows = Ok st →
  ∃ sst, Simple.get_data_flow_graph_simple text_dictrionary rows = Ok sst
         ∧ simple_shape_of (Simple.G sst) = shape_of (G st)
         ∧ Simple.abbreviation_dict sst = abbreviation_dict st
         ∧ Simple.stdout sst = stdout st.
Proof.
  intros Hrun. unfold Simple.get_data_flow_graph_simple.
  by apply (build_same_run rows initial_state st Simple.initial_state).
Qed.

End TwoBuilders.

Lemma plain_builder_same_shape_witness :
  Doc.run Doc.two_flows = Ok Run.two_flows
  ∧ ∃ sst, @Simple.get_data_flow_graph_simple Sample.collaborators Doc.text_dictrionary
             Doc.two_flows = Ok sst
           ∧ simple_shape_of (Simple.G sst) = shape_of (G Run.two_flows)
           ∧ Simple.abbreviation_dict sst = abbreviation_dict Run.two_flows
           ∧ Simple.stdout sst = stdout Run.two_flows.
Proof.
  split; [vm_compute; reflexivity|].
  apply (@plain_builder_same_shape Sample.collaborators Doc.main_party
           Doc.text_dictrionary Doc.purpose_color_map Doc.two_flows).
  vm_compute; reflexivity.
Defined.

Section PlainBuilder.
Context `{Collaborators}.
Variable text_dictrionary : list (string * string).

Lemma simple_add_flow_edges g s t r raw_idx raw_text :
  ∃ new, Simple.edges (Simple.add_flow g s t r raw_idx raw_text) = Simple.edges g ++ new
         ∧ Forall (fun e => Simple.e_attr e = Simple.EdgeAttr None None "to"
                            ∨ Simple.e_attr e
                              = Simple.EdgeAttr (Some raw_idx) (Some raw_text) "to") new.
Proof.
  unfold Simple.add_flow.
  set (g1 := if Simple.has_node g s then g else _).
  set (g2 := if negb (Simple.has_node g1 t) && _ then _ else g1).
  set (g3 := if Simple.has_node g2 r then g2 else _).
  assert (H3 : Simple.edges g3 = Simple.edges g).
  { subst g3 g2 g1. repeat (case_match; simpl); done. }
  destruct (Simple.has_edge g3 s t) eqn:E1.
  - destruct (Simple.has_edge g3 t r) eqn:E2.
    + exists []. by rewrite app_nil_r.
    + eexists [_]. split; [simpl; by rewrite H3|].
      apply Forall_singleton. by right.
  - set (g4 := Simple.add_edge g3 s t _).
    destruct (Simple.has_edge g4 t r) eqn:E2.
    + eexists [_]. split; [simpl; by rewrite H3|].
      apply Forall_singleton. by left.
    + eexists [_; _]. split; [simpl; by rewrite H3, <- app_assoc|].
      apply Forall_cons; split; [by left|]. apply Forall_singleton. by right.
Qed.

(** X25 — every edge of the plain graph points forward ([to]) and either
    carries no reference to a segment or carries the id of a segment of the
    text dictionary together with that segment's text. *)
Theorem plain_edges_reference_segments (rows : list (list string)) (sst : Simple.state) :
  Simple.get_data_flow_graph_simple text_dictrionary rows = Ok sst →
  Forall (references text_dictrionary) (Simple.edges (Simple.G sst)).
Proof.
  apply (foldM_invariant
           (fun sst => Forall (references text_dictrionary) (Simple.edges (Simple.G sst))));
    [|constructor].
  intros b row b' Hb Hstep. unfold Simple.process_row in Hstep.
  apply bind_Ok in Hstep as (raw_idx & _ & Hstep).
  apply bind_Ok in Hstep as (raw_text & Htext & Hstep).
  apply bind_Ok in Hstep as (data_type & _ & Hstep).
  apply bind_Ok in Hstep as (d & _ & Hstep).
  apply bind_Ok in Hstep as (cat & _ & Hstep).
  apply bind_Ok in Hstep as ([ds dr] & _ & Hstep).
  apply bind_Ok in Hstep as ([[[t s] r] abbr] & _ & Hstep). simpl in Hstep.
  destruct (valid_triple s t r); injection Hstep as <-; simpl; [|done].
  destruct (simple_add_flow_edges (Simple.G b) s t r raw_idx raw_text) as (new & -> & Hnew).
  apply Forall_app. split; [done|].
  eapply Forall_impl; [exact Hnew|]. intros e He. unfold references.
  destruct He as [-> | ->]; (split; [done|]).
  - by left.
  - right. exists raw_idx, raw_text. split_and!; [done | done |].
    unfold lookup_text in Htext.
    destruct (assoc raw_idx text_dictrionary) as [x|]; [by injection Htext as -> | done].
Qed.

End PlainBuilder.

Lemma plain_edges_reference_segments_witness :
  @Simple.get_data_flow_graph_simple Sample.collaborators Doc.text_dictrionary
    (take 1 Doc.two_flows) = Ok plain_first_flow
  ∧ length (Simple.edges (Simple.G plain_first_flow)) = 2%nat
  ∧ Forall (references Doc.text_dictrionary) (Simple.edges (Simple.G plain_first_flow)).
Proof.
  split_and!; [vm_compute; reflexivity | vm_compute; reflexivity |].
  apply (@plain_edges_reference_segments Sample.collaborators Doc.text_dictrionary
           (take 1 Doc.two_flows)).
  vm_compute; reflexivity.
Defined.

(** ** The exceptions of the builder *)









Section BuilderExceptions.
Context `{Collaborators}.
Variable main_party : string.
Variable text_dictrionary : list (string * string).
Variable purpose_color_map : list (string * string).























End BuilderExceptions.


(** ** Attributes of edges and nodes *)

Lemma update_node_present n ns : n ∈ ns.*1 → update_node n no_attr ns = ns.
Proof.
  induction ns as [|[k b] ns IH]; [by intros ?%elem_of_nil|]. cbn [update_node].
  rewrite fmap_cons, elem_of_cons. cbn [fst]. intros Hn.
  destruct (decide (k = n)) as [-> | Hk].
  - by destruct b as [[?|] [?|] [?|] [?|]].
  - f_equal. apply IH. destruct Hn; [congruence | done].
Qed.

Lemma add_edge_nodes_present g u v a :
  has_node g u = true → has_node g v = true → nodes (add_edge g u v a) = nodes g.
Proof.
  rewrite !has_node_spec. intros Hu Hv. simpl.
  rewrite (update_node_present u) by done. by rewrite update_node_present.
Qed.

Lemma add_edge_nodes_absent g u v a :
  has_node g u = true → has_node g v = false →
  nodes (add_edge g u v a) = nodes g ++ [(v, no_attr)].
Proof.
  intros Hu%has_node_spec Hv. simpl. rewrite (update_node_present u) by done.
  apply update_node_absent. intros Hin%has_node_spec. congruence.
Qed.

(** The nodes [add_flow] creates, by kind. *)
Lemma add_flow_node_kinds g s t r sc rc a x :
  built g →
  x ∈ nodes (add_flow g s t r sc rc a) →
  x ∈ nodes g ∨ entity_node x ∨ data_type_node x ∨ bare_node x.
Proof.
  intros Hg. unfold add_flow.
  set (g1 := if has_node g s then g else _).
  assert (B1 : built g1) by (subst g1; case_match; [done | by apply add_node_built]).
  assert (S1 : has_node g1 s = true).
  { subst g1. destruct (has_node g s) eqn:E; [done|]. apply has_node_add_node. by right. }
  assert (H1 : x ∈ nodes g1 → x ∈ nodes g ∨ entity_node x).
  { subst g1. destruct (has_node g s) eqn:E; [by left|].
    intros [? | ->]%add_node_nodes; [by left | right | done].
    eexists. simpl. split_and!; try done. case_bool_decide; [right | left]; done. }
  set (g2 := if negb (has_node g1 t) && _ then _ else g1).
  assert (B2 : built g2) by (subst g2; case_match; [by apply add_node_built | done]).
  assert (S2 : has_node g2 s = true).
  { subst g2. case_match; [|done]. apply has_node_add_node. by left. }
  assert (T2 : has_node g2 t = true ∨ t = EmptyString).
  { subst g2. destruct (has_node g1 t) eqn:E; simpl; [by left|].
    case_bool_decide as Ht; [left; apply has_node_add_node; by right|].
    right. by destruct (decide (t = EmptyString)). }
  assert (H2 : x ∈ nodes g2 → x ∈ nodes g1 ∨ data_type_node x).
  { subst g2. destruct (has_node g1 t) eqn:E; simpl; [by left|].
    case_bool_decide as Ht; [|by left].
    intros [? | ->]%add_node_nodes; [by left | by right | done]. }
  set (g3 := if has_node g2 r then g2 else _).
  assert (B3 : built g3) by (subst g3; case_match; [done | by apply add_node_built]).
  assert (S3 : has_node g3 s = true).
  { subst g3. case_match; [done|]. apply has_node_add_node. by left. }
  assert (R3 : has_node g3 r = true).
  { subst g3. destruct (has_node g2 r) eqn:E; [done|]. apply has_node_add_node. by right. }
  assert (T3 : has_node g3 t = true ∨ t = EmptyString).
  { destruct T2 as [T2 | ?]; [left | by right].
    subst g3. case_match; [done|]. apply has_node_add_node. by left. }
  assert (H3 : x ∈ nodes g3 → x ∈ nodes g2 ∨ entity_node x).
  { subst g3. destruct (has_node g2 r) eqn:E; [by left|].
    intros [? | ->]%add_node_nodes; [by left | right | done].
    eexists. simpl. split_and!; try done. by left. }
  set (g4 := if has_edge g3 s t then g3 else _).
  assert (H4 : (x ∈ nodes g4 → x ∈ nodes g3 ∨ bare_node x)
               ∧ has_node g4 t = true ∧ has_node g4 r = true).
  { subst g4. destruct (has_edge g3 s t) eqn:E.
    - split_and!; [by left | by eapply built_has_edge | done].
    - destruct (has_node g3 t) eqn:Et.
      + rewrite add_edge_nodes_present by done.
        split_and!; [by left | | ]; apply has_node_add_edge; by left.
      + destruct T3 as [? | ->]; [done|]. rewrite add_edge_nodes_absent by done.
        split_and!.
        * rewrite elem_of_app, list_elem_of_singleton. intros [? | ->]; [by left | by right].
        * apply has_node_add_edge. right. by right.
        * apply has_node_add_edge. by left. }
  destruct H4 as (H4 & T4 & R4).
  assert (H5 : x ∈ nodes (if has_edge g4 t r then g4 else add_edge g4 t r a) →
               x ∈ nodes g4).
  { case_match; [done|]. by rewrite add_edge_nodes_present. }
  tauto.
Qed.

Section Attributes.
Context `{Collaborators}.
Variable main_party : string.
Variable text_dictrionary : list (string * string).
Variable purpose_color_map : list (string * string).

Local Abbreviation step := (process_row main_party text_dictrionary purpose_color_map).
Local Abbreviation build :=
  (get_data_flow_graph_revised main_party text_dictrionary purpose_color_map).

Lemma accept_edge_attr raw_idx raw_text cat d t s r st st' :
  accept main_party purpose_color_map raw_idx raw_text cat d t s r st = Ok st' →
  ∃ sc rc purpose,
    G st' = add_flow (G st) s t r sc rc
              (EdgeAttr raw_idx (purpose_color_of purpose_color_map purpose)
                        raw_text purpose "to").
Proof.
  unfold accept. intros Hrun.
  apply bind_Ok in Hrun as (party & _ & Hrun).
  apply bind_Ok in Hrun as (purpose & _ & Hrun).
  apply bind_Ok in Hrun as (method & _ & Hrun).
  destruct (get_entity_property s party _ _ _ _) as [[[c1 f1] t1] u1].
  destruct (get_entity_property r party _ _ _ _) as [[[c2 f2] t2] u2].
  injection Hrun as <-. simpl. by eexists _, _, _.
Qed.

Lemma accept_edge_purpose raw_idx raw_text cat d t s r st st' :
  accept main_party purpose_color_map raw_idx raw_text cat d t s r st = Ok st' →
  ∃ sc rc purpose,
    get_collection_purpose (d_purpose d) = Ok purpose
    ∧ G st' = add_flow (G st) s t r sc rc
                (EdgeAttr raw_idx (purpose_color_of purpose_color_map purpose)
                          raw_text purpose "to").
Proof.
  unfold accept. intros Hrun.
  apply bind_Ok in Hrun as (party & _ & Hrun).
  apply bind_Ok in Hrun as (purpose & Hpurpose & Hrun).
  apply bind_Ok in Hrun as (method & _ & Hrun).
  destruct (get_entity_property s party _ _ _ _) as [[[c1 f1] t1] u1].
  destruct (get_entity_property r party _ _ _ _) as [[[c2 f2] t2] u2].
  injection Hrun as <-. simpl. by eexists _, _, purpose.
Qed.

Lemma foldM_invariant_elem {A B} (P : B → Prop) (f : B → A → res B) (xs : list A) :
  (∀ b a b', a ∈ xs → P b → f b a = Ok b' → P b') →
  ∀ acc r, P acc → foldM f acc xs = Ok r → P r.
Proof.
  induction xs as [|x xs IH]; intros Hstep acc r Hacc Hrun; simpl in Hrun.
  - by injection Hrun as <-.
  - apply bind_Ok in Hrun as (acc' & Hf & Hrun).
    apply (IH (fun b a b' Ha => Hstep b a b' (list_elem_of_further _ _ _ Ha)) acc' r);
      [|done].
    apply (Hstep acc x acc'); [by apply elem_of_cons; left | done | done].
Qed.

Lemma step_labelled (rows : list (list string)) st row st' :
  row ∈ rows →
  Forall (fun e => labelled text_dictrionary purpose_color_map e
                   ∧ ∃ row, row ∈ rows ∧ titled_by row e) (edges (G st)) →
  step st row = Ok st' →
  Forall (fun e => labelled text_dictrionary purpose_color_map e
                   ∧ ∃ row, row ∈ rows ∧ titled_by row e) (edges (G st')).
Proof.
  intros Hrow Hst Hstep.
  apply process_row_reads in Hstep
    as (raw_idx & raw_text & data_type & d & cat & ds & dr & t & s & r & abbr
        & Hidx & Htext & _ & Hd & _ & _ & _ & [[_ Hacc] | [_ ->]]); [|done].
  apply accept_edge_purpose in Hacc as (sc & rc & purpose & Hpurpose & ->). simpl.
  destruct (add_flow_edges (G st) s t r sc rc
              (EdgeAttr raw_idx (purpose_color_of purpose_color_map purpose)
                        raw_text purpose "to")) as (new & -> & Hnew & _).
  apply Forall_app. split; [done|].
  eapply Forall_impl; [exact Hnew|]. intros e [He _]. split.
  - unfold labelled. rewrite He. simpl.
    unfold lookup_text in Htext.
    destruct (assoc raw_idx text_dictrionary) as [x|]; [|done].
    injection Htext as ->. done.
  - exists row. split; [done|]. exists d. rewrite He. simpl. done.
Qed.

Lemma step_node_kinds st row st' :
  built (G st)
  ∧ Forall (fun x => entity_node x ∨ data_type_node x ∨ bare_node x) (nodes (G st)) →
  step st row = Ok st' →
  built (G st')
  ∧ Forall (fun x => entity_node x ∨ data_type_node x ∨ bare_node x) (nodes (G st')).
Proof.
  intros [Hb Hst] Hstep.
  apply process_row_inv in Hstep
    as (raw_idx & raw_text & data_type & d & cat & t & s & r & abbr
        & _ & _ & _ & _ & [[Hvalid Hacc] | [_ ->]]); [|done].
  apply accept_inv in Hacc as (sc & rc & a & out & -> & _). simpl in *.
  apply valid_triple_distinct in Hvalid as (? & ? & ?).
  split; [by apply add_flow_built|].
  apply Forall_forall. intros x Hx.
  apply add_flow_node_kinds in Hx as [Hold | Hnew]; [|done..].
  rewrite Forall_forall in Hst. by apply Hst.
Qed.

(** X27 — every edge of the graph carries the id of a segment of the text
    dictionary together with that segment's text, and points forward. It
    stems from a row of the input: its id is the first column of that row, its
    title is the purposes of that row, joined, and its colour is the colour
    the colour map gives that title (the fallback colour when it gives
    none). *)
Theorem edges_carry_their_segment (rows : list (list string)) (st : state) :
  build rows = Ok st →
  Forall (fun e => labelled text_dictrionary purpose_color_map e
                   ∧ ∃ row, row ∈ rows ∧ titled_by row e) (edges (G st)).
Proof.
  apply (foldM_invariant_elem
           (fun st => Forall (fun e => labelled text_dictrionary purpose_color_map e
                                       ∧ ∃ row, row ∈ rows ∧ titled_by row e)
                        (edges (G st))));
    [|constructor].
  intros b row b' Hrow Hb Hstep. by eapply step_labelled.
Qed.

(** X28 — a node of the graph is of one of three kinds: an entity (size
    40, a party colour, titled by its name, or [unknown] for an empty
    sender), a data type (a box of size 20 in the data colour, titled by its
    non-empty name), or the node without any attribute, which can only be the
    node with the empty name: the one an edge creates for an empty data
    type. *)
Theorem nodes_by_kind (rows : list (list string)) (st : state) :
  build rows = Ok st →
  Forall (fun x => entity_node x ∨ data_type_node x ∨ bare_node x) (nodes (G st)).
Proof.
  intros Hrun.
  cut (built (G st)
       ∧ Forall (fun x => entity_node x ∨ data_type_node x ∨ bare_node x) (nodes (G st)));
    [tauto|].
  revert Hrun.
  apply (foldM_invariant
           (fun st => built (G st)
                      ∧ Forall (fun x => entity_node x ∨ data_type_node x ∨ bare_node x)
                          (nodes (G st)))).
  - intros b row b' Hb Hstep. by eapply step_node_kinds.
  - split; [split; constructor | constructor].
Qed.

End Attributes.

Lemma edges_carry_their_segment_witness :
  Doc.run Doc.two_flows = Ok Run.two_flows
  ∧ (fun e => (e_group (e_attr e), e_title (e_attr e))) <$> edges (G Run.two_flows)
    = [("1", "Contract; "); ("1", "Contract; "); ("2", "Marketing; ")]
  ∧ Forall (fun e => labelled Doc.text_dictrionary Doc.purpose_color_map e
                     ∧ ∃ row, row ∈ Doc.two_flows
                              ∧ titled_by (H := Sample.collaborators) row e)
      (edges (G Run.two_flows)).
Proof.
  split; [vm_compute; reflexivity|]. split; [vm_compute; reflexivity|].
  apply (@edges_carry_their_segment Sample.collaborators Doc.main_party
           Doc.text_dictrionary Doc.purpose_color_map Doc.two_flows).
  vm_compute; reflexivity.
Defined.

Lemma nodes_by_kind_witness :
  Doc.run empty_type_rows = Ok empty_type_run
  ∧ last (nodes (G empty_type_run)) = Some (EmptyString, no_attr)
  ∧ Forall (fun x => entity_node x ∨ data_type_node x ∨ bare_node x)
      (nodes (G empty_type_run)).
Proof.
  split_and!; [vm_compute; reflexivity | vm_compute; reflexivity |].
  apply (@nodes_by_kind Sample.collaborators Doc.main_party
           Doc.text_dictrionary Doc.purpose_color_map empty_type_rows).
  vm_compute; reflexivity.
Defined.

(** ** The components are a partition *)

Lemma components_go_disjoint g todo seen :
  simple_undirected g → todo ⊆ u_nodes g →
  (∀ x y, x ∈ seen → connected g x y → y ∈ seen) →
  (∀ c, c ∈ components_go g todo seen → c ## seen)
  ∧ pairwise_disjoint (components_go g todo seen).
Proof.
  intros Hg. revert seen. induction todo as [|v todo IH]; intros seen Hsub Hclosed; simpl.
  - split; [by intros c ?%elem_of_nil | by intros i j c1 c2 _ ?].
  - assert (Hsub' : todo ⊆ u_nodes g) by (intros x Hx; apply Hsub; by apply elem_of_cons; right).
    assert (Hv : v ∈ u_nodes g) by (apply Hsub; by apply elem_of_cons; left).
    destruct (decide (v ∈ seen)) as [Hin | Hout].
    { rewrite bool_decide_eq_true_2 by done. by apply IH. }
    rewrite bool_decide_eq_false_2 by done.
    assert (Hnew : plain_bfs g v ## seen).
    { intros y Hy%plain_bfs_connected Hys; [|done..].
      apply Hout. apply (Hclosed y v Hys). by apply connected_sym. }
    destruct (IH (seen ++ plain_bfs g v) Hsub') as [Hrest Hpair].
    { intros x y [Hx | Hx]%elem_of_app Hxy; apply elem_of_app.
      - left. by eapply Hclosed.
      - right. apply plain_bfs_connected; [done..|].
        apply plain_bfs_connected in Hx; [|done..]. by etrans. }
    split.
    + intros c [-> | Hc]%elem_of_cons; [done|].
      intros y Hy Hys. apply (Hrest c Hc y Hy). apply elem_of_app. by left.
    + intros [|i] [|j] c1 c2 Hij H1 H2; simpl in *.
      * done.
      * injection H1 as <-. apply list_elem_of_lookup_2 in H2.
        intros y Hy1 Hy2. apply (Hrest c2 H2 y Hy2). apply elem_of_app. by right.
      * injection H2 as <-. apply list_elem_of_lookup_2 in H1.
        intros y Hy1 Hy2. apply (Hrest c1 H1 y Hy1). apply elem_of_app. by right.
      * apply (Hpair i j); [congruence | done | done].
Qed.

Lemma pairwise_disjoint_cons c cs :
  pairwise_disjoint (c :: cs) ↔ (∀ c', c' ∈ cs → c ## c') ∧ pairwise_disjoint cs.
Proof.
  split.
  - intros Hpd. split.
    + intros c' [j Hj]%list_elem_of_lookup_1. by apply (Hpd 0%nat (S j)).
    + intros i j c1 c2 Hij H1 H2. apply (Hpd (S i) (S j)); [congruence | done | done].
  - intros [Hhead Htail] [|i] [|j] c1 c2 Hij H1 H2; simpl in *.
    + done.
    + injection H1 as <-. by apply Hhead, list_elem_of_lookup_2 with j.
    + injection H2 as <-. intros n Hn1 Hn2.
      by apply (Hhead c1 (list_elem_of_lookup_2 _ _ _ H1) n).
    + apply (Htail i j); [congruence | done | done].
Qed.

(** The trees taken from disjoint sets of nodes have disjoint nodes. *)
Lemma trees_disjoint ug cs :
  pairwise_disjoint cs →
  pairwise_disjoint
    (u_nodes <$> filter (fun t => is_tree t = true) (subgraph ug <$> cs)).
Proof.
  induction cs as [|c cs IH]; intros Hpd; [by intros i j c1 c2 _ ?|].
  apply pairwise_disjoint_cons in Hpd as [Hhead Htail].
  rewrite fmap_cons, filter_cons.
  destruct (decide (is_tree (subgraph ug c) = true)); [|by apply IH].
  rewrite fmap_cons. apply pairwise_disjoint_cons. split; [|by apply IH].
  intros ns (t & -> & Ht)%list_elem_of_fmap.
  apply list_elem_of_filter in Ht as [_ (c' & -> & Hc')%list_elem_of_fmap].
  intros n [Hn _]%list_elem_of_filter [Hn' _]%list_elem_of_filter.
  exact (Hhead c' Hc' n Hn Hn').
Qed.

(** X29 — no node is in two of the connected components that tree
    detection enumerates, and no node is in two of the trees it returns: the
    node lists of two trees at different positions of the result are
    disjoint. *)
Theorem components_partition (g : graph) :
  built g →
  pairwise_disjoint (connected_components (to_undirected g))
  ∧ pairwise_disjoint (u_nodes <$> finding_tree g).
Proof.
  intros Hg.
  assert (Hpd : pairwise_disjoint (connected_components (to_undirected g))).
  { unfold connected_components.
    apply components_go_disjoint; [by apply to_undirected_simple | done |].
    by intros x y ?%elem_of_nil. }
  split; [done | by apply trees_disjoint].
Qed.

(** Two paths and a cycle have three components and two trees. *)
Lemma components_partition_witness :
  built forest_and_cycle
  ∧ length (connected_components (to_undirected forest_and_cycle)) = 3%nat
  ∧ u_nodes <$> finding_tree forest_and_cycle = [["a"; "b"; "c"]; ["p"; "q"]]
  ∧ pairwise_disjoint (connected_components (to_undirected forest_and_cycle))
  ∧ pairwise_disjoint (u_nodes <$> finding_tree forest_and_cycle).
Proof.
  assert (Hbuilt : built forest_and_cycle) by sample_built.
  split_and!; [done | vm_compute; reflexivity | vm_compute; reflexivity
               | by apply (components_partition forest_and_cycle)
               | by apply (components_partition forest_and_cycle)].
Defined.
